(** * pysdpt3glue: the SeDuMi writer (sedumi_writer.py)

    A shallow embedding of [check_eliminatibility], [simplify_sedumi_model],
    [problem_data_prep], [make_sedumi_format_problem], [write_sedumi_model]
    and [sparsify_tall_mat], followed by the properties of the specification
    that concern them and by further properties read off the code.

    Modelling choices.
    - Array entries are numpy float64 values in the source.  The model is
      generic in the entry type: a [Scalar] gives the operations the source
      applies to entries; the facts about arithmetic that a proof relies on
      are collected in [ScalarLaws] (comparisons) and [ExactScalar] (exact
      arithmetic: no rounding, no infinities, no NaN).  Two instances are
      given.  [float_scalar] is binary64 arithmetic, the arithmetic of the
      source; it has no [ExactScalar] laws (0 * inf and 0 / 0 are NaN), and
      the runs of the source in which rounding, overflow or NaN matter are
      evaluated in it.  The rationals [Q] are exact; they serve for concrete
      runs in which every float64 operation is exact as well, and for the
      one property that speaks of the solutions of a system of equations.
    - A two-dimensional array is a [matrix]: its column count and its list of
      rows.  The vectors [b] (shape (m,1)) and [c] (shape (1,n)) handed to
      [simplify_sedumi_model] are lists of entries.
    - The counts [K['f']], [K['l']], [dims['l']] and the block sizes are
      natural numbers, as the input contract has them.
    - Python exceptions are the [Raise] results of [result]; code that
      mutates an object it was handed runs in the state monad [M], whose
      state is that object.
    - An index out of range raises [IndexError].  An operation on arrays
      whose shapes do not fit raises [ValueError]; numpy's broadcasting of an
      axis of length 1 is not modelled, and the properties that depend on
      shapes are stated for arrays of consistent shapes ([wf_arrays],
      [wf_problem_data]).  [np.ix_] is taken to accept an empty index list.
    - A [scipy.sparse.coo_matrix] is its shape and the list of its stored
      entries; [scipy.sparse.vstack] raises [ValueError] on an empty list of
      blocks.  The [while] loop of [sparsify_tall_mat] runs on fuel, and a run
      that the fuel does not end is [None].  A call of [scipy.io.savemat] is
      recorded with its arguments; the file system is not modelled. *)

From Stdlib Require Import QArith Qabs String Sorted Floats.
From stdpp Require Import base tactics option list.

Close Scope Q_scope.
Close Scope Z_scope.
Close Scope string_scope.
Open Scope nat_scope.

(** ** Exceptions and the state monad *)

Inductive error : Type :=
| IndexError
| ValueError
| AssertionError (msg : option string)   (* a failed [assert], with its message *)
| UnboundLocalError.

Inductive result (X : Type) : Type :=
| Ok (x : X)
| Raise (e : error).
Arguments Ok {X} x.
Arguments Raise {X} e.

Definition rbind {X Y : Type} (r : result X) (k : X -> result Y) : result Y :=
  match r with
  | Ok x => k x
  | Raise e => Raise e
  end.

Notation "'let?' x := r 'in' k" := (rbind r (fun x => k))
  (at level 10, x pattern, r at level 100, k at level 200).

(** A computation over a mutable object of type [S]: it returns the object as
    it is when the computation ends, normally or with an exception. *)
Definition M (S X : Type) : Type := S -> S * result X.

Definition ret {S X : Type} (x : X) : M S X := fun s => (s, Ok x).

Definition bind {S X Y : Type} (m : M S X) (k : X -> M S Y) : M S Y :=
  fun s => match m s with
           | (s', Ok x) => k x s'
           | (s', Raise e) => (s', Raise e)
           end.

Definition lift {S X : Type} (r : result X) : M S X := fun s => (s, r).

Definition read {S X : Type} (f : S -> result X) : M S X := fun s => (s, f s).

Definition update {S : Type} (f : S -> result S) : M S unit :=
  fun s => match f s with
           | Ok s' => (s', Ok tt)
           | Raise e => (s, Raise e)
           end.

Notation "'let*' x := m 'in' k" := (bind m (fun x => k))
  (at level 10, x pattern, m at level 100, k at level 200).

(** [for k in ks: acc = body(k, acc)] *)
Fixpoint for_each {S X : Type} (ks : list nat) (body : nat -> X -> M S X) (acc : X)
  : M S X :=
  match ks with
  | [] => ret acc
  | k :: ks' => let* acc' := body k acc in for_each ks' body acc'
  end.

(** [for k in ks: acc = body(k, acc)] for a body that only reads. *)
Fixpoint rfold {X : Type} (ks : list nat) (body : X -> nat -> result X) (acc : X)
  : result X :=
  match ks with
  | [] => Ok acc
  | k :: ks' => let? acc' := body acc k in rfold ks' body acc'
  end.

(** ** Array entries *)

Class Scalar (T : Type) : Type := {
  zero : T;                 (* 0, 0. *)
  one : T;                  (* 1. *)
  add : T -> T -> T;
  mul : T -> T -> T;
  div : T -> T -> T;
  opp : T -> T;
  sabs : T -> T;            (* abs(x) *)
  nonzero : T -> bool;      (* x != 0, the truth value of x *)
  nonneg : T -> bool        (* x >= 0 *)
}.

(** What the proofs use about comparisons and about [1.*x]. *)
Class ScalarLaws (T : Type) `{Scalar T} : Prop := {
  nonzero_sabs : forall x : T, nonzero (sabs x) = nonzero x;
  mul_one_l : forall x : T, mul one x = x
}.

(** What the proofs use about exact arithmetic. *)
Class ExactScalar (T : Type) `{Scalar T} : Prop := {
  nonzero_zero : nonzero (zero : T) = false;
  nonzero_opp : forall x : T, nonzero (opp x) = nonzero x;
  nonzero_add : forall x y : T,
      nonzero x = false -> nonzero y = false -> nonzero (add x y) = false;
  nonzero_mul_l : forall x y : T, nonzero x = false -> nonzero (mul x y) = false;
  nonzero_mul_r : forall x y : T, nonzero y = false -> nonzero (mul x y) = false;
  nonzero_div : forall x y : T, nonzero x = false -> nonzero (div x y) = false
}.

#[export] Instance Q_scalar : Scalar Q := {
  zero := 0%Q;
  one := 1%Q;
  add := Qplus;
  mul := Qmult;
  div := Qdiv;
  opp := Qopp;
  sabs := Qabs;
  nonzero := fun x => negb (Qeq_bool x 0%Q);
  nonneg := fun x => Qle_bool 0%Q x
}.

(** numpy's float64: the binary64 floats of IEEE 754, with its comparisons
    ([nan != 0] holds, [nan == 0] and [nan >= 0] do not). *)
#[export] Instance float_scalar : Scalar float := {
  zero := 0%float;
  one := 1%float;
  add := PrimFloat.add;
  mul := PrimFloat.mul;
  div := PrimFloat.div;
  opp := PrimFloat.opp;
  sabs := PrimFloat.abs;
  nonzero := fun x => negb (PrimFloat.eqb x 0%float);
  nonneg := fun x => PrimFloat.leb 0%float x
}.

(** The messages of the two [assert] statements that carry one (lines 70, 119). *)
Definition soc_msg : string :=
  "Sorry, at this time we can't handle SOC constraints!"%string.
Definition impossible_msg : string :=
  "This shouldn't be possible with allow_nonzero_b=False."%string.

(** ** The cone descriptor and the arrays *)

Record cone : Type := Cone {
  K_f : nat;            (* K['f'] *)
  K_l : nat;            (* K['l'] *)
  K_s : list nat        (* K['s'] *)
}.

Section Arrays.
Context {T : Type} `{Scalar T}.

Record matrix : Type := Matrix {
  ncols : nat;
  rows : list (list T)
}.

Definition nrows (A : matrix) : nat := length (rows A).

(** Every row has [ncols] entries: arrays are rectangular. *)
Definition wf_matrix (A : matrix) : Prop :=
  Forall (fun r => length r = ncols A) (rows A).

Definition entry (A : matrix) (k i : nat) : T := nth i (nth k (rows A) []) zero.

(** [v.any()] *)
Definition any (v : list T) : bool := existsb nonzero v.

(** [v[k]] *)
Definition vec_get (v : list T) (k : nat) : result T :=
  match v !! k with
  | Some x => Ok x
  | None => Raise IndexError
  end.

(** [A[k, i]] *)
Definition mat_get (A : matrix) (k i : nat) : result T :=
  if (k <? nrows A) && (i <? ncols A) then Ok (entry A k i) else Raise IndexError.

(** [A[k, :]] *)
Definition mat_row (A : matrix) (k : nat) : result (list T) :=
  match rows A !! k with
  | Some r => Ok r
  | None => Raise IndexError
  end.

Definition column (A : matrix) (i : nat) : list T :=
  map (fun r => nth i r zero) (rows A).

(** [A[:, i]] *)
Definition mat_col (A : matrix) (i : nat) : result (list T) :=
  if i <? ncols A then Ok (column A i) else Raise IndexError.

(** [v += w] for one-dimensional [v] and [w] of one length. *)
Definition vec_iadd (v w : list T) : result (list T) :=
  if length v =? length w then Ok (zip_with add v w) else Raise ValueError.

(** [v[i] += x] *)
Definition vec_iadd_at (v : list T) (i : nat) (x : T) : result (list T) :=
  if i <? length v then Ok (alter (fun a => add a x) i v) else Raise IndexError.

(** [v[i] *= x] *)
Definition vec_imul_at (v : list T) (i : nat) (x : T) : result (list T) :=
  if i <? length v then Ok (alter (fun a => mul a x) i v) else Raise IndexError.

(** [A[:, j] += w] *)
Definition mat_col_iadd (A : matrix) (j : nat) (w : list T) : result matrix :=
  if j <? ncols A then
    if nrows A =? length w then
      Ok (Matrix (ncols A)
            (zip_with (fun r x => alter (fun a => add a x) j r) (rows A) w))
    else Raise ValueError
  else Raise IndexError.

(** [A[:, i] *= x] *)
Definition mat_col_imul (A : matrix) (i : nat) (x : T) : result matrix :=
  if i <? ncols A then
    Ok (Matrix (ncols A) (map (alter (fun a => mul a x) i) (rows A)))
  else Raise IndexError.

(** [A[np.ix_(rs, cs)]]: a new array. *)
Definition mat_ix (A : matrix) (rs cs : list nat) : result matrix :=
  if forallb (fun r => r <? nrows A) rs && forallb (fun c => c <? ncols A) cs then
    Ok (Matrix (length cs) (map (fun r => map (fun c => entry A r c) cs) rs))
  else Raise IndexError.

(** [v[np.ix_(ks, [0])]] and [v[np.ix_([0], ks)]]: a new array. *)
Definition vec_ix (v : list T) (ks : list nat) : result (list T) :=
  if forallb (fun k => k <? length v) ks then
    Ok (map (fun k => nth k v zero) ks)
  else Raise IndexError.

(** ** check_eliminatibility (lines 226-259) *)

(** [while j < n and g[j] == 0: j += 1], where [tl] is [g[j:]]. *)
Fixpoint next_nonzero (tl : list T) (j : nat) : nat :=
  match tl with
  | [] => j
  | x :: tl' => if nonzero x then j else next_nonzero tl' (S j)
  end.

(** The body of [if g[i] != 0:], lines 247-256. *)
Definition classify (g : list T) (i : nat) : option nat * option nat :=
  let n := length g in
  let j := next_nonzero (drop (S i) g) (S i) in
  if j =? n then (Some i, None)
  else if negb (any (map sabs (drop (S j) g))) then (Some i, Some j)
  else (None, None).

(** [for i in range(n_elig):], lines 245-259. *)
Fixpoint scan_eligible (g : list T) (idx : list nat)
  : result (option nat * option nat) :=
  match idx with
  | [] => Ok (None, None)
  | i :: idx' =>
      match g !! i with
      | None => Raise IndexError
      | Some gi => if nonzero gi then Ok (classify g i) else scan_eligible g idx'
      end
  end.

Definition check_eliminatibility (g : list T) (h : T) (n_elig : option nat)
           (allow_nonzero_b : bool) : result (option nat * option nat) :=
  let n := length g in
  let n_elig := default n n_elig in
  if negb allow_nonzero_b && nonzero h then Ok (None, None)
  else scan_eligible g (seq 0 n_elig).

(** ** simplify_sedumi_model (lines 123-222) *)

(** The three array objects the caller hands over. *)
Record arrays : Type := Arrays {
  arr_A : matrix;
  arr_b : list T;
  arr_c : list T
}.

(** What the function returns: [A, b, c, K, offset]. *)
Record sedumi : Type := Sedumi {
  out_A : matrix;
  out_b : list T;
  out_c : list T;
  out_K : cone;
  out_offset : T
}.

Definition set_A (s : arrays) (A : matrix) : arrays := Arrays A (arr_b s) (arr_c s).
Definition set_b (s : arrays) (b : list T) : arrays := Arrays (arr_A s) b (arr_c s).
Definition set_c (s : arrays) (c : list T) : arrays := Arrays (arr_A s) (arr_b s) c.

(** The body of the loop over [ctr_k], lines 159-180. *)
Definition elim_row (n_free : nat) (allow_nonzero_b : bool) (ctr_k : nat) (offset : T)
  : M arrays T :=
  let* g := read (fun s => mat_row (arr_A s) ctr_k) in
  let* h := read (fun s => vec_get (arr_b s) ctr_k) in
  let* ij := lift (check_eliminatibility g h (Some n_free) allow_nonzero_b) in
  match ij with
  | (Some i, j) =>
      let* aki := read (fun s => mat_get (arr_A s) ctr_k i) in
      let* bk := read (fun s => vec_get (arr_b s) ctr_k) in
      let factor := div (mul one bk) aki in
      let* col := read (fun s => mat_col (arr_A s) i) in
      let* _ := update (fun s =>
                  let? b := vec_iadd (arr_b s) (map (mul (opp factor)) col) in
                  Ok (set_b s b)) in
      let* ci := read (fun s => vec_get (arr_c s) i) in
      let offset := add offset (mul (opp factor) ci) in
      let* _ :=
        match j with
        | Some j =>
            let* akj := read (fun s => mat_get (arr_A s) ctr_k j) in
            let factor := div (mul one akj) aki in
            let* col := read (fun s => mat_col (arr_A s) i) in
            let* _ := update (fun s =>
                        let? A := mat_col_iadd (arr_A s) j (map (mul (opp factor)) col) in
                        Ok (set_A s A)) in
            let* ci := read (fun s => vec_get (arr_c s) i) in
            update (fun s =>
                      let? c := vec_iadd_at (arr_c s) j (mul (opp factor) ci) in
                      Ok (set_c s c))
        | None => ret tt
        end in
      let* _ := update (fun s =>
                  let? A := mat_col_imul (arr_A s) i zero in Ok (set_A s A)) in
      let* _ := update (fun s =>
                  let? c := vec_imul_at (arr_c s) i zero in Ok (set_c s c)) in
      ret offset
  | (None, _) => ret offset
  end.

(** Lines 154-180: the pass over the rows, from [offset = 0]. *)
Definition elimination_pass (n_free n_ctr : nat) (allow_nonzero_b : bool)
  : M arrays T :=
  for_each (seq 0 n_ctr) (elim_row n_free allow_nonzero_b) zero.

(** The body of the loop over [col], lines 192-199; the accumulator is
    [(n_deleted_f, n_deleted_l, cols_to_keep)]. *)
Definition prune_col (A : matrix) (c : list T) (n_free vars_fl : nat)
           (acc : nat * nat * list nat) (col : nat) : result (nat * nat * list nat) :=
  let '(n_deleted_f, n_deleted_l, cols_to_keep) := acc in
  let? free_and_deletable :=
    if col <? n_free
    then (let? x := vec_get c col in Ok (negb (nonzero x)))
    else Ok false in
  let? nneg_and_deletable :=
    if (n_free <=? col) && (col <? vars_fl)
    then (let? x := vec_get c col in Ok (nonneg x))
    else Ok false in
  let? first :=
    if free_and_deletable
    then (let? v := mat_col A col in Ok (negb (any (map sabs v))))
    else Ok false in
  if first then Ok (S n_deleted_f, n_deleted_l, cols_to_keep)
  else
    let? second :=
      if nneg_and_deletable
      then (let? v := mat_col A col in Ok (negb (any (map sabs v))))
      else Ok false in
    if second then Ok (n_deleted_f, S n_deleted_l, cols_to_keep)
    else Ok (n_deleted_f, n_deleted_l, cols_to_keep ++ [col]).

(** The body of the loop over [row], lines 206-209. *)
Definition prune_row (A : matrix) (b : list T) (rows_to_keep : list nat) (row : nat)
  : result (list nat) :=
  let? x := vec_get b row in
  let? trivial :=
    if negb (nonzero x)
    then (let? r := mat_row A row in Ok (negb (any (map sabs r))))
    else Ok false in
  if trivial then Ok rows_to_keep else Ok (rows_to_keep ++ [row]).

(** Lines 183-222, on the arrays as the elimination pass left them. *)
Definition pruning_pass (K : cone) (n_vars n_ctr : nat) (offset : T) (s : arrays)
  : result sedumi :=
  let n_free := K_f K in
  let vars_fl := n_free + K_l K in
  let? (n_deleted_f, n_deleted_l, cols_to_keep) :=
    rfold (seq 0 n_vars) (prune_col (arr_A s) (arr_c s) n_free vars_fl) (0, 0, []) in
  let? rows_to_keep :=
    rfold (seq 0 n_ctr) (prune_row (arr_A s) (arr_b s)) [] in
  let? A := mat_ix (arr_A s) rows_to_keep cols_to_keep in
  let? b := vec_ix (arr_b s) rows_to_keep in
  let? c := vec_ix (arr_c s) cols_to_keep in
  if length cols_to_keep + n_deleted_f + n_deleted_l =? 0 then Raise (AssertionError None)
  else Ok (Sedumi A b c (Cone (K_f K - n_deleted_f) (K_l K - n_deleted_l) (K_s K)) offset).

(** The state is the caller's [A], [b] and [c]; [K] is only read. *)
Definition simplify_sedumi_model (K : cone) (allow_nonzero_b : bool)
  : M arrays sedumi :=
  let* n_vars := read (fun s => Ok (length (arr_c s))) in
  let* n_ctr := read (fun s => Ok (length (arr_b s))) in
  let* offset := elimination_pass (K_f K) n_ctr allow_nonzero_b in
  read (pruning_pass K n_vars n_ctr offset).

(** ** make_sedumi_format_problem (lines 43-120) *)

Record dims : Type := Dims {
  dims_l : nat;          (* dims['l'] *)
  dims_q : list nat;     (* dims['q'] *)
  dims_s : list nat      (* dims['s'] *)
}.

(** The caller's mapping: keys 'A', 'b', 'c', 'G', 'h' (two-dimensional
    cvxopt matrices) and 'dims'. *)
Record problem_data : Type := ProblemData {
  pd_A : matrix;
  pd_b : matrix;
  pd_c : matrix;
  pd_G : matrix;
  pd_h : matrix;
  pd_dims : dims
}.

(** [len(X)] of a cvxopt matrix: its number of entries. *)
Definition mat_len (X : matrix) : nat := nrows X * ncols X.

(** [cvxmat(1.*X)] *)
Definition to_float (X : matrix) : matrix :=
  Matrix (ncols X) (map (map (mul one)) (rows X)).

(** [X.T] *)
Definition transpose (X : matrix) : matrix :=
  Matrix (nrows X) (map (column X) (seq 0 (ncols X))).

(** [X[:k, :]] and [X[k:, :]] *)
Definition top_rows (k : nat) (X : matrix) : matrix := Matrix (ncols X) (take k (rows X)).
Definition rows_from (k : nat) (X : matrix) : matrix := Matrix (ncols X) (drop k (rows X)).

(** [np.zeros((m, n))], [np.zeros((m, 1))] or [np.zeros((1, m))], [np.eye(n)] *)
Definition zeros (m n : nat) : matrix := Matrix n (replicate m (replicate n zero)).
Definition vzeros (m : nat) : list T := replicate m zero.
Definition eye (n : nat) : matrix :=
  Matrix n (map (fun r => map (fun c => if r =? c then one else zero) (seq 0 n)) (seq 0 n)).

(** Lines 52-57.  Each assignment rebinds a key of the caller's mapping;
    the mapping itself is what the function returns. *)
Definition problem_data_prep : M problem_data unit :=
  let* _ := update (fun pd => Ok (ProblemData (to_float (pd_A pd)) (pd_b pd) (pd_c pd)
                                    (pd_G pd) (pd_h pd) (pd_dims pd))) in
  let* _ := update (fun pd => Ok (ProblemData (pd_A pd) (to_float (pd_b pd)) (pd_c pd)
                                    (pd_G pd) (pd_h pd) (pd_dims pd))) in
  let* _ := update (fun pd => Ok (ProblemData (pd_A pd) (pd_b pd) (pd_c pd)
                                    (to_float (pd_G pd)) (pd_h pd) (pd_dims pd))) in
  let* _ := update (fun pd => Ok (ProblemData (pd_A pd) (pd_b pd) (pd_c pd)
                                    (pd_G pd) (to_float (pd_h pd)) (pd_dims pd))) in
  update (fun pd => Ok (ProblemData (pd_A pd) (pd_b pd) (transpose (to_float (pd_c pd)))
                          (pd_G pd) (pd_h pd) (pd_dims pd))).

(** A slice [lo:hi] of an axis of length [n], clipped as Python does. *)
Definition clip (n lo hi : nat) : nat * nat :=
  let lo' := Nat.min lo n in (lo', Nat.max lo' (Nat.min hi n)).

(** [A[r0:r1, c0:c1] = V], for [V] of the shape of the slice. *)
Definition mat_set_block (A : matrix) (r0 r1 c0 c1 : nat) (V : matrix) : result matrix :=
  let '(r0, r1) := clip (nrows A) r0 r1 in
  let '(c0, c1) := clip (ncols A) c0 c1 in
  if (nrows V =? r1 - r0) && (ncols V =? c1 - c0) then
    Ok (Matrix (ncols A)
          (take r0 (rows A)
           ++ zip_with (fun r v => take c0 r ++ v ++ drop c1 r)
                       (take (r1 - r0) (drop r0 (rows A))) (rows V)
           ++ drop r1 (rows A)))
  else Raise ValueError.

(** [b[lo:hi] = V] for a column [b] of shape (m,1) and [V] of shape (hi-lo,1). *)
Definition col_set_slice (b : list T) (lo hi : nat) (V : matrix) : result (list T) :=
  let '(lo, hi) := clip (length b) lo hi in
  if (nrows V =? hi - lo) && (ncols V =? 1) then
    Ok (take lo b ++ column V 0 ++ drop hi b)
  else Raise ValueError.

(** [c[0, lo:hi] = V] for a row [c] of shape (1,n) and [V] of shape (1,hi-lo). *)
Definition row_set_slice (c : list T) (lo hi : nat) (V : matrix) : result (list T) :=
  let '(lo, hi) := clip (length c) lo hi in
  if (nrows V =? 1) && (ncols V =? hi - lo) then
    Ok (take lo c ++ nth 0 (rows V) [] ++ drop hi c)
  else Raise ValueError.

(** Lines 72-112, on the mapping as [problem_data_prep] left it. *)
Definition expansion_step (pd : problem_data)
  : result (matrix * list T * list T * cone) :=
  let nx := mat_len (pd_c pd) in
  let ni := dims_l (pd_dims pd) in
  let ne := mat_len (pd_b pd) in
  let num_sdp_vars := sum_list (map (fun s => s * s) (dims_s (pd_dims pd))) in
  let num_sedumi_vars := nx + ni + num_sdp_vars in
  let m := ne + ni + num_sdp_vars in
  let c_star := vzeros num_sedumi_vars in
  let? c_star := row_set_slice c_star 0 nx (pd_c pd) in
  let A_star := zeros m num_sedumi_vars in
  let b_star := vzeros m in
  let? A_star := mat_set_block A_star 0 ne 0 nx (pd_A pd) in
  let? b_star := col_set_slice b_star 0 ne (pd_b pd) in
  let? A_star := mat_set_block A_star ne (ne + ni) 0 nx (top_rows ni (pd_G pd)) in
  let? A_star := mat_set_block A_star ne (ne + ni) nx (nx + ni) (eye ni) in
  let? b_star := col_set_slice b_star ne (ne + ni) (top_rows ni (pd_h pd)) in
  let? A_star := mat_set_block A_star (ne + ni) m 0 nx (rows_from ni (pd_G pd)) in
  let? A_star := mat_set_block A_star (ne + ni) m (nx + ni) num_sedumi_vars
                   (eye num_sdp_vars) in
  let? b_star := col_set_slice b_star (ne + ni) m (rows_from ni (pd_h pd)) in
  Ok (A_star, b_star, c_star, Cone nx (dims_l (pd_dims pd)) (dims_s (pd_dims pd))).

(** A call of [simplify_sedumi_model] on arrays that only the caller's
    frame refers to: what they hold afterwards is not observed. *)
Definition call_simplify (A : matrix) (b c : list T) (K : cone) (allow_nonzero_b : bool)
  : result sedumi :=
  snd (simplify_sedumi_model K allow_nonzero_b (Arrays A b c)).

(** Lines 113-120.  [obj_cst] is bound only in the [if simplify:] branch. *)
Definition finish (simplify : bool) (ex : matrix * list T * list T * cone)
  : result sedumi :=
  let '(A_star, b_star, c_star, K) := ex in
  let? (A_star, b_star, c_star, K, obj_cst) :=
    if simplify then
      (let? r := call_simplify A_star b_star c_star K false in
       Ok (out_A r, out_b r, out_c r, out_K r, Some (out_offset r)))
    else Ok (A_star, b_star, c_star, K, None) in
  let? _ :=
    match obj_cst with
    | None => Raise UnboundLocalError
    | Some x => if nonzero x then Raise (AssertionError (Some impossible_msg)) else Ok tt
    end in
  call_simplify A_star b_star c_star K false.

(** The state is the caller's [problem_data] mapping. *)
Definition make_sedumi_format_problem (simplify : bool) : M problem_data sedumi :=
  let* _ := problem_data_prep in
  let* q := read (fun pd => Ok (dims_q (pd_dims pd))) in
  let* _ := lift (match q with
                | [] => Ok tt
                | _ :: _ => Raise (AssertionError (Some soc_msg))
                end) in
  let* ex := read expansion_step in
  lift (finish simplify ex).

(** Lines 34-35 of [write_sedumi_model]: the arrays and the cone descriptor
    that go on to [sparsify_tall_mat] and [scipy.io.savemat]. *)
Definition write_sedumi_model (simplify : bool)
  : M problem_data (matrix * list T * list T * cone) :=
  let* r := make_sedumi_format_problem simplify in
  let* _ := lift (if nonzero (out_offset r) then Raise (AssertionError None) else Ok tt) in
  ret (out_A r, out_b r, out_c r, out_K r).

(** ** The row test in the words of the specification (4.3) *)

(** The first index below [n_elig] whose coefficient is nonzero. *)
Definition first_eligible (g : list T) (n_elig : nat) : option nat :=
  head (List.filter (fun i => nonzero (nth i g zero)) (seq 0 (Nat.min n_elig (length g)))).

(** The indices after [i] whose coefficient is nonzero, in increasing order. *)
Definition later_nonzeros (g : list T) (i : nat) : list nat :=
  List.filter (fun j => nonzero (nth j g zero)) (seq (S i) (length g - S i)).

(** No later nonzero: one variable; exactly one: two variables; more: no match. *)
Definition pattern_of (g : list T) (i : nat) : option nat * option nat :=
  match later_nonzeros g i with
  | [] => (Some i, None)
  | [j] => (Some i, Some j)
  | _ :: _ :: _ => (None, None)
  end.

(** Steps 1-3 of the row test.  A scan that finds no nonzero coefficient and
    runs past the end of the row is an [IndexError]. *)
Definition check_spec (g : list T) (h : T) (n_elig : nat) (allow_nonzero_b : bool)
  : result (option nat * option nat) :=
  if negb allow_nonzero_b && nonzero h then Ok (None, None)
  else match first_eligible g n_elig with
       | Some i => Ok (pattern_of g i)
       | None => if n_elig <=? length g then Ok (None, None) else Raise IndexError
       end.

(** The positions of the nonzero entries of [tl], counted from [j0]. *)
Fixpoint nzpos (tl : list T) (j0 : nat) : list nat :=
  match tl with
  | [] => []
  | x :: tl' => if nonzero x then j0 :: nzpos tl' (S j0) else nzpos tl' (S j0)
  end.

(** ** Shapes, and the effect of one eliminated row *)

(** [A] is an m-by-n array, [b] has m entries and [c] has n. *)
Definition wf_arrays (m n : nat) (s : arrays) : Prop :=
  nrows (arr_A s) = m /\ ncols (arr_A s) = n /\ wf_matrix (arr_A s) /\
  length (arr_b s) = m /\ length (arr_c s) = n.

(** The arrays after a row [k] that selected [i] (and [j]) has been processed. *)
Definition eliminate (s : arrays) (k i : nat) (j : option nat) : arrays :=
  let A := arr_A s in
  let aki := entry A k i in
  let bk := nth k (arr_b s) zero in
  let factor := div (mul one bk) aki in
  let b' := zip_with add (arr_b s) (map (mul (opp factor)) (column A i)) in
  let ci := nth i (arr_c s) zero in
  let '(A1, c1) :=
    match j with
    | Some j =>
        let factor2 := div (mul one (entry A k j)) aki in
        (Matrix (ncols A)
           (zip_with (fun r x => alter (fun a => add a x) j r) (rows A)
                     (map (mul (opp factor2)) (column A i))),
         alter (fun a => add a (mul (opp factor2) ci)) j (arr_c s))
    | None => (A, arr_c s)
    end in
  Arrays (Matrix (ncols A) (map (alter (fun a => mul a zero) i) (rows A1)))
         b' (alter (fun a => mul a zero) i c1).

(** Column [i] of [A] holds zeros only. *)
Definition zero_column (A : matrix) (i : nat) : Prop :=
  forall r, r < nrows A -> nonzero (entry A r i) = false.

(** ** The pruning pass in the words of the specification (4.2, pass 2) *)

(** Every entry of [v] is zero. *)
Definition all_zero (v : list T) : bool := forallb (fun x => negb (nonzero x)) v.

(** A free column with objective coefficient 0 and no nonzero entry. *)
Definition drop_free (K : cone) (s : arrays) (col : nat) : bool :=
  (col <? K_f K) && negb (nonzero (nth col (arr_c s) zero))
  && all_zero (column (arr_A s) col).

(** A nonnegative column with objective coefficient >= 0 and no nonzero entry. *)
Definition drop_nonneg (K : cone) (s : arrays) (col : nat) : bool :=
  (K_f K <=? col) && (col <? K_f K + K_l K) && nonneg (nth col (arr_c s) zero)
  && all_zero (column (arr_A s) col).

Definition col_dropped (K : cone) (s : arrays) (col : nat) : bool :=
  drop_free K s col || drop_nonneg K s col.

(** A row [0 = 0]. *)
Definition row_dropped (s : arrays) (row : nat) : bool :=
  negb (nonzero (nth row (arr_b s) zero)) && all_zero (nth row (rows (arr_A s)) []).

Definition cols_kept (K : cone) (s : arrays) : list nat :=
  List.filter (fun col => negb (col_dropped K s col)) (seq 0 (length (arr_c s))).

Definition rows_kept (s : arrays) : list nat :=
  List.filter (fun row => negb (row_dropped s row)) (seq 0 (length (arr_b s))).

Definition dropped_free (K : cone) (s : arrays) : nat :=
  length (List.filter (drop_free K s) (seq 0 (length (arr_c s)))).

Definition dropped_nonneg (K : cone) (s : arrays) : nat :=
  length (List.filter (drop_nonneg K s) (seq 0 (length (arr_c s)))).

(** The reduced problem: the kept rows and columns, in their order. *)
Definition pruned (K : cone) (offset : T) (s : arrays) : sedumi :=
  let rs := rows_kept s in
  let cs := cols_kept K s in
  Sedumi (Matrix (length cs) (map (fun r => map (fun c => entry (arr_A s) r c) cs) rs))
         (map (fun r => nth r (arr_b s) zero) rs)
         (map (fun c => nth c (arr_c s) zero) cs)
         (Cone (K_f K - dropped_free K s) (K_l K - dropped_nonneg K s) (K_s K))
         offset.

(** The arrays of a returned problem, as the arguments of a further call. *)
Definition returned (r : sedumi) : arrays := Arrays (out_A r) (out_b r) (out_c r).

(** ** The expanded system in the words of the specification (4.1) *)

(** [X | Y] and [X] above [Y]. *)
Definition hstack (X Y : matrix) : matrix :=
  Matrix (ncols X + ncols Y) (zip_with app (rows X) (rows Y)).
Definition vstack (X Y : matrix) : matrix :=
  Matrix (ncols X) (rows X ++ rows Y).

(** [num_sdp_vars]: the sum of [s*s] over the semidefinite blocks. *)
Definition sdp_size (ss : list nat) : nat := sum_list (map (fun s => s * s) ss).

(** K.f + K.l + sum of s^2 over K.s *)
Definition cone_size (K : cone) : nat := K_f K + K_l K + sdp_size (K_s K).

(** A SourceProblem: [c] is a column of [nx] entries, [b] a column of [ne]
    entries, [A] is ne-by-nx, [G] has [nx] columns and a row for each of the
    [dims.l] inequalities and each of the entries of the semidefinite
    blocks, and [h] is a column with a row for each row of [G]. *)
Definition wf_problem_data (pd : problem_data) : Prop :=
  let nx := nrows (pd_c pd) in
  let ne := nrows (pd_b pd) in
  let k := dims_l (pd_dims pd) + sdp_size (dims_s (pd_dims pd)) in
  wf_matrix (pd_A pd) /\ wf_matrix (pd_b pd) /\ wf_matrix (pd_c pd) /\
  wf_matrix (pd_G pd) /\ wf_matrix (pd_h pd) /\
  ncols (pd_c pd) = 1 /\ ncols (pd_b pd) = 1 /\ ncols (pd_h pd) = 1 /\
  nrows (pd_A pd) = ne /\ ncols (pd_A pd) = nx /\
  nrows (pd_G pd) = k /\ ncols (pd_G pd) = nx /\ nrows (pd_h pd) = k.

(** The layout [original x | inequality slacks | SDP slacks]:
    rows [A | 0 | 0], [G_l | I | 0] and [G_s | 0 | I], right-hand sides
    [b], [h_l] and [h_s], objective [c, 0, 0] and [K = {f: nx, l: dims.l,
    s: dims.s}]. *)
Definition expanded_layout (pd : problem_data) : matrix * list T * list T * cone :=
  let nx := nrows (pd_c pd) in
  let ne := nrows (pd_b pd) in
  let ni := dims_l (pd_dims pd) in
  let nsdp := sdp_size (dims_s (pd_dims pd)) in
  let G_l := top_rows ni (pd_G pd) in
  let G_s := rows_from ni (pd_G pd) in
  let h_l := top_rows ni (pd_h pd) in
  let h_s := rows_from ni (pd_h pd) in
  (vstack (hstack (hstack (pd_A pd) (zeros ne ni)) (zeros ne nsdp))
     (vstack (hstack (hstack G_l (eye ni)) (zeros ni nsdp))
             (hstack (hstack G_s (zeros nsdp ni)) (eye nsdp))),
   column (pd_b pd) 0 ++ column h_l 0 ++ column h_s 0,
   column (pd_c pd) 0 ++ vzeros ni ++ vzeros nsdp,
   Cone nx ni (dims_s (pd_dims pd))).

(** The caller's mapping after the call: ['c'] is the transposed row. *)
Definition prepped (pd : problem_data) : problem_data :=
  ProblemData (pd_A pd) (pd_b pd) (transpose (pd_c pd)) (pd_G pd) (pd_h pd) (pd_dims pd).

(** Dimension consistency of a returned problem. *)
Definition consistent (r : sedumi) : Prop :=
  ncols (out_A r) = cone_size (out_K r) /\ nrows (out_A r) = length (out_b r).

(** What [A[r0:r1, c0:c1] = V] leaves in [A]. *)
Definition blit (A : matrix) (r0 r1 c0 c1 : nat) (V : matrix) : matrix :=
  Matrix (ncols A)
    (take r0 (rows A)
     ++ zip_with (fun r v => take c0 r ++ v ++ drop c1 r)
                 (take (r1 - r0) (drop r0 (rows A))) (rows V)
     ++ drop r1 (rows A)).
End Arrays.

Arguments matrix T : clear implicits.
Arguments arrays T : clear implicits.
Arguments sedumi T : clear implicits.
Arguments problem_data T : clear implicits.

(** * The rest of the file: definitions *)

(** ** sparsify_tall_mat and the rest of write_sedumi_model (lines 36-40, 262-272) *)

Section Sparse.
Context {T : Type} `{Scalar T}.

(** A [scipy.sparse.coo_matrix]: its shape and the stored entries
    [(row, column, value)], in storage order. *)
Record coo : Type := Coo {
  coo_nrows : nat;
  coo_ncols : nat;
  coo_data : list (nat * nat * T)
}.

(** The nonzero entries of a row, from column [c] on. *)
Fixpoint row_entries (r c : nat) (row : list T) : list (nat * nat * T) :=
  match row with
  | [] => []
  | x :: row' =>
      if nonzero x then (r, c, x) :: row_entries r (S c) row'
      else row_entries r (S c) row'
  end.

(** The nonzero entries of the rows, in row-major order, from row [r] on. *)
Fixpoint dense_entries (r : nat) (rs : list (list T)) : list (nat * nat * T) :=
  match rs with
  | [] => []
  | row :: rs' => row_entries r 0 row ++ dense_entries (S r) rs'
  end.

(** [scipy.sparse.coo_matrix(X)] for a two-dimensional array [X]. *)
Definition coo_matrix (X : matrix T) : coo :=
  Coo (nrows X) (ncols X) (dense_entries 0 (rows X)).

(** [X.astype('d')] on an array of floats: a copy. *)
Definition astype_d (X : matrix T) : matrix T := X.

(** [M[lo:hi, :]] *)
Definition row_slice (M : matrix T) (lo hi : nat) : matrix T :=
  Matrix (ncols M) (take (hi - lo) (drop lo (rows M))).

Definition shift_rows (off : nat) (es : list (nat * nat * T)) : list (nat * nat * T) :=
  map (fun e => (off + e.1.1, e.1.2, e.2)) es.

(** The entries of the blocks, each moved down by the rows above it. *)
Fixpoint stack_entries (off : nat) (blocks : list coo) : list (nat * nat * T) :=
  match blocks with
  | [] => []
  | B :: blocks' => shift_rows off (coo_data B) ++ stack_entries (off + coo_nrows B) blocks'
  end.

(** [scipy.sparse.vstack(blocks)]: an empty list of blocks, or blocks of
    different widths, are a [ValueError]. *)
Definition sparse_vstack (blocks : list coo) : result coo :=
  match blocks with
  | [] => Raise ValueError
  | B0 :: _ =>
      if forallb (fun B => coo_ncols B =? coo_ncols B0) blocks then
        Ok (Coo (sum_list (map coo_nrows blocks)) (coo_ncols B0) (stack_entries 0 blocks))
      else Raise ValueError
  end.

(** The [while] loop of lines 268-271; [None] when [fuel] iterations did not
    end it. *)
Fixpoint sparsify_loop (fuel : nat) (M : matrix T) (block_height i : nat)
         (spmat_collector : list coo) : option (list coo) :=
  match fuel with
  | 0 => None
  | S fuel' =>
      if i * block_height <? nrows M then
        let curr_block := row_slice M (i * block_height) ((i + 1) * block_height) in
        sparsify_loop fuel' M block_height (i + 1)
                      (spmat_collector ++ [coo_matrix (astype_d curr_block)])
      else Some spmat_collector
  end.

Definition sparsify_tall_mat (fuel : nat) (M : matrix T) (block_height : option nat)
  : option (result coo) :=
  let block_height := default 1000 block_height in
  match sparsify_loop fuel M block_height 0 [] with
  | Some spmat_collector => Some (sparse_vstack spmat_collector)
  | None => None
  end.

(** The arrays [b] (shape (m,1)) and [c] (shape (1,n)) as two-dimensional
    arrays. *)
Definition col_matrix (b : list T) : matrix T := Matrix 1 (map (fun x => [x]) b).
Definition row_matrix (c : list T) : matrix T := Matrix (length c) [c].

(** One call of [scipy.io.savemat(target, {'A': A, 'b': b, 'c': c, 'K': K})]. *)
Record mat_file : Type := MatFile {
  file_target : string;
  file_A : coo;
  file_b : coo;
  file_c : coo;
  file_K : cone
}.

(** Lines 34-40.  The state is the caller's mapping and the list of the
    [savemat] calls made so far; [None] when a loop of [sparsify_tall_mat]
    did not end within [fuel] iterations. *)
Definition write_sedumi_model_file (fuel : nat) (target : string) (simplify : bool)
           (st : problem_data T * list mat_file)
  : option (problem_data T * list mat_file * result string) :=
  match write_sedumi_model simplify st.1 with
  | (pd, Raise e) => Some (pd, st.2, Raise e)
  | (pd, Ok (A, b, c, K)) =>
      match sparsify_tall_mat fuel A None with
      | None => None
      | Some (Raise e) => Some (pd, st.2, Raise e)
      | Some (Ok A) =>
          match sparsify_tall_mat fuel (col_matrix b) None with
          | None => None
          | Some (Raise e) => Some (pd, st.2, Raise e)
          | Some (Ok b) =>
              match sparsify_tall_mat fuel (row_matrix c) None with
              | None => None
              | Some (Raise e) => Some (pd, st.2, Raise e)
              | Some (Ok c) => Some (pd, st.2 ++ [MatFile target A b c K], Ok target)
              end
          end
      end
  end.

(** The value stored at [(r, c)], 0 where nothing is stored. *)
Definition coo_get (S : coo) (r c : nat) : T :=
  match List.find (fun e => (e.1.1 =? r) && (e.1.2 =? c)) (coo_data S) with
  | Some e => e.2
  | None => zero
  end.
End Sparse.

Arguments coo T : clear implicits.
Arguments mat_file T : clear implicits.

(** ** Solutions of a problem in SeDuMi format, over the rationals *)

Definition Qsum (l : list Q) : Q := fold_right Qplus 0%Q l.

(** The left-hand side of constraint [k] at the point [x]: the sum of
    [A[k, l] * x[l]] over the columns. *)
Definition lhs (A : matrix Q) (x : nat -> Q) (k : nat) : Q :=
  Qsum (map (fun l => (entry A k l * x l)%Q) (seq 0 (ncols A))).

(** [A x = b] *)
Definition solves (A : matrix Q) (b : list Q) (x : nat -> Q) : Prop :=
  forall k, k < nrows A -> (lhs A x k == nth k b 0)%Q.

(** [c x] *)
Definition objective (c : list Q) (x : nat -> Q) : Q :=
  Qsum (map (fun l => (nth l c 0 * x l)%Q) (seq 0 (length c))).
(** ** Points of the source problem *)

(** [A x = b] and [G x + y = h], for the variables [x] and the slacks [y]. *)
Definition source_solves (pd : problem_data Q) (x y : nat -> Q) : Prop :=
  solves (pd_A pd) (column (pd_b pd) 0) x /\
  forall k, k < nrows (pd_G pd) -> (lhs (pd_G pd) x k + y k == entry (pd_h pd) k 0)%Q.

(** [c x], for the column [c] of the source problem. *)
Definition source_objective (pd : problem_data Q) (x : nat -> Q) : Q :=
  objective (column (pd_c pd) 0) x.

(** The slack part of a point [x | y] of the expanded problem. *)
Definition slacks (nx : nat) (w : nat -> Q) : nat -> Q := fun k => w (nx + k).

(** * Properties *)

(** ** The rationals are exact scalars *)

Lemma Q_nonzero_num (x : Q) : nonzero x = negb (Z.eqb (Qnum x) 0).
Proof. destruct x as [[|p|p] d]; reflexivity. Qed.

Lemma Q_nonzero_false (x : Q) : nonzero x = false <-> Qnum x = 0%Z.
Proof.
  rewrite Q_nonzero_num, negb_false_iff. apply Z.eqb_eq.
Qed.

#[export] Instance Q_laws : ScalarLaws Q.
Proof.
  split.
  - intros [[|p|p] d]; reflexivity.
  - intros [[|p|p] d]; reflexivity.
Qed.

#[export] Instance Q_exact : ExactScalar Q.
Proof.
  split.
  - reflexivity.
  - intros [[|p|p] d]; reflexivity.
  - intros x y Hx Hy. apply Q_nonzero_false in Hx, Hy. apply Q_nonzero_false.
    destruct x, y; cbn in *. subst. reflexivity.
  - intros x y Hx. apply Q_nonzero_false in Hx. apply Q_nonzero_false.
    destruct x, y; cbn in *. subst. reflexivity.
  - intros x y Hy. apply Q_nonzero_false in Hy. apply Q_nonzero_false.
    destruct x, y; cbn in *. subst. apply Z.mul_0_r.
  - intros x y Hx. apply Q_nonzero_false in Hx. apply Q_nonzero_false.
    destruct x, y; cbn in *. subst. reflexivity.
Qed.

(** ** check_eliminatibility *)

Section CheckProofs.
Context {T : Type} `{ScalarLaws T}.

Lemma nzpos_filter (tl : list T) (pre : list T) :
  nzpos tl (length pre) =
  List.filter (fun j => nonzero (nth j (pre ++ tl) zero)) (seq (length pre) (length tl)).
Proof.
  revert pre. induction tl as [|x tl IH]; intros pre; [reflexivity|].
  cbn [nzpos length seq List.filter].
  rewrite app_nth2 by lia. rewrite Nat.sub_diag. cbn [nth].
  specialize (IH (pre ++ [x])). rewrite length_app in IH. cbn [length] in IH.
  rewrite Nat.add_1_r in IH. rewrite <- app_assoc in IH. cbn [app] in IH.
  rewrite IH. reflexivity.
Qed.

Lemma later_nonzeros_nzpos (g : list T) (i : nat) :
  later_nonzeros g i = nzpos (drop (S i) g) (S i).
Proof.
  unfold later_nonzeros.
  destruct (decide (S i <= length g)) as [Hle|Hgt].
  - pose proof (nzpos_filter (drop (S i) g) (take (S i) g)) as E.
    rewrite take_drop, length_take, length_drop in E.
    rewrite Nat.min_l in E by lia. exact (eq_sym E).
  - rewrite drop_ge by lia. replace (length g - S i) with 0 by lia. reflexivity.
Qed.

Lemma any_sabs_nzpos (v : list T) (j0 : nat) :
  any (map sabs v) = false <-> nzpos v j0 = [].
Proof.
  revert j0. induction v as [|x v IH]; intros j0; cbn; [tauto|].
  rewrite nonzero_sabs. destruct (nonzero x); cbn.
  - split; discriminate.
  - apply IH.
Qed.

Lemma next_nonzero_nzpos (tl : list T) (j0 : nat) :
  match nzpos tl j0 with
  | [] => next_nonzero tl j0 = j0 + length tl
  | j :: rest =>
      next_nonzero tl j0 = j /\ j0 <= j < j0 + length tl /\
      rest = nzpos (drop (S (j - j0)) tl) (S j)
  end.
Proof.
  revert j0. induction tl as [|x tl IH]; intros j0; cbn.
  - lia.
  - destruct (nonzero x).
    + split; [reflexivity|]. split; [lia|]. rewrite Nat.sub_diag. reflexivity.
    + specialize (IH (S j0)). destruct (nzpos tl (S j0)) as [|j rest].
      * lia.
      * destruct IH as (Hn & Hj & Hrest). split; [exact Hn|]. split; [lia|].
        replace (j - j0) with (S (j - S j0)) by lia. exact Hrest.
Qed.

Lemma classify_spec (g : list T) (i : nat) :
  i < length g -> classify g i = pattern_of g i.
Proof.
  intros Hi. unfold classify, pattern_of. rewrite later_nonzeros_nzpos.
  pose proof (next_nonzero_nzpos (drop (S i) g) (S i)) as Hn.
  destruct (nzpos (drop (S i) g) (S i)) as [|j rest] eqn:E.
  - rewrite Hn, length_drop. replace (S i + (length g - S i)) with (length g) by lia.
    rewrite Nat.eqb_refl. reflexivity.
  - destruct Hn as (Hj & Hr & Hrest). rewrite Hj. rewrite length_drop in Hr.
    destruct (Nat.eqb_spec j (length g)) as [?|_]; [lia|].
    rewrite drop_drop in Hrest.
    replace (S i + S (j - S i)) with (S j) in Hrest by lia.
    destruct rest as [|j2 rest].
    + symmetry in Hrest. apply (any_sabs_nzpos _ (S j)) in Hrest. rewrite Hrest. reflexivity.
    + destruct (any (map sabs (drop (S j) g))) eqn:Ea; [reflexivity|].
      apply (any_sabs_nzpos _ (S j)) in Ea. congruence.
Qed.

Lemma scan_eligible_seq (g : list T) (n lo : nat) :
  lo <= length g ->
  scan_eligible g (seq lo n) =
  match head (List.filter (fun i => nonzero (nth i g zero))
                (seq lo (Nat.min (lo + n) (length g) - lo))) with
  | Some i => Ok (pattern_of g i)
  | None => if lo + n <=? length g then Ok (None, None) else Raise IndexError
  end.
Proof.
  revert lo. induction n as [|n IH]; intros lo Hlo.
  - cbn [seq scan_eligible]. replace (Nat.min (lo + 0) (length g) - lo) with 0 by lia.
    cbn. destruct (Nat.leb_spec (lo + 0) (length g)); [reflexivity|lia].
  - cbn [seq scan_eligible]. destruct (g !! lo) as [x|] eqn:E.
    + pose proof (lookup_lt_Some _ _ _ E) as Hlt.
      replace (Nat.min (lo + S n) (length g) - lo)
        with (S (Nat.min (S lo + n) (length g) - S lo)) by lia.
      cbn [seq List.filter]. rewrite (nth_lookup_Some _ _ _ _ E).
      destruct (nonzero x).
      * cbn. rewrite classify_spec by exact Hlt. reflexivity.
      * rewrite IH by lia. replace (lo + S n) with (S lo + n) by lia. reflexivity.
    + apply lookup_ge_None in E.
      replace (Nat.min (lo + S n) (length g) - lo) with 0 by lia. cbn.
      destruct (Nat.leb_spec (lo + S n) (length g)); [lia|reflexivity].
Qed.

(** The loops of [check_eliminatibility] compute [check_spec]. *)
Lemma check_eliminatibility_spec (g : list T) (h : T) (n_elig : option nat)
        (allow_nonzero_b : bool) :
  check_eliminatibility g h n_elig allow_nonzero_b =
  check_spec g h (default (length g) n_elig) allow_nonzero_b.
Proof.
  unfold check_eliminatibility, check_spec, first_eligible.
  destruct (negb allow_nonzero_b && nonzero h); [reflexivity|].
  rewrite scan_eligible_seq by lia. cbn [Nat.add]. rewrite Nat.sub_0_r. reflexivity.
Qed.
End CheckProofs.

(** ** The elimination pass *)

Section ElimProofs.
Context {T : Type} `{ScalarLaws T}.

Lemma bind_Ok {S X Y} (m : M S X) (k : X -> M S Y) s s1 x :
  m s = (s1, Ok x) -> bind m k s = k x s1.
Proof. unfold bind. intros ->. reflexivity. Qed.

Lemma bind_Raise {S X Y} (m : M S X) (k : X -> M S Y) s s1 e :
  m s = (s1, Raise e) -> bind m k s = (s1, Raise e).
Proof. unfold bind. intros ->. reflexivity. Qed.

Lemma bind_inv {S X Y} (m : M S X) (k : X -> M S Y) s s' y :
  bind m k s = (s', Ok y) -> exists s1 x, m s = (s1, Ok x) /\ k x s1 = (s', Ok y).
Proof.
  unfold bind. destruct (m s) as [s1 [x|e]]; [eauto|discriminate].
Qed.

Lemma rbind_inv {X Y} (r : result X) (k : X -> result Y) y :
  rbind r k = Ok y -> exists x, r = Ok x /\ k x = Ok y.
Proof. destruct r; cbn; [eauto|discriminate]. Qed.

Lemma vec_get_nth (v : list T) (k : nat) :
  k < length v -> vec_get v k = Ok (nth k v zero).
Proof.
  intros Hk. unfold vec_get. destruct (v !! k) eqn:E.
  - rewrite (nth_lookup_Some _ _ _ _ E). reflexivity.
  - apply lookup_ge_None in E. lia.
Qed.

Lemma vec_get_inv (v : list T) (k : nat) x :
  vec_get v k = Ok x -> v !! k = Some x.
Proof. unfold vec_get. destruct (v !! k); congruence. Qed.

Lemma mat_row_inv (A : matrix T) (k : nat) g :
  mat_row A k = Ok g -> rows A !! k = Some g.
Proof. unfold mat_row. destruct (rows A !! k); congruence. Qed.

Lemma wf_row_length (A : matrix T) k g :
  wf_matrix A -> rows A !! k = Some g -> length g = ncols A.
Proof.
  intros Hwf Hk. unfold wf_matrix in Hwf. rewrite Forall_forall in Hwf.
  apply Hwf. eapply list_elem_of_lookup_2. exact Hk.
Qed.

Lemma entry_row (A : matrix T) k g i :
  rows A !! k = Some g -> entry A k i = nth i g zero.
Proof. intros Hk. unfold entry. rewrite (nth_lookup_Some _ _ _ _ Hk). reflexivity. Qed.

Lemma length_column (A : matrix T) i : length (column A i) = nrows A.
Proof. unfold column, nrows. apply length_map. Qed.

Lemma nth_column (A : matrix T) i r : r < nrows A -> nth r (column A i) zero = entry A r i.
Proof.
  intros Hr. unfold column, entry.
  rewrite (nth_indep _ zero (nth i [] zero)) by (rewrite length_map; exact Hr).
  rewrite (map_nth (fun r => nth i r zero)). reflexivity.
Qed.

Lemma head_filter_seq (f : nat -> bool) (n lo i : nat) :
  head (List.filter f (seq lo n)) = Some i ->
  lo <= i < lo + n /\ f i = true /\ forall i', lo <= i' < i -> f i' = false.
Proof.
  revert lo. induction n as [|n IH]; intros lo; cbn [seq List.filter]; [discriminate|].
  destruct (f lo) eqn:E.
  - intros [= <-]. repeat split; try lia. exact E.
  - intros Hh. destruct (IH _ Hh) as (Hr & Hf & Hmin). repeat split; try lia; [exact Hf|].
    intros i' Hi'. destruct (decide (i' = lo)) as [->|Hne]; [exact E|]. apply Hmin. lia.
Qed.

(** [first_eligible] is the first nonzero coefficient of the window. *)
Lemma first_eligible_Some (g : list T) (n_elig i : nat) :
  first_eligible g n_elig = Some i ->
  i < n_elig /\ i < length g /\ nonzero (nth i g zero) = true /\
  forall i', i' < i -> nonzero (nth i' g zero) = false.
Proof.
  intros Hf. apply head_filter_seq in Hf. destruct Hf as (Hr & Hf & Hmin).
  repeat split; try lia; [exact Hf|]. intros i' Hi'. apply Hmin. lia.
Qed.

(** [later_nonzeros] lists exactly the nonzero coefficients after [i]. *)
Lemma later_nonzeros_In (g : list T) (i j : nat) :
  In j (later_nonzeros g i) <-> i < j < length g /\ nonzero (nth j g zero) = true.
Proof.
  unfold later_nonzeros. rewrite filter_In, in_seq. intuition lia.
Qed.

(** Where [check_eliminatibility] finds a pattern, the selected entries are
    nonzero entries of the row. *)
Lemma check_selected (g : list T) (h : T) (n_elig : nat) (allow : bool) i j :
  check_eliminatibility g h (Some n_elig) allow = Ok (Some i, j) ->
  (allow = true \/ nonzero h = false) /\
  i < n_elig /\ i < length g /\ nonzero (nth i g zero) = true /\
  forall j', j = Some j' -> i < j' < length g /\ nonzero (nth j' g zero) = true.
Proof.
  intros Hc. rewrite check_eliminatibility_spec in Hc. unfold check_spec in Hc.
  simpl default in Hc.
  destruct (negb allow && nonzero h) eqn:Hg; [discriminate|].
  split; [destruct allow, (nonzero h); auto; discriminate|].
  destruct (first_eligible g n_elig) as [i0|] eqn:Ef;
    [|destruct (n_elig <=? length g); discriminate].
  apply first_eligible_Some in Ef. destruct Ef as (H1 & H2 & H3 & _).
  unfold pattern_of in Hc.
  destruct (later_nonzeros g i0) as [|j0 [|j1 l']] eqn:El; try discriminate.
  - injection Hc as <- <-. do 3 (split; [assumption|]). discriminate.
  - injection Hc as <- <-. do 3 (split; [assumption|]). intros j' [= <-].
    assert (Hj : In j0 (later_nonzeros g i0)) by (rewrite El; left; reflexivity).
    apply later_nonzeros_In in Hj. intuition lia.
Qed.

Lemma mat_get_entry (A : matrix T) k i :
  k < nrows A -> i < ncols A -> mat_get A k i = Ok (entry A k i).
Proof.
  intros Hk Hi. unfold mat_get.
  destruct (Nat.ltb_spec k (nrows A)); [|lia].
  destruct (Nat.ltb_spec i (ncols A)); [|lia]. reflexivity.
Qed.

Lemma mat_col_column (A : matrix T) i : i < ncols A -> mat_col A i = Ok (column A i).
Proof. intros Hi. unfold mat_col. destruct (Nat.ltb_spec i (ncols A)); [reflexivity|lia]. Qed.

Lemma elim_row_run (s : arrays T) (m n n_free : nat) (allow : bool) (k : nat)
      (offset : T) (g : list T) (h : T) :
  wf_arrays m n s ->
  rows (arr_A s) !! k = Some g -> arr_b s !! k = Some h ->
  elim_row n_free allow k offset s =
  match check_eliminatibility g h (Some n_free) allow with
  | Ok (Some i, j) =>
      (eliminate s k i j,
       Ok (add offset (mul (opp (div (mul one h) (entry (arr_A s) k i)))
                           (nth i (arr_c s) zero))))
  | Ok (None, _) => (s, Ok offset)
  | Raise e => (s, Raise e)
  end.
Proof.
  intros (Hm & Hn & Hwf & Hb & Hc) Hg Hh.
  pose proof (wf_row_length _ _ _ Hwf Hg) as Hlg.
  pose proof (lookup_lt_Some _ _ _ Hg) as Hk.
  unfold elim_row.
  rewrite (bind_Ok _ _ s s g) by (unfold read, mat_row; rewrite Hg; reflexivity).
  rewrite (bind_Ok _ _ s s h) by (unfold read, vec_get; rewrite Hh; reflexivity).
  destruct (check_eliminatibility g h (Some n_free) allow) as [[[i|] j]|e] eqn:Ec.
  2: { rewrite (bind_Ok _ _ s s (None, j)) by reflexivity. reflexivity. }
  2: { rewrite (bind_Raise _ _ s s e) by reflexivity. reflexivity. }
  rewrite (bind_Ok _ _ s s (Some i, j)) by reflexivity.
  destruct (check_selected _ _ _ _ _ _ Ec) as (_ & _ & Hi & _ & Hj).
  rewrite (bind_Ok _ _ s s (entry (arr_A s) k i))
    by (unfold read; rewrite mat_get_entry by (unfold nrows; lia); reflexivity).
  rewrite (bind_Ok _ _ s s h) by (unfold read, vec_get; rewrite Hh; reflexivity).
  rewrite (bind_Ok _ _ s s (column (arr_A s) i))
    by (unfold read; rewrite mat_col_column by lia; reflexivity).
  assert (Hh' : nth k (arr_b s) zero = h) by (apply nth_lookup_Some with (d:=zero) in Hh; exact Hh).
  unfold eliminate. rewrite Hh'.
  set (factor := div (mul one h) (entry (arr_A s) k i)).
  set (b' := zip_with add (arr_b s) (map (mul (opp factor)) (column (arr_A s) i))).
  rewrite (bind_Ok _ _ s (set_b s b') tt).
  2: { unfold update, vec_iadd. rewrite length_map, length_column.
       destruct (Nat.eqb_spec (length (arr_b s)) (nrows (arr_A s))); [reflexivity|lia]. }
  rewrite (bind_Ok _ _ (set_b s b') (set_b s b') (nth i (arr_c s) zero))
    by (unfold read; cbn [set_b arr_c]; rewrite vec_get_nth by lia; reflexivity).
  destruct j as [j|].
  - destruct (Hj j eq_refl) as [Hjl _].
    unfold bind, read, update, ret.
    cbn [set_A set_b set_c arr_A arr_b arr_c].
    rewrite mat_get_entry by (unfold nrows; lia). rewrite mat_col_column by lia.
    unfold mat_col_iadd. rewrite length_map, length_column.
    destruct (Nat.ltb_spec j (ncols (arr_A s))); [|lia]. rewrite Nat.eqb_refl.
    cbn [rbind set_A set_b set_c arr_A arr_b arr_c].
    rewrite vec_get_nth by lia.
    unfold vec_iadd_at. destruct (Nat.ltb_spec j (length (arr_c s))); [|lia].
    cbn [rbind set_A set_b set_c arr_A arr_b arr_c].
    unfold mat_col_imul. cbn [ncols rows].
    destruct (Nat.ltb_spec i (ncols (arr_A s))); [|lia].
    cbn [rbind set_A set_b set_c arr_A arr_b arr_c].
    unfold vec_imul_at. rewrite length_alter.
    destruct (Nat.ltb_spec i (length (arr_c s))); [|lia].
    cbn [rbind set_A set_b set_c arr_A arr_b arr_c ncols rows].
    reflexivity.
  - unfold bind, read, update, ret.
    cbn [set_A set_b set_c arr_A arr_b arr_c].
    unfold mat_col_imul. cbn [ncols rows].
    destruct (Nat.ltb_spec i (ncols (arr_A s))); [|lia].
    cbn [rbind set_A set_b set_c arr_A arr_b arr_c].
    unfold vec_imul_at.
    destruct (Nat.ltb_spec i (length (arr_c s))); [|lia].
    cbn [rbind set_A set_b set_c arr_A arr_b arr_c ncols rows].
    destruct (arr_A s); reflexivity.
Qed.

Lemma nth_alter (f : T -> T) (i col : nat) (l : list T) :
  nth col (alter f i l) zero =
  if decide (col = i) then (if decide (i < length l) then f (nth i l zero) else zero)
  else nth col l zero.
Proof.
  rewrite !nth_lookup. destruct (decide (col = i)) as [->|Hne].
  - rewrite list_lookup_alter_eq. destruct (decide (i < length l)) as [Hlt|Hge].
    + destruct (lookup_lt_is_Some_2 l i Hlt) as [x Hx]. rewrite Hx. reflexivity.
    + rewrite (lookup_ge_None_2 l i) by lia. reflexivity.
  - rewrite list_lookup_alter_ne by congruence. reflexivity.
Qed.



Lemma nth_zip_with_add (v w : list T) (r : nat) :
  r < length v -> length w = length v ->
  nth r (zip_with add v w) zero = add (nth r v zero) (nth r w zero).
Proof.
  intros Hr Hw.
  destruct (lookup_lt_is_Some_2 v r Hr) as [x Hx].
  destruct (lookup_lt_is_Some_2 w r ltac:(lia)) as [y Hy].
  assert (E : zip_with add v w !! r = Some (add x y)).
  { rewrite lookup_zip_with. rewrite Hx, Hy. reflexivity. }
  rewrite (nth_lookup_Some _ _ _ _ E), (nth_lookup_Some _ _ _ _ Hx),
    (nth_lookup_Some _ _ _ _ Hy). reflexivity.
Qed.

Lemma nth_map_mul (x : T) (v : list T) (r : nat) :
  r < length v -> nth r (map (mul x) v) zero = mul x (nth r v zero).
Proof.
  intros Hr. rewrite (nth_indep _ zero (mul x zero)) by (rewrite length_map; exact Hr).
  apply map_nth.
Qed.

Lemma wf_nth_row (A : matrix T) (r : nat) :
  wf_matrix A -> r < nrows A -> length (nth r (rows A) []) = ncols A.
Proof.
  intros Hwf Hr. destruct (lookup_lt_is_Some_2 (rows A) r Hr) as [x Hx].
  rewrite (nth_lookup_Some _ _ _ _ Hx). eapply wf_row_length; eauto.
Qed.

Lemma eliminate_wf (s : arrays T) (m n k i : nat) (j : option nat) :
  wf_arrays m n s -> wf_arrays m n (eliminate s k i j).
Proof.
  intros (Hm & Hn & Hwf & Hb & Hc). unfold eliminate, wf_arrays, nrows, wf_matrix in *.
  destruct j as [j|]; cbn [arr_A arr_b arr_c ncols rows].
  - rewrite !length_map, !length_zip_with, !length_map, !length_alter.
    fold (nrows (arr_A s)). rewrite length_column. unfold nrows.
    repeat split; try lia.
    apply Forall_map. apply Forall_lookup. intros r x Hx.
    apply lookup_zip_with_Some in Hx. destruct Hx as (row & y & -> & Hrow & _).
    cbn. rewrite !length_alter. eapply (wf_row_length (arr_A s)); eauto.
  - rewrite !length_map, !length_zip_with, !length_map, !length_alter.
    fold (nrows (arr_A s)). rewrite length_column. unfold nrows.
    repeat split; try lia.
    apply Forall_map. eapply Forall_impl; [exact Hwf|].
    intros r Hr. cbn. rewrite length_alter. exact Hr.
Qed.

Lemma eliminate_b (s : arrays T) (m n k i r : nat) (j : option nat) :
  wf_arrays m n s -> r < m ->
  nth r (arr_b (eliminate s k i j)) zero =
  add (nth r (arr_b s) zero)
      (mul (opp (div (mul one (nth k (arr_b s) zero)) (entry (arr_A s) k i)))
           (entry (arr_A s) r i)).
Proof.
  intros (Hm & Hn & Hwf & Hb & Hc) Hr. unfold eliminate.
  destruct j as [j|]; cbn [arr_b].
  all: rewrite nth_zip_with_add by (rewrite ?length_map, ?length_column; lia).
  all: rewrite nth_map_mul by (rewrite length_column; lia).
  all: rewrite nth_column by lia; reflexivity.
Qed.


Lemma eliminate_c (s : arrays T) (m n k i col : nat) (j : option nat) :
  wf_arrays m n s -> col < n -> i < n ->
  (forall j', j = Some j' -> j' < n /\ j' <> i) ->
  nth col (arr_c (eliminate s k i j)) zero =
  if decide (col = i) then mul (nth i (arr_c s) zero) zero
  else if decide (j = Some col)
       then add (nth col (arr_c s) zero)
                (mul (opp (div (mul one (entry (arr_A s) k col)) (entry (arr_A s) k i)))
                     (nth i (arr_c s) zero))
       else nth col (arr_c s) zero.
Proof.
  intros (Hm & Hn & Hwf & Hb & Hc) Hcol Hi Hj. unfold eliminate.
  destruct j as [j|]; cbn [arr_c].
  - destruct (Hj j eq_refl) as [Hjn Hji].
    rewrite nth_alter, length_alter.
    destruct (decide (col = i)) as [->|Hne].
    + destruct (decide (i < length (arr_c s))); [|lia].
      rewrite nth_alter. destruct (decide (i = j)); [congruence|reflexivity].
    + rewrite nth_alter. destruct (decide (col = j)) as [->|Hne2].
      * destruct (decide (j < length (arr_c s))); [|lia].
        destruct (decide (Some j = Some j)); [reflexivity|congruence].
      * destruct (decide (Some j = Some col)); [congruence|reflexivity].
  - rewrite nth_alter.
    destruct (decide (col = i)) as [->|Hne].
    + destruct (decide (i < length (arr_c s))); [|lia]. reflexivity.
    + destruct (decide (None = Some col)); [congruence|reflexivity].
Qed.
End ElimProofs.

(** ** Loops and reads of the state monad *)

Section MonadProofs.

Lemma read_inv {S X} (f : S -> result X) s s' x :
  read f s = (s', Ok x) -> s' = s /\ f s = Ok x.
Proof. unfold read. intros [= -> ->]. auto. Qed.

Lemma lift_inv {S X} (r : result X) (s s' : S) x :
  lift r s = (s', Ok x) -> s' = s /\ r = Ok x.
Proof. unfold lift. intros [= -> ->]. auto. Qed.

Lemma for_each_inv {S X} (P : X -> S -> Prop) (body : nat -> X -> M S X) (ks : list nat) :
  (forall k a s a' s', P a s -> body k a s = (s', Ok a') -> P a' s') ->
  forall a s a' s', P a s -> for_each ks body a s = (s', Ok a') -> P a' s'.
Proof.
  intros Hstep. induction ks as [|k ks IH]; intros a s a' s' HP Hrun; cbn in Hrun.
  - unfold ret in Hrun. injection Hrun as <- <-. exact HP.
  - apply bind_inv in Hrun. destruct Hrun as (s1 & a1 & H1 & H2).
    eapply IH; [|exact H2]. eapply Hstep; eauto.
Qed.
End MonadProofs.

(** ** A column of zeros is not selected *)

Section RowEffect.
Context {T : Type} `{ScalarLaws T}.

Lemma elim_row_cases (s s' : arrays T) (m n n_free : nat) (allow : bool) (k : nat)
      (offset offset' : T) :
  wf_arrays m n s ->
  elim_row n_free allow k offset s = (s', Ok offset') ->
  exists g h,
    rows (arr_A s) !! k = Some g /\ arr_b s !! k = Some h /\
    ((exists j, check_eliminatibility g h (Some n_free) allow = Ok (None, j) /\
                s' = s /\ offset' = offset) \/
     (exists i j, check_eliminatibility g h (Some n_free) allow = Ok (Some i, j) /\
                  s' = eliminate s k i j)).
Proof.
  intros Hwf Hrun. pose proof Hwf as (Hm & Hn & HwfA & Hb & Hc).
  destruct (decide (k < m)) as [Hk|Hk].
  - destruct (lookup_lt_is_Some_2 (rows (arr_A s)) k ltac:(unfold nrows in *; lia)) as [g Hg].
    destruct (lookup_lt_is_Some_2 (arr_b s) k ltac:(lia)) as [h Hh].
    exists g, h. split; [exact Hg|]. split; [exact Hh|].
    rewrite (elim_row_run s m n n_free allow k offset g h Hwf Hg Hh) in Hrun.
    destruct (check_eliminatibility g h (Some n_free) allow) as [[[i|] j]|e];
      [| |discriminate].
    + right. exists i, j. injection Hrun as <- _. auto.
    + left. exists j. injection Hrun as <- <-. auto.
  - unfold elim_row in Hrun. rewrite (bind_Raise _ _ s s IndexError) in Hrun; [discriminate|].
    unfold read, mat_row. rewrite (lookup_ge_None_2 (rows (arr_A s)) k); [reflexivity|].
    unfold nrows in *. lia.
Qed.

Lemma elim_row_wf (s s' : arrays T) (m n n_free : nat) (allow : bool) (k : nat)
      (offset offset' : T) :
  wf_arrays m n s ->
  elim_row n_free allow k offset s = (s', Ok offset') ->
  wf_arrays m n s'.
Proof.
  intros Hwf Hrun.
  destruct (elim_row_cases _ _ _ _ _ _ _ _ _ Hwf Hrun)
    as (g & h & Hg & Hh & [(j & _ & -> & _)|(i & j & _ & ->)]).
  - exact Hwf.
  - apply eliminate_wf. exact Hwf.
Qed.



End RowEffect.

(** C1: a pivot that is selected twice, in float64.  Every entry of the
    input is finite.  Row 0 selects [i = 0] with partner [j = 1]; its
    [factor = A[0,1]/A[0,0]] overflows to infinity and leaves [-inf] and [nan]
    in column 1.  Row 1 then selects [i = 1]; [A[:, 1] *= 0.] leaves [nan] in
    column 1, not zeros; and row 2 selects [i = 1] again. *)
Lemma pivot_selected_again :
  let s0 : arrays float :=
    Arrays (Matrix 2 [[0x1p-600; 0x1p+600]; [0; 1]; [0; 1]]%float)
           [0; 0; 0]%float [1; 0]%float in
  let s1 : arrays float :=
    Arrays (Matrix 2 [[0; neg_infinity]; [0; nan]; [0; nan]]%float)
           [0; 0; 0]%float [0; neg_infinity]%float in
  let s2 : arrays float :=
    Arrays (Matrix 2 [[0; nan]; [0; nan]; [0; nan]]%float)
           [nan; nan; nan]%float [0; nan]%float in
  for_each (seq 0 1) (elim_row 2 true) zero s0 = (s1, Ok 0%float) /\
  check_eliminatibility [0; nan]%float 0%float (Some 2) true = Ok (Some 1, None) /\
  for_each (seq 0 2) (elim_row 2 true) zero s0 = (s2, Ok nan) /\
  column (arr_A s2) 1 = [nan; nan; nan]%float /\
  check_eliminatibility [0; nan]%float nan (Some 2) true = Ok (Some 1, None) /\
  fst (simplify_sedumi_model (Cone 2 0 []) true s0) = s2.
Proof. vm_compute. repeat split. Qed.

(** ** The pruning pass *)

Section PruneProofs.
Context {T : Type} `{ScalarLaws T}.

Lemma any_sabs_all_zero (v : list T) : negb (any (map sabs v)) = all_zero v.
Proof.
  induction v as [|x v IH]; [reflexivity|]. cbn.
  rewrite nonzero_sabs, negb_orb. cbn in IH. unfold any in IH. rewrite IH. reflexivity.
Qed.

Lemma prune_col_step (K : cone) (s : arrays T) (m n : nat) (acc : nat * nat * list nat)
      (col : nat) :
  wf_arrays m n s -> col < n ->
  prune_col (arr_A s) (arr_c s) (K_f K) (K_f K + K_l K) acc col =
  Ok (let '(f, l, keep) := acc in
      if drop_free K s col then (S f, l, keep)
      else if drop_nonneg K s col then (f, S l, keep)
      else (f, l, keep ++ [col])).
Proof.
  intros (Hm & Hn & HwfA & Hb & Hc) Hcol. destruct acc as [[f l] keep].
  unfold prune_col, drop_free, drop_nonneg.
  rewrite vec_get_nth by lia. rewrite mat_col_column by lia.
  destruct (col <? K_f K) eqn:E1; cbn [rbind andb].
  - assert (E2 : (K_f K <=? col) = false).
    { apply Nat.ltb_lt in E1. apply Nat.leb_gt. exact E1. }
    rewrite E2. cbn [rbind andb].
    destruct (negb (nonzero (nth col (arr_c s) zero))); cbn [rbind andb]; [|reflexivity].
    rewrite any_sabs_all_zero.
    destruct (all_zero (column (arr_A s) col)); reflexivity.
  - destruct ((K_f K <=? col) && (col <? K_f K + K_l K)); cbn [rbind andb]; [|reflexivity].
    destruct (nonneg (nth col (arr_c s) zero)); cbn [rbind andb]; [|reflexivity].
    rewrite any_sabs_all_zero.
    destruct (all_zero (column (arr_A s) col)); reflexivity.
Qed.

Lemma prune_col_fold (K : cone) (s : arrays T) (m n : nat) (l : list nat)
      (f0 l0 : nat) (keep : list nat) :
  wf_arrays m n s -> Forall (fun col => col < n) l ->
  rfold l (prune_col (arr_A s) (arr_c s) (K_f K) (K_f K + K_l K)) (f0, l0, keep) =
  Ok (f0 + length (List.filter (drop_free K s) l),
      l0 + length (List.filter (drop_nonneg K s) l),
      keep ++ List.filter (fun col => negb (col_dropped K s col)) l).
Proof.
  intros Hwf Hl. revert f0 l0 keep.
  induction l as [|col l IH]; intros f0 l0 keep; cbn [rfold List.filter length].
  - rewrite !Nat.add_0_r, app_nil_r. reflexivity.
  - apply Forall_cons in Hl. destruct Hl as [Hcol Hl].
    rewrite (prune_col_step K s m n _ col Hwf Hcol). cbn [rbind].
    unfold col_dropped.
    assert (Hex : drop_free K s col = true -> drop_nonneg K s col = false).
    { unfold drop_free, drop_nonneg. intros Hd.
      apply andb_true_iff in Hd. destruct Hd as [Hd _].
      apply andb_true_iff in Hd. destruct Hd as [Hd _].
      apply Nat.ltb_lt in Hd.
      destruct (Nat.leb_spec (K_f K) col); [lia|reflexivity]. }
    destruct (drop_free K s col) eqn:E1.
    + rewrite (Hex eq_refl). cbn [orb negb length]. rewrite IH by exact Hl.
      do 3 f_equal. lia.
    + destruct (drop_nonneg K s col) eqn:E2; cbn [orb negb length].
      * rewrite IH by exact Hl. do 2 f_equal. f_equal. lia.
      * rewrite IH by exact Hl. rewrite <- app_assoc. reflexivity.
Qed.

Lemma prune_row_step (s : arrays T) (m n : nat) (keep : list nat) (row : nat) :
  wf_arrays m n s -> row < m ->
  prune_row (arr_A s) (arr_b s) keep row =
  Ok (if row_dropped s row then keep else keep ++ [row]).
Proof.
  intros (Hm & Hn & HwfA & Hb & Hc) Hrow. unfold prune_row, row_dropped.
  rewrite vec_get_nth by lia. cbn [rbind].
  destruct (lookup_lt_is_Some_2 (rows (arr_A s)) row ltac:(unfold nrows in *; lia)) as [g Hg].
  unfold mat_row. rewrite Hg. rewrite (nth_lookup_Some _ _ _ _ Hg).
  destruct (negb (nonzero (nth row (arr_b s) zero))); cbn [rbind andb]; [|reflexivity].
  rewrite any_sabs_all_zero.
  destruct (all_zero g); reflexivity.
Qed.

Lemma prune_row_fold (s : arrays T) (m n : nat) (l : list nat) (keep : list nat) :
  wf_arrays m n s -> Forall (fun row => row < m) l ->
  rfold l (prune_row (arr_A s) (arr_b s)) keep =
  Ok (keep ++ List.filter (fun row => negb (row_dropped s row)) l).
Proof.
  intros Hwf Hl. revert keep.
  induction l as [|row l IH]; intros keep; cbn [rfold List.filter].
  - rewrite app_nil_r. reflexivity.
  - apply Forall_cons in Hl. destruct Hl as [Hrow Hl].
    rewrite (prune_row_step s m n _ row Hwf Hrow). cbn [rbind].
    destruct (row_dropped s row); cbn [negb].
    + apply IH. exact Hl.
    + rewrite IH by exact Hl. rewrite <- app_assoc. reflexivity.
Qed.

Lemma Forall_seq_lt (n : nat) : Forall (fun k => k < n) (seq 0 n).
Proof. apply Forall_forall. intros k Hk. apply list_elem_of_In, in_seq in Hk. lia. Qed.

Lemma forallb_filter_seq (p : nat -> bool) (n : nat) :
  forallb (fun k => k <? n) (List.filter p (seq 0 n)) = true.
Proof.
  apply forallb_forall. intros k Hk. apply filter_In in Hk. destruct Hk as [Hk _].
  apply in_seq in Hk. apply Nat.ltb_lt. lia.
Qed.

Lemma filter_partition_length (f g : nat -> bool) (l : list nat) :
  (forall x, f x = true -> g x = false) ->
  length (List.filter (fun x => negb (f x || g x)) l)
  + length (List.filter f l) + length (List.filter g l) = length l.
Proof.
  intros Hex. induction l as [|x l IH]; [reflexivity|]. cbn [List.filter length].
  destruct (f x) eqn:E1.
  - rewrite (Hex x E1). cbn. lia.
  - destruct (g x); cbn; lia.
Qed.

Lemma drop_free_excl (K : cone) (s : arrays T) (col : nat) :
  drop_free K s col = true -> drop_nonneg K s col = false.
Proof.
  unfold drop_free, drop_nonneg. intros Hd.
  apply andb_true_iff in Hd. destruct Hd as [Hd _].
  apply andb_true_iff in Hd. destruct Hd as [Hd _].
  apply Nat.ltb_lt in Hd.
  destruct (Nat.leb_spec (K_f K) col); [lia|reflexivity].
Qed.

Lemma kept_dropped_total (K : cone) (s : arrays T) :
  length (cols_kept K s) + dropped_free K s + dropped_nonneg K s = length (arr_c s).
Proof.
  unfold cols_kept, dropped_free, dropped_nonneg, col_dropped.
  rewrite filter_partition_length by apply drop_free_excl. apply length_seq.
Qed.

(** On arrays of consistent shapes the pruning pass computes [pruned], and
    fails exactly when there is no variable at all. *)
Lemma pruning_pass_pruned (K : cone) (offset : T) (s : arrays T) (m n : nat) :
  wf_arrays m n s ->
  pruning_pass K n m offset s =
  if n =? 0 then Raise (AssertionError None) else Ok (pruned K offset s).
Proof.
  intros Hwf. pose proof Hwf as (Hm & Hn & HwfA & Hb & Hc).
  unfold pruning_pass.
  rewrite (prune_col_fold K s m n) by (auto using Forall_seq_lt). cbn [rbind app Nat.add].
  rewrite (prune_row_fold s m n) by (auto using Forall_seq_lt). cbn [rbind app].
  pose proof (kept_dropped_total K s) as Htot.
  unfold cols_kept, dropped_free, dropped_nonneg in Htot. rewrite Hc in Htot.
  unfold mat_ix, vec_ix. rewrite Hm, Hn, Hb, Hc, !forallb_filter_seq. cbn [andb rbind].
  rewrite Htot. unfold pruned, cols_kept, rows_kept, dropped_free, dropped_nonneg.
  rewrite Hb, Hc. reflexivity.
Qed.

Lemma simplify_unfold (K : cone) (allow : bool) (s : arrays T) :
  simplify_sedumi_model K allow s =
  match elimination_pass (K_f K) (length (arr_b s)) allow s with
  | (s1, Ok offset) =>
      (s1, pruning_pass K (length (arr_c s)) (length (arr_b s)) offset s1)
  | (s1, Raise e) => (s1, Raise e)
  end.
Proof.
  unfold simplify_sedumi_model, bind, read.
  destruct (elimination_pass _ _ _ s) as [s1 [o|e]]; reflexivity.
Qed.

Lemma elimination_pass_wf (m n n_free n_ctr : nat) (allow : bool) (s s' : arrays T)
      (offset : T) :
  wf_arrays m n s ->
  elimination_pass n_free n_ctr allow s = (s', Ok offset) ->
  wf_arrays m n s'.
Proof.
  intros Hwf Hrun. unfold elimination_pass in Hrun.
  apply (for_each_inv (fun _ s => wf_arrays m n s) (elim_row n_free allow) (seq 0 n_ctr))
    with (a := zero) (s := s) (a' := offset); [|exact Hwf|exact Hrun].
  intros k a s1 a' s1' Hwf1 Hstep. eapply elim_row_wf; eauto.
Qed.

(** What [simplify_sedumi_model] returns on arrays of consistent shapes. *)
Lemma simplify_result (K : cone) (allow : bool) (s s' : arrays T) (m n : nat) r :
  wf_arrays m n s ->
  simplify_sedumi_model K allow s = (s', Ok r) ->
  exists offset,
    elimination_pass (K_f K) m allow s = (s', Ok offset) /\
    wf_arrays m n s' /\ 0 < n /\ r = pruned K offset s'.
Proof.
  intros Hwf Hrun. pose proof Hwf as (Hm & Hn & HwfA & Hb & Hc).
  rewrite simplify_unfold, Hb, Hc in Hrun.
  destruct (elimination_pass (K_f K) m allow s) as [s1 [offset|e]] eqn:He;
    [|discriminate].
  injection Hrun as <- Hp. exists offset.
  pose proof (elimination_pass_wf _ _ _ _ _ _ _ _ Hwf He) as Hwf1.
  rewrite (pruning_pass_pruned K offset s1 m n Hwf1) in Hp.
  destruct (Nat.eqb_spec n 0) as [->|Hn0]; [discriminate|].
  injection Hp as <-. split; [reflexivity|]. split; [exact Hwf1|]. split; [lia|reflexivity].
Qed.

Lemma all_zero_forall (v : list T) :
  all_zero v = true <-> forall i, i < length v -> nonzero (nth i v zero) = false.
Proof.
  unfold all_zero. rewrite forallb_forall. split.
  - intros Hall i Hi. apply negb_true_iff. apply Hall. apply nth_In. exact Hi.
  - intros Hall x Hx. apply (In_nth _ _ zero) in Hx. destruct Hx as (i & Hi & <-).
    apply negb_true_iff. apply Hall. exact Hi.
Qed.

Lemma all_zero_column (A : matrix T) (col : nat) :
  all_zero (column A col) = true <-> zero_column A col.
Proof.
  rewrite all_zero_forall. rewrite length_column. unfold zero_column.
  split; intros Hz r Hr.
  - rewrite <- nth_column by exact Hr. apply Hz. exact Hr.
  - rewrite nth_column by exact Hr. apply Hz. exact Hr.
Qed.

Lemma all_zero_row (A : matrix T) (row : nat) :
  wf_matrix A -> row < nrows A ->
  all_zero (nth row (rows A) []) = true <->
  forall i, i < ncols A -> nonzero (entry A row i) = false.
Proof.
  intros Hwf Hrow. rewrite all_zero_forall. rewrite wf_nth_row by assumption.
  reflexivity.
Qed.

Lemma filter_seq_sorted (p : nat -> bool) (n lo : nat) :
  StronglySorted lt (List.filter p (seq lo n)).
Proof.
  revert lo. induction n as [|n IH]; intros lo; cbn [seq List.filter]; [constructor|].
  destruct (p lo); [|apply IH]. constructor; [apply IH|].
  apply Forall_forall. intros x Hx. apply list_elem_of_In, filter_In in Hx.
  destruct Hx as [Hx _]. apply in_seq in Hx. lia.
Qed.

Lemma filter_seq_count_le (p : nat -> bool) (a t n : nat) :
  (forall x, p x = true -> a <= x < a + t) ->
  length (List.filter p (seq 0 n)) <= Nat.min n (a + t) - Nat.min n a.
Proof.
  intros Hp. induction n as [|n IH]; [cbn; lia|].
  rewrite seq_S, List.filter_app, length_app. cbn [Nat.add List.filter].
  destruct (p n) eqn:E; cbn [length].
  - specialize (Hp n E). lia.
  - lia.
Qed.

Lemma dropped_free_le (K : cone) (s : arrays T) : dropped_free K s <= K_f K.
Proof.
  unfold dropped_free.
  pose proof (filter_seq_count_le (drop_free K s) 0 (K_f K) (length (arr_c s))) as Hle.
  cbn [Nat.add] in Hle. rewrite Nat.min_0_r, Nat.sub_0_r in Hle.
  etransitivity; [apply Hle|lia].
  intros x Hx. unfold drop_free in Hx.
  apply andb_true_iff in Hx. destruct Hx as [Hx _].
  apply andb_true_iff in Hx. destruct Hx as [Hx _].
  apply Nat.ltb_lt in Hx. lia.
Qed.

Lemma dropped_nonneg_le (K : cone) (s : arrays T) : dropped_nonneg K s <= K_l K.
Proof.
  unfold dropped_nonneg.
  pose proof (filter_seq_count_le (drop_nonneg K s) (K_f K) (K_l K) (length (arr_c s)))
    as Hle.
  etransitivity; [apply Hle|lia].
  intros x Hx. unfold drop_nonneg in Hx.
  apply andb_true_iff in Hx. destruct Hx as [Hx _].
  apply andb_true_iff in Hx. destruct Hx as [Hx _].
  apply andb_true_iff in Hx. destruct Hx as [Hx1 Hx2].
  apply Nat.leb_le in Hx1. apply Nat.ltb_lt in Hx2. lia.
Qed.

Lemma drop_free_iff (K : cone) (s : arrays T) (col : nat) :
  drop_free K s col = true <->
  col < K_f K /\ nonzero (nth col (arr_c s) zero) = false /\ zero_column (arr_A s) col.
Proof.
  unfold drop_free. rewrite !andb_true_iff, Nat.ltb_lt, negb_true_iff, all_zero_column.
  tauto.
Qed.

Lemma drop_nonneg_iff (K : cone) (s : arrays T) (col : nat) :
  drop_nonneg K s col = true <->
  K_f K <= col < K_f K + K_l K /\ nonneg (nth col (arr_c s) zero) = true /\
  zero_column (arr_A s) col.
Proof.
  unfold drop_nonneg.
  rewrite !andb_true_iff, Nat.ltb_lt, Nat.leb_le, all_zero_column. tauto.
Qed.

Lemma row_dropped_iff (s : arrays T) (m n row : nat) :
  wf_arrays m n s -> row < m ->
  row_dropped s row = true <->
  nonzero (nth row (arr_b s) zero) = false /\
  forall i, i < n -> nonzero (entry (arr_A s) row i) = false.
Proof.
  intros (Hm & Hn & HwfA & Hb & Hc) Hrow. unfold row_dropped.
  rewrite andb_true_iff, negb_true_iff, all_zero_row by (auto; lia).
  rewrite Hn. reflexivity.
Qed.
End PruneProofs.

Section PruneTheorems.
Context {T : Type} `{ScalarLaws T}.

Lemma drop_free_as_dropped (K : cone) (s : arrays T) (col : nat) :
  drop_free K s col = col_dropped K s col && (col <? K_f K).
Proof.
  unfold col_dropped. destruct (drop_free K s col) eqn:E1; cbn [orb andb].
  - apply drop_free_iff in E1. destruct E1 as [E1 _]. symmetry. apply Nat.ltb_lt. exact E1.
  - destruct (drop_nonneg K s col) eqn:E2; [|reflexivity]. cbn [andb].
    apply drop_nonneg_iff in E2. destruct E2 as [E2 _]. symmetry. apply Nat.ltb_ge. lia.
Qed.

Lemma drop_nonneg_as_dropped (K : cone) (s : arrays T) (col : nat) :
  drop_nonneg K s col = col_dropped K s col && (K_f K <=? col).
Proof.
  unfold col_dropped. destruct (drop_free K s col) eqn:E1; cbn [orb andb].
  - rewrite (drop_free_excl K s col E1).
    apply drop_free_iff in E1. destruct E1 as [E1 _]. symmetry. apply Nat.leb_gt. exact E1.
  - destruct (drop_nonneg K s col) eqn:E2; [|reflexivity]. cbn [andb].
    apply drop_nonneg_iff in E2. destruct E2 as [E2 _]. symmetry. apply Nat.leb_le. lia.
Qed.

Lemma cols_kept_In (K : cone) (s : arrays T) (col : nat) :
  In col (cols_kept K s) <-> col < length (arr_c s) /\ col_dropped K s col = false.
Proof.
  unfold cols_kept. rewrite filter_In, in_seq, negb_true_iff. intuition lia.
Qed.

Lemma rows_kept_In (s : arrays T) (row : nat) :
  In row (rows_kept s) <-> row < length (arr_b s) /\ row_dropped s row = false.
Proof.
  unfold rows_kept. rewrite filter_In, in_seq, negb_true_iff. intuition lia.
Qed.

Lemma col_dropped_iff (K : cone) (s : arrays T) (col : nat) :
  col_dropped K s col = true <->
  zero_column (arr_A s) col /\
  ((col < K_f K /\ nonzero (nth col (arr_c s) zero) = false) \/
   (K_f K <= col < K_f K + K_l K /\ nonneg (nth col (arr_c s) zero) = true)).
Proof.
  unfold col_dropped. rewrite orb_true_iff, drop_free_iff, drop_nonneg_iff. tauto.
Qed.

Lemma bool_eq_iff (a b : bool) : (a = true <-> b = true) -> a = b.
Proof. destruct a, b; intuition congruence. Qed.

Lemma existsb_eqb_In (x : nat) (l : list nat) : existsb (Nat.eqb x) l = true <-> In x l.
Proof.
  rewrite existsb_exists. split.
  - intros (y & Hy & E). apply Nat.eqb_eq in E. subst y. exact Hy.
  - intros Hx. exists x. split; [exact Hx|apply Nat.eqb_refl].
Qed.

Lemma not_kept_dropped (K : cone) (s : arrays T) (col : nat) :
  col < length (arr_c s) ->
  negb (existsb (Nat.eqb col) (cols_kept K s)) = col_dropped K s col.
Proof.
  intros Hcol. apply bool_eq_iff. rewrite negb_true_iff, <- not_true_iff_false.
  rewrite existsb_eqb_In, cols_kept_In. split.
  - intros Hn. destruct (col_dropped K s col); [reflexivity|]. exfalso. apply Hn. auto.
  - intros Hd [_ Hk]. congruence.
Qed.

(** C8.  The pruning pass of [simplify_sedumi_model].  Let [A], [b] and [c]
    be the arrays as the elimination pass left them (the caller's arrays
    when the call returns).  The column indices kept, [cs], and the row
    indices kept, [rs], are such that: a column is dropped if and only if all
    its entries in [A] are zero and it is either a free column (index below
    [K.f]) with objective coefficient equal to 0 or a nonnegative column
    (index from [K.f] and below [K.f + K.l]) with objective coefficient at
    least 0, so a column from [K.f + K.l] on is never dropped; a row is
    dropped if and only if all its coefficients and its right-hand side are
    zero, so a row with a nonzero right-hand side is kept; [cs] and [rs] are
    in increasing order, and the returned arrays are the selection of [A],
    [b] and [c] at these indices; [K.f] and [K.l] decrease by the numbers of
    free and of nonnegative columns dropped and [K.s] is unchanged. *)
Theorem pruning_pass_spec (K : cone) (allow : bool) (s0 s : arrays T) (m n : nat)
        (r : sedumi T) :
  wf_arrays m n s0 ->
  simplify_sedumi_model K allow s0 = (s, Ok r) ->
  let A := arr_A s in
  let b := arr_b s in
  let c := arr_c s in
  exists cs rs : list nat,
    let dropped := fun col => negb (existsb (Nat.eqb col) cs) in
    (forall col, In col cs <->
       col < n /\
       ~ ((forall row, row < m -> nonzero (entry A row col) = false) /\
          ((col < K_f K /\ nonzero (nth col c zero) = false) \/
           (K_f K <= col < K_f K + K_l K /\ nonneg (nth col c zero) = true)))) /\
    (forall col, K_f K + K_l K <= col -> col < n -> In col cs) /\
    (forall row, In row rs <->
       row < m /\
       ~ (nonzero (nth row b zero) = false /\
          forall col, col < n -> nonzero (entry A row col) = false)) /\
    (forall row, row < m -> nonzero (nth row b zero) = true -> In row rs) /\
    StronglySorted lt cs /\ StronglySorted lt rs /\
    out_A r = Matrix (length cs) (map (fun row => map (fun col => entry A row col) cs) rs) /\
    out_b r = map (fun row => nth row b zero) rs /\
    out_c r = map (fun col => nth col c zero) cs /\
    K_f (out_K r)
    + length (List.filter (fun col => dropped col && (col <? K_f K)) (seq 0 n)) = K_f K /\
    K_l (out_K r)
    + length (List.filter (fun col => dropped col && (K_f K <=? col)) (seq 0 n)) = K_l K /\
    K_s (out_K r) = K_s K.
Proof.
  intros Hwf0 Hrun A b c. subst A b c.
  destruct (simplify_result K allow s0 s m n r Hwf0 Hrun) as (offset & _ & Hwf & _ & ->).
  pose proof Hwf as (Hm & Hn & HwfA & Hb & Hc).
  exists (cols_kept K s), (rows_kept s). intros dropped.
  assert (Hcs : forall col, In col (cols_kept K s) <->
     col < n /\
     ~ ((forall row, row < m -> nonzero (entry (arr_A s) row col) = false) /\
        ((col < K_f K /\ nonzero (nth col (arr_c s) zero) = false) \/
         (K_f K <= col < K_f K + K_l K /\ nonneg (nth col (arr_c s) zero) = true)))).
  { intros col. rewrite cols_kept_In, Hc. rewrite <- Hm.
    fold (zero_column (arr_A s) col). rewrite <- col_dropped_iff.
    rewrite not_true_iff_false. reflexivity. }
  assert (Hrs : forall row, In row (rows_kept s) <->
     row < m /\
     ~ (nonzero (nth row (arr_b s) zero) = false /\
        forall col, col < n -> nonzero (entry (arr_A s) row col) = false)).
  { intros row. rewrite rows_kept_In, Hb. split.
    - intros [Hrow Hd]. split; [exact Hrow|].
      rewrite <- (row_dropped_iff s m n row Hwf Hrow). congruence.
    - intros [Hrow Hd]. split; [exact Hrow|].
      rewrite <- (row_dropped_iff s m n row Hwf Hrow) in Hd.
      apply not_true_iff_false. exact Hd. }
  split; [exact Hcs|]. split.
  { intros col Hge Hlt. apply Hcs. split; [exact Hlt|]. intros [_ [[? _]|[? _]]]; lia. }
  split; [exact Hrs|]. split.
  { intros row Hrow Hnz. apply Hrs. split; [exact Hrow|]. intros [Hz _]. congruence. }
  split; [apply filter_seq_sorted|]. split; [apply filter_seq_sorted|].
  do 3 (split; [reflexivity|]).
  assert (Ef : length (List.filter (fun col => dropped col && (col <? K_f K)) (seq 0 n))
               = dropped_free K s).
  { unfold dropped_free. rewrite Hc. f_equal. apply List.filter_ext_in.
    intros col Hin. apply in_seq in Hin. unfold dropped.
    rewrite not_kept_dropped by lia. symmetry. apply drop_free_as_dropped. }
  assert (El : length (List.filter (fun col => dropped col && (K_f K <=? col)) (seq 0 n))
               = dropped_nonneg K s).
  { unfold dropped_nonneg. rewrite Hc. f_equal. apply List.filter_ext_in.
    intros col Hin. apply in_seq in Hin. unfold dropped.
    rewrite not_kept_dropped by lia. symmetry. apply drop_nonneg_as_dropped. }
  rewrite Ef, El.
  pose proof (dropped_free_le K s). pose proof (dropped_nonneg_le K s).
  cbn [pruned out_K K_f K_l K_s].
  repeat split; lia.
Qed.

(** C5, as the code has it.  The assertion before the return tests the number
    of kept columns plus the numbers of dropped free and nonnegative columns,
    which is the number of variables of the input: [simplify_sedumi_model]
    raises when the input has no variable at all, and when it returns the
    input had at least one variable, each of them either kept or counted as
    dropped. *)
Theorem simplify_asserts_input_variables (K : cone) (allow : bool) (s : arrays T)
        (m n : nat) :
  wf_arrays m n s ->
  (n = 0 -> exists e, snd (simplify_sedumi_model K allow s) = Raise e) /\
  (forall s' r, simplify_sedumi_model K allow s = (s', Ok r) ->
     0 < n /\
     ncols (out_A r) + dropped_free K s' + dropped_nonneg K s' = n).
Proof.
  intros Hwf.
  assert (Hok : forall s' r, simplify_sedumi_model K allow s = (s', Ok r) ->
     0 < n /\ ncols (out_A r) + dropped_free K s' + dropped_nonneg K s' = n).
  { intros s' r Hrun.
    destruct (simplify_result K allow s s' m n r Hwf Hrun) as (o & _ & Hwf' & Hn & ->).
    split; [exact Hn|]. cbn [pruned out_A ncols].
    destruct Hwf' as (_ & _ & _ & _ & Hc). rewrite <- Hc. apply kept_dropped_total. }
  split; [|exact Hok].
  intros ->. destruct (simplify_sedumi_model K allow s) as [s' [r|e]] eqn:E.
  - destruct (Hok s' r eq_refl). lia.
  - exists e. reflexivity.
Qed.
End PruneTheorems.

(** C5: a call that returns normally with no variable left.  The one column
    is a free column of zeros with objective coefficient 0. *)
Lemma simplify_returns_empty :
  simplify_sedumi_model (T:=Q) (Cone 1 0 []) false (Arrays (Matrix 1 [[0%Q]]) [0%Q] [0%Q])
  = (Arrays (Matrix 1 [[0%Q]]) [0%Q] [0%Q],
     Ok (Sedumi (Matrix 0 []) [] [] (Cone 0 0 []) 0%Q)).
Proof. vm_compute. reflexivity. Qed.

(** ** A second call *)

Section Idempotence.
Context {T : Type} `{ScalarLaws T}.

(** *** Counting in a filtered range *)

Lemma filter_none (p : nat -> bool) (l : list nat) :
  (forall x, In x l -> p x = false) -> List.filter p l = [].
Proof.
  induction l as [|x l IH]; intros Hp; [reflexivity|]. cbn [List.filter].
  rewrite (Hp x) by (left; reflexivity). apply IH. intros y Hy. apply Hp. right. exact Hy.
Qed.

Lemma seq_cut (t n : nat) :
  seq 0 n = seq 0 (Nat.min t n) ++ seq (Nat.min t n) (n - Nat.min t n).
Proof. rewrite <- seq_app. f_equal. lia. Qed.

Lemma filter_seq_cut (p : nat -> bool) (t n : nat) :
  (forall x, p x = true -> x < t) ->
  List.filter p (seq 0 n) = List.filter p (seq 0 (Nat.min t n)).
Proof.
  intros Hp. rewrite (seq_cut t n) at 1. rewrite List.filter_app.
  rewrite (filter_none p (seq (Nat.min t n) _)); [apply app_nil_r|].
  intros x Hx. apply in_seq in Hx. destruct (p x) eqn:E; [|reflexivity].
  specialize (Hp x E). lia.
Qed.

Lemma filter_negb_length (p : nat -> bool) (l : list nat) :
  length (List.filter (fun x => negb (p x)) l) + length (List.filter p l) = length l.
Proof.
  induction l as [|x l IH]; [reflexivity|]. cbn [List.filter length].
  destruct (p x); cbn [negb length]; lia.
Qed.

Lemma filter_orb_length (f g : nat -> bool) (l : list nat) :
  (forall x, f x = true -> g x = false) ->
  length (List.filter (fun x => f x || g x) l)
  = length (List.filter f l) + length (List.filter g l).
Proof.
  intros Hex. induction l as [|x l IH]; [reflexivity|]. cbn [List.filter length].
  destruct (f x) eqn:E1.
  - rewrite (Hex x E1). cbn. lia.
  - destruct (g x); cbn; lia.
Qed.

(** The kept index at position [p] is below [t] exactly when [p] is below the
    number of kept indices below [t]. *)
Lemma nth_kept_lt (keep : nat -> bool) (t n p : nat) :
  p < length (List.filter keep (seq 0 n)) ->
  nth p (List.filter keep (seq 0 n)) 0 < t <->
  p < length (List.filter keep (seq 0 (Nat.min t n))).
Proof.
  rewrite (seq_cut t n) at 1 2. rewrite List.filter_app, length_app. intros Hp.
  set (l1 := List.filter keep (seq 0 (Nat.min t n))) in *.
  set (l2 := List.filter keep (seq (Nat.min t n) (n - Nat.min t n))) in *.
  destruct (decide (p < length l1)) as [Hlt|Hge].
  - rewrite app_nth1 by exact Hlt. split; [auto|]. intros _.
    assert (Hin : In (nth p l1 0) l1) by (apply nth_In; exact Hlt).
    apply filter_In in Hin. destruct Hin as [Hin _]. apply in_seq in Hin. lia.
  - rewrite app_nth2 by lia. split; [|lia]. intros Hlt.
    assert (Hin : In (nth (p - length l1) l2 0) l2) by (apply nth_In; lia).
    apply filter_In in Hin. destruct Hin as [Hin _]. apply in_seq in Hin. lia.
Qed.

(** *** The columns kept, against the thresholds of the cone descriptor *)

Lemma dropped_below_free (K : cone) (s : arrays T) :
  length (List.filter (col_dropped K s) (seq 0 (Nat.min (K_f K) (length (arr_c s)))))
  = dropped_free K s.
Proof.
  unfold dropped_free.
  rewrite (filter_seq_cut (drop_free K s) (K_f K)).
  - f_equal. apply List.filter_ext_in. intros x Hx. apply in_seq in Hx.
    unfold col_dropped. destruct (drop_nonneg K s x) eqn:E; [|apply orb_false_r].
    apply drop_nonneg_iff in E. lia.
  - intros x Hx. apply drop_free_iff in Hx. tauto.
Qed.

Lemma dropped_below_nonneg (K : cone) (s : arrays T) :
  length (List.filter (col_dropped K s)
            (seq 0 (Nat.min (K_f K + K_l K) (length (arr_c s)))))
  = dropped_free K s + dropped_nonneg K s.
Proof.
  unfold dropped_free, dropped_nonneg.
  rewrite <- (filter_seq_cut (col_dropped K s) (K_f K + K_l K)).
  - unfold col_dropped. apply filter_orb_length. apply drop_free_excl.
  - intros x Hx. apply col_dropped_iff in Hx. lia.
Qed.

Lemma kept_below (K : cone) (s : arrays T) (k : nat) :
  length (List.filter (fun col => negb (col_dropped K s col)) (seq 0 k))
  = k - length (List.filter (col_dropped K s) (seq 0 k)).
Proof.
  pose proof (filter_negb_length (col_dropped K s) (seq 0 k)) as E.
  rewrite length_seq in E. lia.
Qed.

Lemma filter_length_le (p : nat -> bool) (l : list nat) :
  length (List.filter p l) <= length l.
Proof. induction l as [|x l IH]; [reflexivity|]. cbn. destruct (p x); cbn; lia. Qed.

Lemma kept_position_free (K : cone) (s : arrays T) (p : nat) :
  p < length (cols_kept K s) ->
  (p <? K_f K - dropped_free K s) = (nth p (cols_kept K s) 0 <? K_f K).
Proof.
  intros Hp. pose proof (kept_dropped_total K s) as Htot.
  pose proof (nth_kept_lt (fun col => negb (col_dropped K s col)) (K_f K)
                (length (arr_c s)) p Hp) as Hiff.
  rewrite kept_below, dropped_below_free in Hiff.
  pose proof (filter_length_le (col_dropped K s)
                (seq 0 (Nat.min (K_f K) (length (arr_c s))))) as Hle.
  rewrite dropped_below_free, length_seq in Hle.
  fold (cols_kept K s) in Hiff.
  destruct (Nat.ltb_spec (nth p (cols_kept K s) 0) (K_f K)) as [Hlt|Hge].
  - apply Nat.ltb_lt. apply Hiff in Hlt. lia.
  - apply Nat.ltb_ge. destruct (decide (p < K_f K - dropped_free K s)) as [Hlt|]; [|lia].
    assert (p < Nat.min (K_f K) (length (arr_c s)) - dropped_free K s) as Hlt' by lia.
    apply Hiff in Hlt'. lia.
Qed.

Lemma kept_position_nonneg (K : cone) (s : arrays T) (p : nat) :
  p < length (cols_kept K s) ->
  (p <? (K_f K - dropped_free K s) + (K_l K - dropped_nonneg K s))
  = (nth p (cols_kept K s) 0 <? K_f K + K_l K).
Proof.
  intros Hp. pose proof (kept_dropped_total K s) as Htot.
  pose proof (dropped_free_le K s) as Hf. pose proof (dropped_nonneg_le K s) as Hl.
  pose proof (nth_kept_lt (fun col => negb (col_dropped K s col)) (K_f K + K_l K)
                (length (arr_c s)) p Hp) as Hiff.
  rewrite kept_below, dropped_below_nonneg in Hiff.
  pose proof (filter_length_le (col_dropped K s)
                (seq 0 (Nat.min (K_f K + K_l K) (length (arr_c s))))) as Hle.
  rewrite dropped_below_nonneg, length_seq in Hle.
  fold (cols_kept K s) in Hiff.
  destruct (Nat.ltb_spec (nth p (cols_kept K s) 0) (K_f K + K_l K)) as [Hlt|Hge].
  - apply Nat.ltb_lt. apply Hiff in Hlt. lia.
  - apply Nat.ltb_ge.
    destruct (decide (p < K_f K - dropped_free K s + (K_l K - dropped_nonneg K s)))
      as [Hlt|]; [|lia].
    assert (p < Nat.min (K_f K + K_l K) (length (arr_c s))
                - (dropped_free K s + dropped_nonneg K s)) as Hlt' by lia.
    apply Hiff in Hlt'. lia.
Qed.

(** *** The arrays returned by the pruning pass *)

Lemma nth_map_default {X Y} (f : X -> Y) (l : list X) (k : nat) (dx : X) (dy : Y) :
  k < length l -> nth k (map f l) dy = f (nth k l dx).
Proof.
  intros Hk. rewrite (nth_indep _ dy (f dx)) by (rewrite length_map; exact Hk).
  apply map_nth.
Qed.

Lemma pruned_wf (K : cone) (offset : T) (s : arrays T) :
  wf_arrays (length (rows_kept s)) (length (cols_kept K s)) (returned (pruned K offset s)).
Proof.
  unfold wf_arrays, returned, pruned, nrows, wf_matrix.
  cbn [arr_A arr_b arr_c out_A out_b out_c rows ncols].
  rewrite !length_map. repeat split.
  apply Forall_map. apply Forall_true. intros r. cbn. apply length_map.
Qed.

Lemma pruned_entry (K : cone) (offset : T) (s : arrays T) (q p : nat) :
  q < length (rows_kept s) -> p < length (cols_kept K s) ->
  entry (out_A (pruned K offset s)) q p
  = entry (arr_A s) (nth q (rows_kept s) 0) (nth p (cols_kept K s) 0).
Proof.
  intros Hq Hp. unfold pruned, entry at 1. cbn [out_A rows].
  rewrite (nth_map_default _ _ _ 0) by exact Hq.
  rewrite (nth_map_default _ _ _ 0) by exact Hp. reflexivity.
Qed.

Lemma pruned_b (K : cone) (offset : T) (s : arrays T) (q : nat) :
  q < length (rows_kept s) ->
  nth q (out_b (pruned K offset s)) zero = nth (nth q (rows_kept s) 0) (arr_b s) zero.
Proof.
  intros Hq. unfold pruned. cbn [out_b].
  rewrite (nth_map_default _ _ _ 0) by exact Hq. reflexivity.
Qed.

Lemma pruned_c (K : cone) (offset : T) (s : arrays T) (p : nat) :
  p < length (cols_kept K s) ->
  nth p (out_c (pruned K offset s)) zero = nth (nth p (cols_kept K s) 0) (arr_c s) zero.
Proof.
  intros Hp. unfold pruned. cbn [out_c].
  rewrite (nth_map_default _ _ _ 0) by exact Hp. reflexivity.
Qed.

(** A kept column has a nonzero entry in the returned array exactly when it
    had one before: the rows left out hold zeros only. *)
Lemma pruned_column_zero (K : cone) (offset : T) (s : arrays T) (m n p : nat) :
  wf_arrays m n s -> p < length (cols_kept K s) ->
  all_zero (column (out_A (pruned K offset s)) p)
  = all_zero (column (arr_A s) (nth p (cols_kept K s) 0)).
Proof.
  intros Hwf Hp. pose proof Hwf as (Hm & Hn & HwfA & Hb & Hc).
  pose proof (pruned_wf K offset s) as (Hm' & Hn' & _).
  cbn [returned arr_A] in Hm', Hn'.
  assert (Hcol : nth p (cols_kept K s) 0 < n).
  { pose proof (nth_In (cols_kept K s) 0 Hp) as Hin. apply cols_kept_In in Hin. lia. }
  apply bool_eq_iff. rewrite !all_zero_column. unfold zero_column. rewrite Hm', Hm.
  split.
  - intros Hz r Hr. destruct (row_dropped s r) eqn:Ed.
    + apply (row_dropped_iff s m n r Hwf Hr) in Ed. apply Ed. exact Hcol.
    + assert (Hin : In r (rows_kept s)) by (apply rows_kept_In; split; [lia|exact Ed]).
      apply (In_nth _ _ 0) in Hin. destruct Hin as (q & Hq & <-).
      rewrite <- (pruned_entry K offset s q p Hq Hp). apply Hz. exact Hq.
  - intros Hz q Hq. rewrite (pruned_entry K offset s q p Hq Hp). apply Hz.
    pose proof (nth_In (rows_kept s) 0 Hq) as Hin. apply rows_kept_In in Hin. lia.
Qed.

(** Likewise for a kept row: the columns left out hold zeros only. *)
Lemma pruned_row_zero (K : cone) (offset : T) (s : arrays T) (m n q : nat) :
  wf_arrays m n s -> q < length (rows_kept s) ->
  all_zero (nth q (rows (out_A (pruned K offset s))) [])
  = all_zero (nth (nth q (rows_kept s) 0) (rows (arr_A s)) []).
Proof.
  intros Hwf Hq. pose proof Hwf as (Hm & Hn & HwfA & Hb & Hc).
  pose proof (pruned_wf K offset s) as (Hm' & Hn' & HwfA' & _).
  cbn [returned arr_A] in Hm', Hn', HwfA'.
  assert (Hrow : nth q (rows_kept s) 0 < m).
  { pose proof (nth_In (rows_kept s) 0 Hq) as Hin. apply rows_kept_In in Hin. lia. }
  apply bool_eq_iff. rewrite !all_zero_row by (auto; lia). rewrite Hn', Hn.
  split.
  - intros Hz i Hi. destruct (col_dropped K s i) eqn:Ed.
    + apply col_dropped_iff in Ed. destruct Ed as [Ed _]. apply Ed. lia.
    + assert (Hin : In i (cols_kept K s)) by (apply cols_kept_In; split; [lia|exact Ed]).
      apply (In_nth _ _ 0) in Hin. destruct Hin as (p & Hp & <-).
      rewrite <- (pruned_entry K offset s q p Hq Hp). apply Hz. exact Hp.
  - intros Hz p Hp. rewrite (pruned_entry K offset s q p Hq Hp). apply Hz.
    pose proof (nth_In (cols_kept K s) 0 Hp) as Hin. apply cols_kept_In in Hin. lia.
Qed.

(** In the reduced problem no column and no row can be dropped. *)
Lemma pruned_col_dropped (K : cone) (offset : T) (s : arrays T) (m n p : nat) :
  wf_arrays m n s -> p < length (cols_kept K s) ->
  col_dropped (out_K (pruned K offset s)) (returned (pruned K offset s)) p = false.
Proof.
  intros Hwf Hp.
  assert (Hkeep : col_dropped K s (nth p (cols_kept K s) 0) = false).
  { pose proof (nth_In (cols_kept K s) 0 Hp) as Hin. apply cols_kept_In in Hin. tauto. }
  rewrite <- Hkeep. unfold col_dropped, drop_free, drop_nonneg.
  cbn [returned arr_A arr_c].
  rewrite (pruned_column_zero K offset s m n p Hwf Hp), (pruned_c K offset s p Hp).
  cbn [pruned out_K K_f K_l].
  rewrite (kept_position_free K s p Hp), (kept_position_nonneg K s p Hp).
  rewrite !Nat.leb_antisym, (kept_position_free K s p Hp). reflexivity.
Qed.

Lemma pruned_row_dropped (K : cone) (offset : T) (s : arrays T) (m n q : nat) :
  wf_arrays m n s -> q < length (rows_kept s) ->
  row_dropped (returned (pruned K offset s)) q = false.
Proof.
  intros Hwf Hq.
  assert (Hkeep : row_dropped s (nth q (rows_kept s) 0) = false).
  { pose proof (nth_In (rows_kept s) 0 Hq) as Hin. apply rows_kept_In in Hin. tauto. }
  rewrite <- Hkeep. unfold row_dropped. cbn [returned arr_A arr_b].
  rewrite (pruned_row_zero K offset s m n q Hwf Hq), (pruned_b K offset s q Hq).
  reflexivity.
Qed.

Lemma map_nth_seq {X} (l : list X) (d : X) :
  map (fun k => nth k l d) (seq 0 (length l)) = l.
Proof.
  apply (nth_ext _ _ d d); [rewrite length_map, length_seq; reflexivity|].
  intros k Hk. rewrite length_map, length_seq in Hk.
  rewrite (nth_map_default _ _ _ 0) by (rewrite length_seq; exact Hk).
  rewrite seq_nth by exact Hk. reflexivity.
Qed.

Lemma matrix_reselect (A : matrix T) :
  wf_matrix A ->
  map (fun r => map (fun c => entry A r c) (seq 0 (ncols A))) (seq 0 (nrows A)) = rows A.
Proof.
  intros Hwf.
  transitivity (map (fun k => nth k (rows A) []) (seq 0 (length (rows A))));
    [|apply map_nth_seq].
  unfold nrows. apply map_ext_in. intros r Hr. apply in_seq in Hr. unfold entry.
  rewrite <- (wf_nth_row A r Hwf) by (unfold nrows; lia). apply map_nth_seq.
Qed.

Lemma filter_all (p : nat -> bool) (l : list nat) :
  (forall x, In x l -> p x = true) -> List.filter p l = l.
Proof. intros Hp. apply forallb_filter_id. apply forallb_forall. exact Hp. Qed.

(** Pruning the reduced problem gives the reduced problem. *)
Lemma pruned_fixpoint (K : cone) (o o2 : T) (s : arrays T) (m n : nat) :
  wf_arrays m n s ->
  pruned (out_K (pruned K o s)) o2 (returned (pruned K o s))
  = Sedumi (out_A (pruned K o s)) (out_b (pruned K o s)) (out_c (pruned K o s))
           (out_K (pruned K o s)) o2.
Proof.
  intros Hwf. set (r := pruned K o s).
  pose proof (pruned_wf K o s) as Hwf'. fold r in Hwf'.
  destruct Hwf' as (Hm' & Hn' & HwfA' & Hb' & Hc').
  assert (Hcs : cols_kept (out_K r) (returned r) = seq 0 (ncols (out_A r))).
  { unfold cols_kept. rewrite Hc'. cbn [returned arr_A] in Hn'. rewrite Hn'.
    apply filter_all. intros p Hp. apply in_seq in Hp. apply negb_true_iff.
    apply (pruned_col_dropped K o s m n p Hwf). lia. }
  assert (Hrs : rows_kept (returned r) = seq 0 (nrows (out_A r))).
  { unfold rows_kept. rewrite Hb'. cbn [returned arr_A] in Hm'. rewrite Hm'.
    apply filter_all. intros q Hq. apply in_seq in Hq. apply negb_true_iff.
    apply (pruned_row_dropped K o s m n q Hwf). lia. }
  assert (Hdf : dropped_free (out_K r) (returned r) = 0).
  { unfold dropped_free. rewrite filter_none; [reflexivity|].
    intros p Hp. apply in_seq in Hp. rewrite Hc' in Hp.
    pose proof (pruned_col_dropped K o s m n p Hwf ltac:(lia)) as Hd. fold r in Hd.
    unfold col_dropped in Hd. apply orb_false_iff in Hd. tauto. }
  assert (Hdl : dropped_nonneg (out_K r) (returned r) = 0).
  { unfold dropped_nonneg. rewrite filter_none; [reflexivity|].
    intros p Hp. apply in_seq in Hp. rewrite Hc' in Hp.
    pose proof (pruned_col_dropped K o s m n p Hwf ltac:(lia)) as Hd. fold r in Hd.
    unfold col_dropped in Hd. apply orb_false_iff in Hd. tauto. }
  unfold pruned at 1. rewrite Hcs, Hrs, Hdf, Hdl, !Nat.sub_0_r.
  cbn [returned arr_A arr_b arr_c] in *.
  rewrite length_seq, (matrix_reselect (out_A r) HwfA').
  assert (Eb : length (out_b r) = nrows (out_A r)) by lia.
  assert (Ec : length (out_c r) = ncols (out_A r)) by lia.
  rewrite <- Eb, <- Ec, !map_nth_seq. rewrite Ec.
  destruct (out_A r), (out_K r); reflexivity.
Qed.

(** Rows that match no pattern leave the arrays and the offset as they are. *)
Lemma for_each_no_match (m n n_free : nat) (allow : bool) (s : arrays T) (ks : list nat)
      (offset : T) :
  wf_arrays m n s ->
  (forall k g h, rows (arr_A s) !! k = Some g -> arr_b s !! k = Some h ->
                 check_eliminatibility g h (Some n_free) allow = Ok (None, None)) ->
  Forall (fun k => k < m) ks ->
  for_each ks (elim_row n_free allow) offset s = (s, Ok offset).
Proof.
  intros Hwf Hno Hks. pose proof Hwf as (Hm & Hn & HwfA & Hb & Hc).
  induction ks as [|k ks IH]; [reflexivity|].
  apply Forall_cons in Hks. destruct Hks as [Hk Hks]. cbn [for_each].
  destruct (lookup_lt_is_Some_2 (rows (arr_A s)) k ltac:(unfold nrows in *; lia)) as [g Hg].
  destruct (lookup_lt_is_Some_2 (arr_b s) k ltac:(lia)) as [h Hh].
  rewrite (bind_Ok _ _ s s offset).
  - apply IH. exact Hks.
  - rewrite (elim_row_run s m n n_free allow k offset g h Hwf Hg Hh).
    rewrite (Hno k g h Hg Hh). reflexivity.
Qed.

(** C9, as the code has it.  When a call of [simplify_sedumi_model] has
    returned a problem with at least one column, and no row of that problem
    matches a pattern of [check_eliminatibility], a second call on the
    returned [A], [b], [c] and [K] leaves these arrays as they are and
    returns them again, with the same [K] and the offset 0. *)
Theorem simplify_twice (K : cone) (allow1 allow2 : bool) (s s1 : arrays T) (m n : nat)
        (r1 : sedumi T) :
  wf_arrays m n s ->
  simplify_sedumi_model K allow1 s = (s1, Ok r1) ->
  (forall k g h, rows (out_A r1) !! k = Some g -> out_b r1 !! k = Some h ->
     check_eliminatibility g h (Some (K_f (out_K r1))) allow2 = Ok (None, None)) ->
  0 < ncols (out_A r1) ->
  simplify_sedumi_model (out_K r1) allow2 (returned r1)
  = (returned r1, Ok (Sedumi (out_A r1) (out_b r1) (out_c r1) (out_K r1) zero)).
Proof.
  intros Hwf Hrun Hno Hcols.
  destruct (simplify_result K allow1 s s1 m n r1 Hwf Hrun) as (o & _ & Hwf1 & _ & ->).
  pose proof (pruned_wf K o s1) as Hwf'.
  pose proof Hwf' as (Hm' & Hn' & HwfA' & Hb' & Hc').
  rewrite simplify_unfold. unfold elimination_pass.
  rewrite (for_each_no_match _ _ _ allow2 _ _ zero Hwf' Hno)
    by (rewrite Hb'; apply Forall_seq_lt).
  rewrite Hb', Hc'.
  rewrite (pruning_pass_pruned _ zero _ _ _ Hwf').
  cbn [returned arr_A] in Hn'. rewrite Hn' in Hcols.
  destruct (Nat.eqb_spec (length (cols_kept K s1)) 0) as [E|_]; [lia|].
  rewrite (pruned_fixpoint K o zero s1 m n Hwf1). reflexivity.
Qed.
End Idempotence.

(** C9: the second call fails when the first one returned no column. *)
Lemma simplify_twice_empty :
  let s0 : arrays Q := Arrays (Matrix 1 [[0%Q]]) [0%Q] [0%Q] in
  let r1 : sedumi Q := Sedumi (Matrix 0 []) [] [] (Cone 0 0 []) 0%Q in
  simplify_sedumi_model (Cone 1 0 []) false s0 = (s0, Ok r1) /\
  rows (out_A r1) = [] /\
  simplify_sedumi_model (out_K r1) false (returned r1)
  = (returned r1, Raise (AssertionError None)).
Proof. vm_compute. auto. Qed.

(** ** The expansion *)

Section ConvProofs.
Context {T : Type} `{ScalarLaws T}.

Lemma to_float_id (X : matrix T) : to_float X = X.
Proof.
  unfold to_float. destruct X as [n rs]. cbn [ncols rows]. f_equal.
  rewrite <- (map_id rs) at 2. apply map_ext. intros r.
  rewrite <- (map_id r) at 2. apply map_ext. intros x. apply mul_one_l.
Qed.

Lemma problem_data_prep_run (pd : problem_data T) :
  problem_data_prep pd = (prepped pd, Ok tt).
Proof.
  unfold problem_data_prep, bind, update, prepped. cbn.
  rewrite !to_float_id. reflexivity.
Qed.

Lemma clip_id (n lo hi : nat) : lo <= hi <= n -> clip n lo hi = (lo, hi).
Proof. intros Hb. unfold clip. f_equal; lia. Qed.

Lemma mat_set_block_blit (A V : matrix T) (r0 r1 c0 c1 : nat) :
  r0 <= r1 <= nrows A -> c0 <= c1 <= ncols A ->
  nrows V = r1 - r0 -> ncols V = c1 - c0 ->
  mat_set_block A r0 r1 c0 c1 V = Ok (blit A r0 r1 c0 c1 V).
Proof.
  intros Hr Hc HV1 HV2. unfold mat_set_block.
  rewrite (clip_id _ _ _ Hr), (clip_id _ _ _ Hc).
  rewrite HV1, HV2, !Nat.eqb_refl. reflexivity.
Qed.

Lemma nth_app3 {X} (d : X) (l1 l2 l3 : list X) (lo hi k : nat) :
  length l1 = lo -> lo + length l2 = hi ->
  nth k (l1 ++ l2 ++ l3) d =
  if (lo <=? k) && (k <? hi) then nth (k - lo) l2 d
  else if k <? lo then nth k l1 d else nth (k - hi) l3 d.
Proof.
  intros H1 H2.
  destruct (Nat.leb_spec lo k) as [Hge|Hlt]; cbn [andb].
  - rewrite app_nth2 by lia. rewrite H1.
    destruct (Nat.ltb_spec k hi) as [Hlt|Hge2].
    + rewrite app_nth1 by lia. reflexivity.
    + rewrite app_nth2 by lia. destruct (Nat.ltb_spec k lo); [lia|].
      f_equal. lia.
  - rewrite app_nth1 by lia. destruct (Nat.ltb_spec k lo); [reflexivity|lia].
Qed.

Lemma nth_take_lt {X} (d : X) (l : list X) (n k : nat) :
  k < n -> nth k (take n l) d = nth k l d.
Proof. intros Hk. rewrite !nth_lookup, lookup_take_lt by exact Hk. reflexivity. Qed.

Lemma nth_drop_add {X} (d : X) (l : list X) (n k : nat) :
  nth k (drop n l) d = nth (n + k) l d.
Proof. rewrite !nth_lookup, lookup_drop. reflexivity. Qed.

Lemma nth_zip_with {X Y Z} (f : X -> Y -> Z) (l : list X) (k : list Y) (i : nat)
      (dx : X) (dy : Y) (dz : Z) :
  i < length l -> i < length k ->
  nth i (zip_with f l k) dz = f (nth i l dx) (nth i k dy).
Proof.
  intros Hl Hk.
  destruct (lookup_lt_is_Some_2 l i Hl) as [x Hx].
  destruct (lookup_lt_is_Some_2 k i Hk) as [y Hy].
  rewrite (nth_lookup_Some l i dx x Hx), (nth_lookup_Some k i dy y Hy).
  apply nth_lookup_Some. rewrite lookup_zip_with, Hx, Hy. reflexivity.
Qed.

Lemma blit_row (A V : matrix T) (r0 r1 c0 c1 r : nat) :
  r0 <= r1 <= nrows A -> nrows V = r1 - r0 -> r < nrows A ->
  nth r (rows (blit A r0 r1 c0 c1 V)) [] =
  if (r0 <=? r) && (r <? r1)
  then take c0 (nth r (rows A) []) ++ nth (r - r0) (rows V) [] ++ drop c1 (nth r (rows A) [])
  else nth r (rows A) [].
Proof.
  intros Hr HV Hlt. unfold blit, nrows in *. cbn [rows].
  rewrite (nth_app3 [] _ _ _ r0 r1).
  - destruct ((r0 <=? r) && (r <? r1)) eqn:E.
    + apply andb_true_iff in E. destruct E as [E1 E2].
      apply Nat.leb_le in E1. apply Nat.ltb_lt in E2.
      rewrite (nth_zip_with _ _ _ _ [] [])
        by (rewrite ?length_take, ?length_drop; lia).
      rewrite nth_take_lt by lia. rewrite nth_drop_add.
      replace (r0 + (r - r0)) with r by lia. reflexivity.
    + destruct (Nat.ltb_spec r r0).
      * apply nth_take_lt. lia.
      * rewrite nth_drop_add. f_equal.
        apply andb_false_iff in E. rewrite Nat.leb_gt, Nat.ltb_ge in E. lia.
  - rewrite length_take. lia.
  - rewrite length_zip_with, length_take, length_drop. lia.
Qed.

Lemma blit_shape (A V : matrix T) (r0 r1 c0 c1 : nat) :
  wf_matrix A -> wf_matrix V ->
  r0 <= r1 <= nrows A -> c0 <= c1 <= ncols A ->
  nrows V = r1 - r0 -> ncols V = c1 - c0 ->
  wf_matrix (blit A r0 r1 c0 c1 V) /\
  nrows (blit A r0 r1 c0 c1 V) = nrows A /\ ncols (blit A r0 r1 c0 c1 V) = ncols A.
Proof.
  intros HA HV Hr Hc HV1 HV2.
  assert (Hn : nrows (blit A r0 r1 c0 c1 V) = nrows A).
  { unfold blit, nrows in *. cbn [rows].
    rewrite !length_app, length_zip_with, !length_take, !length_drop. lia. }
  split; [|split; [exact Hn|reflexivity]].
  unfold wf_matrix. apply Forall_lookup. intros r x Hx.
  pose proof (lookup_lt_Some _ _ _ Hx) as Hlt. fold (nrows (blit A r0 r1 c0 c1 V)) in Hlt.
  rewrite Hn in Hlt.
  rewrite <- (nth_lookup_Some _ _ [] _ Hx).
  rewrite (blit_row A V r0 r1 c0 c1 r Hr HV1 Hlt). cbn [blit ncols].
  destruct ((r0 <=? r) && (r <? r1)) eqn:E.
  - apply andb_true_iff in E. destruct E as [E1 E2].
    apply Nat.leb_le in E1. apply Nat.ltb_lt in E2.
    rewrite !length_app, length_take, length_drop.
    rewrite (wf_nth_row A r HA Hlt), (wf_nth_row V (r - r0) HV) by lia. lia.
  - apply wf_nth_row; assumption.
Qed.

(** The entries after [A[r0:r1, c0:c1] = V]. *)
Lemma blit_entry (A V : matrix T) (r0 r1 c0 c1 r c : nat) :
  wf_matrix A -> wf_matrix V ->
  r0 <= r1 <= nrows A -> c0 <= c1 <= ncols A ->
  nrows V = r1 - r0 -> ncols V = c1 - c0 ->
  r < nrows A ->
  entry (blit A r0 r1 c0 c1 V) r c =
  if (r0 <=? r) && (r <? r1) && (c0 <=? c) && (c <? c1)
  then entry V (r - r0) (c - c0) else entry A r c.
Proof.
  intros HA HV Hr Hc HV1 HV2 Hlt. unfold entry at 1.
  rewrite (blit_row A V r0 r1 c0 c1 r Hr HV1 Hlt).
  destruct ((r0 <=? r) && (r <? r1)) eqn:E; cbn [andb]; [|reflexivity].
  apply andb_true_iff in E. destruct E as [E1 E2].
  apply Nat.leb_le in E1. apply Nat.ltb_lt in E2.
  rewrite (nth_app3 zero _ _ _ c0 c1).
  - destruct ((c0 <=? c) && (c <? c1)) eqn:E'; [reflexivity|].
    destruct (Nat.ltb_spec c c0).
    + apply nth_take_lt. lia.
    + rewrite nth_drop_add. unfold entry. f_equal.
      apply andb_false_iff in E'. rewrite Nat.leb_gt, Nat.ltb_ge in E'. lia.
  - rewrite length_take, (wf_nth_row A r HA Hlt). lia.
  - rewrite (wf_nth_row V (r - r0) HV) by lia. lia.
Qed.

(** *** Entries of the blocks *)

Lemma matrix_ext (A B : matrix T) :
  wf_matrix A -> wf_matrix B -> nrows A = nrows B -> ncols A = ncols B ->
  (forall r c, r < nrows A -> c < ncols A -> entry A r c = entry B r c) ->
  A = B.
Proof.
  intros HA HB Hr Hc He.
  assert (Hrows : rows A = rows B).
  { apply (nth_ext _ _ [] []); [exact Hr|]. intros r Hlt.
    apply (nth_ext _ _ zero zero).
    - rewrite (wf_nth_row A r HA Hlt), (wf_nth_row B r HB) by (unfold nrows in *; lia).
      exact Hc.
    - intros c Hlt'. rewrite (wf_nth_row A r HA Hlt) in Hlt'.
      apply (He r c Hlt Hlt'). }
  destruct A, B. cbn [ncols rows] in *. congruence.
Qed.

Lemma zeros_shape (m n : nat) :
  wf_matrix (zeros m n) /\ nrows (zeros m n) = m /\ ncols (zeros m n) = n.
Proof.
  unfold zeros, wf_matrix, nrows. cbn [rows ncols]. rewrite length_replicate.
  repeat split. apply Forall_replicate. apply length_replicate.
Qed.

Lemma nth_replicate {X} (n k : nat) (x d : X) :
  nth k (replicate n x) d = if k <? n then x else d.
Proof.
  destruct (Nat.ltb_spec k n) as [Hlt|Hge].
  - apply nth_lookup_Some. apply lookup_replicate_2. exact Hlt.
  - apply nth_overflow. rewrite length_replicate. exact Hge.
Qed.

Lemma entry_zeros (m n r c : nat) : entry (zeros m n) r c = zero.
Proof.
  unfold entry, zeros. cbn [rows]. rewrite nth_replicate.
  destruct (r <? m).
  - rewrite nth_replicate. destruct (c <? n); reflexivity.
  - destruct c; reflexivity.
Qed.

Lemma eye_shape (n : nat) : wf_matrix (eye n) /\ nrows (eye n) = n /\ ncols (eye n) = n.
Proof.
  unfold eye, wf_matrix, nrows. cbn [rows ncols]. rewrite length_map, length_seq.
  repeat split. apply Forall_map. apply Forall_true. intros r. cbn.
  rewrite length_map, length_seq. reflexivity.
Qed.

Lemma entry_eye (n r c : nat) :
  r < n -> c < n -> entry (eye n) r c = if r =? c then one else zero.
Proof.
  intros Hr Hc. unfold entry, eye. cbn [rows].
  rewrite (nth_map_default _ _ _ 0) by (rewrite length_seq; exact Hr).
  rewrite (nth_map_default _ _ _ 0) by (rewrite length_seq; exact Hc).
  rewrite !seq_nth by assumption. reflexivity.
Qed.

Lemma vstack_shape (X Y : matrix T) :
  wf_matrix X -> wf_matrix Y -> ncols X = ncols Y ->
  wf_matrix (vstack X Y) /\ nrows (vstack X Y) = nrows X + nrows Y /\
  ncols (vstack X Y) = ncols X.
Proof.
  intros HX HY Hc. unfold vstack, wf_matrix, nrows in *. cbn [rows ncols].
  rewrite length_app. repeat split. apply Forall_app. split; [exact HX|].
  rewrite Hc. exact HY.
Qed.

Lemma entry_vstack (X Y : matrix T) (r c : nat) :
  entry (vstack X Y) r c =
  if r <? nrows X then entry X r c else entry Y (r - nrows X) c.
Proof.
  unfold entry, vstack, nrows. cbn [rows].
  destruct (Nat.ltb_spec r (length (rows X))).
  - rewrite app_nth1 by assumption. reflexivity.
  - rewrite app_nth2 by assumption. reflexivity.
Qed.

Lemma hstack_shape (X Y : matrix T) :
  wf_matrix X -> wf_matrix Y -> nrows X = nrows Y ->
  wf_matrix (hstack X Y) /\ nrows (hstack X Y) = nrows X /\
  ncols (hstack X Y) = ncols X + ncols Y.
Proof.
  intros HX HY Hr. unfold hstack, wf_matrix, nrows in *. cbn [rows ncols].
  rewrite length_zip_with. repeat split; [|lia].
  apply Forall_lookup. intros r x Hx. apply lookup_zip_with_Some in Hx.
  destruct Hx as (u & v & -> & Hu & Hv). rewrite length_app.
  rewrite (wf_row_length X r u HX Hu), (wf_row_length Y r v HY Hv). reflexivity.
Qed.

Lemma entry_hstack (X Y : matrix T) (r c : nat) :
  wf_matrix X -> nrows X = nrows Y -> r < nrows X ->
  entry (hstack X Y) r c =
  if c <? ncols X then entry X r c else entry Y r (c - ncols X).
Proof.
  intros HX Hr Hlt. unfold entry, hstack. cbn [rows].
  rewrite (nth_zip_with _ _ _ _ [] []) by (unfold nrows in *; lia).
  pose proof (wf_nth_row X r HX Hlt) as Hlen.
  destruct (Nat.ltb_spec c (ncols X)).
  - rewrite app_nth1 by lia. reflexivity.
  - rewrite app_nth2 by lia. rewrite Hlen. reflexivity.
Qed.

Lemma top_rows_shape (k : nat) (X : matrix T) :
  wf_matrix X -> k <= nrows X ->
  wf_matrix (top_rows k X) /\ nrows (top_rows k X) = k /\ ncols (top_rows k X) = ncols X.
Proof.
  intros HX Hk. unfold top_rows, wf_matrix, nrows in *. cbn [rows ncols].
  rewrite length_take. repeat split; [|lia]. apply Forall_take. exact HX.
Qed.

Lemma rows_from_shape (k : nat) (X : matrix T) :
  wf_matrix X ->
  wf_matrix (rows_from k X) /\ nrows (rows_from k X) = nrows X - k /\
  ncols (rows_from k X) = ncols X.
Proof.
  intros HX. unfold rows_from, wf_matrix, nrows in *. cbn [rows ncols].
  rewrite length_drop. repeat split. apply Forall_drop. exact HX.
Qed.

Lemma entry_top_rows (k : nat) (X : matrix T) (r c : nat) :
  r < k -> entry (top_rows k X) r c = entry X r c.
Proof. intros Hr. unfold entry, top_rows. cbn [rows]. rewrite nth_take_lt by exact Hr. reflexivity. Qed.

Lemma entry_rows_from (k : nat) (X : matrix T) (r c : nat) :
  entry (rows_from k X) r c = entry X (k + r) c.
Proof. unfold entry, rows_from. cbn [rows]. rewrite nth_drop_add. reflexivity. Qed.

Lemma column_top_rows (k : nat) (X : matrix T) (i : nat) :
  column (top_rows k X) i = take k (column X i).
Proof. unfold column, top_rows. cbn [rows]. rewrite <- firstn_map. reflexivity. Qed.

Lemma column_rows_from (k : nat) (X : matrix T) (i : nat) :
  column (rows_from k X) i = drop k (column X i).
Proof. unfold column, rows_from. cbn [rows]. rewrite <- skipn_map. reflexivity. Qed.

Lemma transpose_column (X : matrix T) :
  ncols X = 1 ->
  nrows (transpose X) = 1 /\ ncols (transpose X) = nrows X /\
  nth 0 (rows (transpose X)) [] = column X 0.
Proof.
  intros Hc. unfold transpose, nrows. cbn [rows ncols]. rewrite Hc. cbn. auto.
Qed.

(** *** The expansion step *)

(** Decide the comparisons of the goal by linear arithmetic. *)
Ltac resolve_cmp :=
  repeat match goal with
    | |- context [?a <=? ?b] =>
        first [ replace (a <=? b) with true by (symmetry; apply Nat.leb_le; lia)
              | replace (a <=? b) with false by (symmetry; apply Nat.leb_gt; lia) ]
    | |- context [?a <? ?b] =>
        first [ replace (a <? b) with true by (symmetry; apply Nat.ltb_lt; lia)
              | replace (a <? b) with false by (symmetry; apply Nat.ltb_ge; lia) ]
    end.

Ltac list_len :=
  repeat first [ rewrite length_app | rewrite length_take | rewrite length_drop
               | rewrite length_column | rewrite length_replicate ].

Lemma col_set_slice_run (b : list T) (lo hi : nat) (V : matrix T) :
  lo <= hi <= length b -> nrows V = hi - lo -> ncols V = 1 ->
  col_set_slice b lo hi V = Ok (take lo b ++ column V 0 ++ drop hi b).
Proof.
  intros Hb HV1 HV2. unfold col_set_slice. rewrite (clip_id _ _ _ Hb).
  rewrite HV1, HV2, !Nat.eqb_refl. reflexivity.
Qed.

Lemma row_set_slice_run (c : list T) (lo hi : nat) (V : matrix T) :
  lo <= hi <= length c -> nrows V = 1 -> ncols V = hi - lo ->
  row_set_slice c lo hi V = Ok (take lo c ++ nth 0 (rows V) [] ++ drop hi c).
Proof.
  intros Hb HV1 HV2. unfold row_set_slice. rewrite (clip_id _ _ _ Hb).
  rewrite HV1, HV2, !Nat.eqb_refl. reflexivity.
Qed.

Lemma expansion_step_layout (pd : problem_data T) :
  wf_problem_data pd ->
  expansion_step (prepped pd) = Ok (expanded_layout pd).
Proof.
  intros (HA & Hb & Hc & HG & Hh & Hc1 & Hb1 & Hh1 & HAr & HAc & HGr & HGc & Hhr).
  unfold expansion_step, expanded_layout.
  cbn [prepped pd_A pd_b pd_c pd_G pd_h pd_dims].
  destruct (transpose_column (pd_c pd) Hc1) as (Ht1 & Ht2 & Ht3).
  unfold mat_len. rewrite Ht1, Ht2, Hb1, Nat.mul_1_l, Nat.mul_1_r.
  fold (sdp_size (dims_s (pd_dims pd))).
  remember (nrows (pd_c pd)) as nx eqn:Enx. remember (nrows (pd_b pd)) as ne eqn:Ene.
  remember (dims_l (pd_dims pd)) as ni eqn:Eni.
  remember (sdp_size (dims_s (pd_dims pd))) as nsdp eqn:Ensdp.
  remember (ne + ni + nsdp) as m eqn:Em. remember (nx + ni + nsdp) as N eqn:EN.
  destruct (top_rows_shape ni (pd_G pd) HG ltac:(lia)) as (HGl & HGlr & HGlc).
  destruct (rows_from_shape ni (pd_G pd) HG) as (HGs & HGsr & HGsc).
  destruct (top_rows_shape ni (pd_h pd) Hh ltac:(lia)) as (Hhl & Hhlr & Hhlc).
  destruct (rows_from_shape ni (pd_h pd) Hh) as (Hhs & Hhsr & Hhsc).
  destruct (eye_shape ni) as (HIi & HIir & HIic).
  destruct (eye_shape nsdp) as (HIs & HIsr & HIsc).
  destruct (zeros_shape m N) as (HZ & HZr & HZc).
  (* the objective *)
  rewrite row_set_slice_run by (unfold vzeros; rewrite ?length_replicate; lia).
  cbn [rbind]. rewrite Ht3.
  (* the five blocks of A_star *)
  set (B1 := blit (zeros m N) 0 ne 0 nx (pd_A pd)).
  destruct (blit_shape (zeros m N) (pd_A pd) 0 ne 0 nx HZ HA
              ltac:(lia) ltac:(lia) ltac:(lia) ltac:(lia)) as (HB1 & HB1r & HB1c).
  fold B1 in HB1, HB1r, HB1c.
  rewrite (mat_set_block_blit (zeros m N) (pd_A pd) 0 ne 0 nx) by lia.
  cbn [rbind]. fold B1.
  rewrite col_set_slice_run by (unfold vzeros; rewrite ?length_replicate; lia).
  cbn [rbind].
  set (B2 := blit B1 ne (ne + ni) 0 nx (top_rows ni (pd_G pd))).
  destruct (blit_shape B1 (top_rows ni (pd_G pd)) ne (ne + ni) 0 nx HB1 HGl
              ltac:(lia) ltac:(lia) ltac:(lia) ltac:(lia)) as (HB2 & HB2r & HB2c).
  fold B2 in HB2, HB2r, HB2c.
  rewrite (mat_set_block_blit B1 _ ne (ne + ni) 0 nx) by lia.
  cbn [rbind]. fold B2.
  set (B3 := blit B2 ne (ne + ni) nx (nx + ni) (eye ni)).
  destruct (blit_shape B2 (eye ni) ne (ne + ni) nx (nx + ni) HB2 HIi
              ltac:(lia) ltac:(lia) ltac:(lia) ltac:(lia)) as (HB3 & HB3r & HB3c).
  fold B3 in HB3, HB3r, HB3c.
  rewrite (mat_set_block_blit B2 _ ne (ne + ni) nx (nx + ni)) by lia.
  cbn [rbind]. fold B3.
  rewrite col_set_slice_run by (unfold vzeros; list_len; lia).
  cbn [rbind].
  set (B4 := blit B3 (ne + ni) m 0 nx (rows_from ni (pd_G pd))).
  destruct (blit_shape B3 (rows_from ni (pd_G pd)) (ne + ni) m 0 nx HB3 HGs
              ltac:(lia) ltac:(lia) ltac:(lia) ltac:(lia)) as (HB4 & HB4r & HB4c).
  fold B4 in HB4, HB4r, HB4c.
  rewrite (mat_set_block_blit B3 _ (ne + ni) m 0 nx) by lia.
  cbn [rbind]. fold B4.
  set (B5 := blit B4 (ne + ni) m (nx + ni) N (eye nsdp)).
  destruct (blit_shape B4 (eye nsdp) (ne + ni) m (nx + ni) N HB4 HIs
              ltac:(lia) ltac:(lia) ltac:(lia) ltac:(lia)) as (HB5 & HB5r & HB5c).
  fold B5 in HB5, HB5r, HB5c.
  rewrite (mat_set_block_blit B4 _ (ne + ni) m (nx + ni) N) by lia.
  cbn [rbind]. fold B5.
  rewrite col_set_slice_run by (unfold vzeros; list_len; lia).
  cbn [rbind].
  (* the right-hand side and the objective *)
  assert (Eb : forall u v w : list T,
             length u = ne -> length v = ni -> length w = nsdp ->
             take (ne + ni)
               (take ne (take 0 (vzeros m) ++ u ++ drop ne (vzeros m)) ++ v
                ++ drop (ne + ni) (take 0 (vzeros m) ++ u ++ drop ne (vzeros m)))
             ++ w
             ++ drop m
                  (take ne (take 0 (vzeros m) ++ u ++ drop ne (vzeros m)) ++ v
                   ++ drop (ne + ni) (take 0 (vzeros m) ++ u ++ drop ne (vzeros m)))
             = u ++ v ++ w).
  { intros u v w Hu Hv Hw. unfold vzeros. rewrite take_0, app_nil_l, drop_replicate.
    rewrite (take_app_length' u _ ne) by lia.
    rewrite (drop_app_add' u _ ne ni) by lia. rewrite drop_replicate.
    rewrite (app_assoc u v).
    rewrite (take_app_length' (u ++ v) _ (ne + ni)) by (rewrite length_app; lia).
    replace m with ((ne + ni) + nsdp) by lia.
    rewrite (drop_app_add' (u ++ v) _ (ne + ni) nsdp) by (rewrite length_app; lia).
    rewrite drop_replicate.
    replace (ne + ni + nsdp - ne - ni - nsdp) with 0 by lia.
    cbn [replicate]. rewrite app_nil_r, <- app_assoc. reflexivity. }
  rewrite Eb by (rewrite length_column; lia).
  assert (Ec : take 0 (vzeros N) ++ column (pd_c pd) 0 ++ drop nx (vzeros N)
               = column (pd_c pd) 0 ++ vzeros ni ++ vzeros nsdp).
  { unfold vzeros. rewrite take_0, app_nil_l, drop_replicate.
    replace (N - nx) with (ni + nsdp) by lia. rewrite replicate_add. reflexivity. }
  rewrite Ec. do 4 f_equal.
  (* the matrix, entry by entry *)
  destruct (zeros_shape ne ni) as (HZ1 & HZ1r & HZ1c).
  destruct (zeros_shape ne nsdp) as (HZ2 & HZ2r & HZ2c).
  destruct (zeros_shape ni nsdp) as (HZ3 & HZ3r & HZ3c).
  destruct (zeros_shape nsdp ni) as (HZ4 & HZ4r & HZ4c).
  destruct (hstack_shape (pd_A pd) (zeros ne ni) HA HZ1 ltac:(lia)) as (HP1 & HP1r & HP1c).
  destruct (hstack_shape _ (zeros ne nsdp) HP1 HZ2 ltac:(lia)) as (HR1 & HR1r & HR1c).
  destruct (hstack_shape (top_rows ni (pd_G pd)) (eye ni) HGl HIi ltac:(lia))
    as (HP2 & HP2r & HP2c).
  destruct (hstack_shape _ (zeros ni nsdp) HP2 HZ3 ltac:(lia)) as (HR2 & HR2r & HR2c).
  destruct (hstack_shape (rows_from ni (pd_G pd)) (zeros nsdp ni) HGs HZ4 ltac:(lia))
    as (HP3 & HP3r & HP3c).
  destruct (hstack_shape _ (eye nsdp) HP3 HIs ltac:(lia)) as (HR3 & HR3r & HR3c).
  destruct (vstack_shape _ _ HR2 HR3 ltac:(lia)) as (HV2 & HV2r & HV2c).
  destruct (vstack_shape _ _ HR1 HV2 ltac:(lia)) as (HV1 & HV1r & HV1c).
  apply matrix_ext; [exact HB5|exact HV1|lia|lia|].
  intros r c Hr Hcc.
  assert (Hrm : r < m) by lia. assert (HcN : c < N) by lia.
  assert (R1r : nrows (hstack (hstack (pd_A pd) (zeros ne ni)) (zeros ne nsdp)) = ne)
    by lia.
  assert (R2r : nrows (hstack (hstack (top_rows ni (pd_G pd)) (eye ni)) (zeros ni nsdp))
                = ni) by lia.
  assert (P1c : ncols (hstack (pd_A pd) (zeros ne ni)) = nx + ni) by lia.
  assert (P2c : ncols (hstack (top_rows ni (pd_G pd)) (eye ni)) = nx + ni) by lia.
  assert (P3c : ncols (hstack (rows_from ni (pd_G pd)) (zeros nsdp ni)) = nx + ni) by lia.
  assert (Glc : ncols (top_rows ni (pd_G pd)) = nx) by lia.
  assert (Gsc : ncols (rows_from ni (pd_G pd)) = nx) by lia.
  unfold B5. rewrite blit_entry by (auto; lia).
  unfold B4. rewrite blit_entry by (auto; lia).
  unfold B3. rewrite blit_entry by (auto; lia).
  unfold B2. rewrite blit_entry by (auto; lia).
  unfold B1. rewrite blit_entry by (auto; lia).
  rewrite entry_zeros, entry_vstack, R1r.
  destruct (Nat.ltb_spec r ne) as [He1|He1].
  - rewrite entry_hstack by (auto; lia). rewrite P1c.
    destruct (Nat.ltb_spec c (nx + ni)) as [Hd1|Hd1].
    + rewrite entry_hstack by (auto; lia). rewrite HAc.
      destruct (Nat.ltb_spec c nx) as [Hd2|Hd2]; resolve_cmp; cbn [andb];
        rewrite ?entry_zeros; try reflexivity.
      f_equal; lia.
    + resolve_cmp; cbn [andb]; rewrite ?entry_zeros; reflexivity.
  - rewrite entry_vstack, R2r.
    destruct (Nat.ltb_spec (r - ne) ni) as [He2|He2].
    + rewrite entry_hstack by (auto; lia). rewrite P2c.
      destruct (Nat.ltb_spec c (nx + ni)) as [Hd1|Hd1].
      * rewrite entry_hstack by (auto; lia). rewrite Glc.
        destruct (Nat.ltb_spec c nx) as [Hd2|Hd2]; resolve_cmp; cbn [andb];
          rewrite ?entry_zeros; try reflexivity.
        f_equal; lia.
      * resolve_cmp; cbn [andb]; rewrite ?entry_zeros; reflexivity.
    + rewrite entry_hstack by (auto; lia). rewrite P3c.
      destruct (Nat.ltb_spec c (nx + ni)) as [Hd1|Hd1].
      * rewrite entry_hstack by (auto; lia). rewrite Gsc.
        destruct (Nat.ltb_spec c nx) as [Hd2|Hd2]; resolve_cmp; cbn [andb];
          rewrite ?entry_zeros; try reflexivity.
        f_equal; lia.
      * resolve_cmp; cbn [andb]; rewrite ?entry_zeros; try reflexivity.
        f_equal; lia.
Qed.
End ConvProofs.

Section ConvTheorems.
Context {T : Type} `{ScalarLaws T}.

Lemma make_unfold (simplify : bool) (pd : problem_data T) :
  make_sedumi_format_problem simplify pd =
  (prepped pd,
   match dims_q (pd_dims pd) with
   | [] => let? ex := expansion_step (prepped pd) in finish simplify ex
   | _ :: _ => Raise (AssertionError (Some soc_msg))
   end).
Proof.
  unfold make_sedumi_format_problem.
  rewrite (bind_Ok _ _ pd (prepped pd) tt) by apply problem_data_prep_run.
  unfold bind, read, lift. cbn [prepped pd_dims].
  destruct (dims_q (pd_dims pd)); [|reflexivity].
  destruct (expansion_step (prepped pd)); reflexivity.
Qed.

(** C6.  For a source problem of consistent shapes whose [dims.q] is empty,
    [make_sedumi_format_problem] builds the expanded system with the variable
    layout [original x | inequality slacks | SDP slacks], that is the rows
    [A | 0 | 0] with right-hand side [b], [G_l | I | 0] with [h_l] and
    [G_s | 0 | I] with [h_s], the objective [c, 0, 0] and the cone descriptor
    [{f: nx, l: dims.l, s: dims.s}], and goes on with it; for every source
    problem whose [dims.q] is not empty it raises the assertion error about
    SOC constraints and returns nothing. *)
Theorem make_sedumi_format_problem_expansion :
  (forall (pd : problem_data T) (simplify : bool),
     wf_problem_data pd -> dims_q (pd_dims pd) = [] ->
     expansion_step (fst (problem_data_prep pd)) = Ok (expanded_layout pd) /\
     snd (make_sedumi_format_problem simplify pd)
     = finish simplify (expanded_layout pd)) /\
  (forall (pd : problem_data T) (simplify : bool),
     dims_q (pd_dims pd) <> [] ->
     snd (make_sedumi_format_problem simplify pd)
     = Raise (AssertionError (Some soc_msg))).
Proof.
  split.
  - intros pd simplify Hwf Hq. rewrite problem_data_prep_run. cbn [fst].
    rewrite make_unfold, Hq. cbn [snd].
    rewrite (expansion_step_layout pd Hwf). auto.
  - intros pd simplify Hq. rewrite make_unfold. cbn [snd].
    destruct (dims_q (pd_dims pd)); [congruence|reflexivity].
Qed.

(** *** Dimension consistency *)

Lemma simplify_consistent (K : cone) (allow : bool) (s s' : arrays T) (m n : nat)
      (r : sedumi T) :
  wf_arrays m n s -> n = cone_size K ->
  simplify_sedumi_model K allow s = (s', Ok r) ->
  consistent r /\
  wf_arrays (length (out_b r)) (cone_size (out_K r)) (returned r).
Proof.
  intros Hwf Hn Hrun.
  destruct (simplify_result K allow s s' m n r Hwf Hrun) as (o & _ & Hwf' & _ & ->).
  pose proof (pruned_wf K o s') as Hp. pose proof Hp as (Hm' & Hn' & _ & Hb' & Hc').
  pose proof (kept_dropped_total K s') as Htot.
  pose proof (dropped_free_le K s') as Hf. pose proof (dropped_nonneg_le K s') as Hl.
  destruct Hwf' as (_ & _ & _ & _ & Hc).
  assert (E : length (cols_kept K s') = cone_size (out_K (pruned K o s'))).
  { unfold cone_size in *. cbn [pruned out_K K_f K_l K_s]. lia. }
  cbn [returned arr_A arr_b] in Hm', Hn', Hb'.
  split; [split; lia|]. rewrite Hb', <- E. exact Hp.
Qed.

Lemma call_simplify_pair (A : matrix T) (b c : list T) (K : cone) (allow : bool) r :
  call_simplify A b c K allow = Ok r ->
  exists s', simplify_sedumi_model K allow (Arrays A b c) = (s', Ok r).
Proof.
  unfold call_simplify. destruct (simplify_sedumi_model K allow _) as [s' res].
  cbn [snd]. intros ->. eauto.
Qed.

Lemma finish_inv (simplify : bool) (A : matrix T) (b c : list T) (K : cone) r :
  finish simplify (A, b, c, K) = Ok r ->
  simplify = true /\
  exists r1, call_simplify A b c K false = Ok r1 /\
             nonzero (out_offset r1) = false /\
             call_simplify (out_A r1) (out_b r1) (out_c r1) (out_K r1) false = Ok r.
Proof.
  unfold finish. destruct simplify; cbn [rbind]; [|discriminate].
  intros Hf. split; [reflexivity|].
  destruct (call_simplify A b c K false) as [r1|e]; cbn [rbind] in Hf; [|discriminate].
  exists r1. split; [reflexivity|].
  destruct (nonzero (out_offset r1)); cbn [rbind] in Hf; [discriminate|]. auto.
Qed.

Lemma expanded_layout_wf (pd : problem_data T) :
  wf_problem_data pd ->
  let '(A, b, c, K) := expanded_layout pd in
  wf_arrays (nrows (pd_b pd) + dims_l (pd_dims pd) + sdp_size (dims_s (pd_dims pd)))
            (cone_size K) (Arrays A b c).
Proof.
  intros (HA & Hb & Hc & HG & Hh & Hc1 & Hb1 & Hh1 & HAr & HAc & HGr & HGc & Hhr).
  unfold expanded_layout.
  remember (nrows (pd_c pd)) as nx eqn:Enx. remember (nrows (pd_b pd)) as ne eqn:Ene.
  remember (dims_l (pd_dims pd)) as ni eqn:Eni.
  remember (sdp_size (dims_s (pd_dims pd))) as nsdp eqn:Ensdp.
  destruct (top_rows_shape ni (pd_G pd) HG ltac:(lia)) as (HGl & HGlr & HGlc).
  destruct (rows_from_shape ni (pd_G pd) HG) as (HGs & HGsr & HGsc).
  destruct (top_rows_shape ni (pd_h pd) Hh ltac:(lia)) as (Hhl & Hhlr & Hhlc).
  destruct (rows_from_shape ni (pd_h pd) Hh) as (Hhs & Hhsr & Hhsc).
  destruct (eye_shape ni) as (HIi & HIir & HIic).
  destruct (eye_shape nsdp) as (HIs & HIsr & HIsc).
  destruct (zeros_shape ne ni) as (HZ1 & HZ1r & HZ1c).
  destruct (zeros_shape ne nsdp) as (HZ2 & HZ2r & HZ2c).
  destruct (zeros_shape ni nsdp) as (HZ3 & HZ3r & HZ3c).
  destruct (zeros_shape nsdp ni) as (HZ4 & HZ4r & HZ4c).
  destruct (hstack_shape (pd_A pd) (zeros ne ni) HA HZ1 ltac:(lia)) as (HP1 & HP1r & HP1c).
  destruct (hstack_shape _ (zeros ne nsdp) HP1 HZ2 ltac:(lia)) as (HR1 & HR1r & HR1c).
  destruct (hstack_shape (top_rows ni (pd_G pd)) (eye ni) HGl HIi ltac:(lia))
    as (HP2 & HP2r & HP2c).
  destruct (hstack_shape _ (zeros ni nsdp) HP2 HZ3 ltac:(lia)) as (HR2 & HR2r & HR2c).
  destruct (hstack_shape (rows_from ni (pd_G pd)) (zeros nsdp ni) HGs HZ4 ltac:(lia))
    as (HP3 & HP3r & HP3c).
  destruct (hstack_shape _ (eye nsdp) HP3 HIs ltac:(lia)) as (HR3 & HR3r & HR3c).
  destruct (vstack_shape _ _ HR2 HR3 ltac:(lia)) as (HV2 & HV2r & HV2c).
  destruct (vstack_shape _ _ HR1 HV2 ltac:(lia)) as (HV1 & HV1r & HV1c).
  unfold wf_arrays, cone_size. cbn [arr_A arr_b arr_c K_f K_l K_s].
  rewrite <- Ensdp. unfold vzeros.
  repeat first [ rewrite length_app | rewrite length_column | rewrite length_replicate ].
  split; [lia|]. split; [lia|]. split; [exact HV1|]. split; lia.
Qed.

(** C7.  Dimension consistency: a problem returned by
    [simplify_sedumi_model] for arrays of consistent shapes whose column
    count is [K.f + K.l + sum of s*s over K.s], and a problem returned by
    [make_sedumi_format_problem] for a source problem of consistent shapes,
    has as many columns in [A] as [K.f + K.l + sum of s*s over K.s] and as
    many rows in [A] as [b] has entries. *)
Theorem dimension_consistency :
  (forall (K : cone) (allow : bool) (s s' : arrays T) (m n : nat) (r : sedumi T),
     wf_arrays m n s -> n = cone_size K ->
     simplify_sedumi_model K allow s = (s', Ok r) ->
     ncols (out_A r) = cone_size (out_K r) /\ nrows (out_A r) = length (out_b r)) /\
  (forall (simplify : bool) (pd pd' : problem_data T) (r : sedumi T),
     wf_problem_data pd ->
     make_sedumi_format_problem simplify pd = (pd', Ok r) ->
     ncols (out_A r) = cone_size (out_K r) /\ nrows (out_A r) = length (out_b r)).
Proof.
  split.
  - intros K allow s s' m n r Hwf Hn Hrun.
    apply (simplify_consistent K allow s s' m n r Hwf Hn Hrun).
  - intros simplify pd pd' r Hwf Hrun. rewrite make_unfold in Hrun.
    injection Hrun as _ Hrun.
    destruct (dims_q (pd_dims pd)); [|discriminate].
    rewrite (expansion_step_layout pd Hwf) in Hrun. cbn [rbind] in Hrun.
    pose proof (expanded_layout_wf pd Hwf) as Hl.
    destruct (expanded_layout pd) as [[[A b] c] K].
    apply finish_inv in Hrun. destruct Hrun as (_ & r1 & H1 & _ & H2).
    apply call_simplify_pair in H1. destruct H1 as (s1 & H1).
    destruct (simplify_consistent K false _ s1 _ _ r1 Hl eq_refl H1) as [_ Hwf1].
    apply call_simplify_pair in H2. destruct H2 as (s2 & H2).
    apply (simplify_consistent (out_K r1) false _ s2 _ _ r Hwf1 eq_refl H2).
Qed.
End ConvTheorems.

(** ** The two paths of make_sedumi_format_problem *)

Section Paths.
Context {T : Type} `{ScalarLaws T}.

Lemma write_unfold (simplify : bool) (pd : problem_data T) :
  snd (write_sedumi_model simplify pd) =
  match snd (make_sedumi_format_problem simplify pd) with
  | Ok r => if nonzero (out_offset r) then Raise (AssertionError None)
            else Ok (out_A r, out_b r, out_c r, out_K r)
  | Raise e => Raise e
  end.
Proof.
  unfold write_sedumi_model, bind, lift, ret.
  destruct (make_sedumi_format_problem simplify pd) as [pd' [r|e]]; cbn [snd];
    [|reflexivity].
  destruct (nonzero (out_offset r)); reflexivity.
Qed.

(** C10, as the code has it.  With [simplify=False] the call never returns:
    it raises, and what it raises is the unbound-variable error of [obj_cst]
    when [dims.q] is empty and the expansion succeeds, and the assertion
    error of line 70 when [dims.q] is not empty.  With [simplify=True], after
    the first call of [simplify_sedumi_model] the function asserts that the
    first call's offset is 0 (line 119) and returns what a second call, on
    the first call's output, returns: the whole tuple, offset included.
    [write_sedumi_model] unpacks that tuple, asserts that its offset is 0 and
    goes on with [A], [b], [c] and [K]. *)
Theorem make_sedumi_format_problem_paths :
  (forall pd : problem_data T,
     exists e, snd (make_sedumi_format_problem false pd) = Raise e) /\
  (forall (pd : problem_data T) ex,
     dims_q (pd_dims pd) = [] ->
     expansion_step (fst (problem_data_prep pd)) = Ok ex ->
     snd (make_sedumi_format_problem false pd) = Raise UnboundLocalError) /\
  (forall (pd : problem_data T) (simplify : bool),
     dims_q (pd_dims pd) <> [] ->
     snd (make_sedumi_format_problem simplify pd)
     = Raise (AssertionError (Some soc_msg))) /\
  (forall (pd : problem_data T) A b c K r1,
     dims_q (pd_dims pd) = [] ->
     expansion_step (fst (problem_data_prep pd)) = Ok (A, b, c, K) ->
     call_simplify A b c K false = Ok r1 ->
     snd (make_sedumi_format_problem true pd)
     = if nonzero (out_offset r1)
       then Raise (AssertionError (Some impossible_msg))
       else call_simplify (out_A r1) (out_b r1) (out_c r1) (out_K r1) false) /\
  (forall (simplify : bool) (pd : problem_data T),
     snd (write_sedumi_model simplify pd) =
     match snd (make_sedumi_format_problem simplify pd) with
     | Ok r => if nonzero (out_offset r) then Raise (AssertionError None)
               else Ok (out_A r, out_b r, out_c r, out_K r)
     | Raise e => Raise e
     end).
Proof.
  assert (Hfalse : forall (pd : problem_data T) ex,
             finish false ex = Raise UnboundLocalError).
  { intros _ [[[A b] c] K]. reflexivity. }
  split; [|split; [|split; [|split]]].
  - intros pd. rewrite make_unfold. cbn [snd].
    destruct (dims_q (pd_dims pd)); [|eauto].
    destruct (expansion_step (prepped pd)) as [ex|e]; cbn [rbind]; [|eauto].
    rewrite (Hfalse pd). eauto.
  - intros pd ex Hq Hex. rewrite problem_data_prep_run in Hex. cbn [fst] in Hex.
    rewrite make_unfold, Hq, Hex. cbn [snd rbind]. apply (Hfalse pd).
  - intros pd simplify Hq. rewrite make_unfold. cbn [snd].
    destruct (dims_q (pd_dims pd)); [congruence|reflexivity].
  - intros pd A b c K r1 Hq Hex H1. rewrite problem_data_prep_run in Hex.
    cbn [fst] in Hex. rewrite make_unfold, Hq, Hex. cbn [snd rbind].
    unfold finish. rewrite H1. cbn [rbind].
    destruct (nonzero (out_offset r1)); reflexivity.
  - intros simplify pd. apply write_unfold.
Qed.
End Paths.

(** ** The caller's objects *)

Section CallerState.
Context {T : Type} `{ScalarLaws T} `{!ExactScalar T}.

(** *** What the caller's objects hold after a call *)



End CallerState.

(** C10: with a second-order cone in [dims.q], the call with [simplify=False]
    raises the assertion error of line 70, not the unbound-variable error,
    and the call with [simplify=True] raises it as well, before any call of
    [simplify_sedumi_model].  And in float64 the first call can return an
    offset that is not 0: the assertion of line 119 then fails and there is
    no second call. *)
Lemma make_unsimplified_soc :
  let pd : problem_data Q :=
    ProblemData (Matrix 2 [[1; 0]]%Q) (Matrix 1 [[0]]%Q) (Matrix 1 [[1]; [2]]%Q)
      (Matrix 2 [[1; 1]; [1; 0]; [0; 1]]%Q) (Matrix 1 [[3]; [0]; [4]]%Q)
      (Dims 1 [1] [1]) in
  let pf : problem_data float :=
    ProblemData (Matrix 2 [[0x1p-700; 0x1p+700]; [0; 2]]%float)
      (Matrix 1 [[0]; [0]]%float) (Matrix 1 [[1]; [0]]%float)
      (Matrix 2 []) (Matrix 1 []) (Dims 0 [] []) in
  snd (make_sedumi_format_problem false pd) = Raise (AssertionError (Some soc_msg)) /\
  snd (make_sedumi_format_problem true pd) = Raise (AssertionError (Some soc_msg)) /\
  snd (make_sedumi_format_problem true pf)
  = Raise (AssertionError (Some impossible_msg)).
Proof. vm_compute. repeat split. Qed.


(** ** The call returns *)

Section Returns.
Context {T : Type} `{ScalarLaws T}.

Lemma check_eliminatibility_returns (g : list T) (h : T) (n_elig : nat) (allow : bool) :
  n_elig <= length g ->
  exists ij, check_eliminatibility g h (Some n_elig) allow = Ok ij.
Proof.
  intros Hle. rewrite check_eliminatibility_spec. unfold check_spec. simpl default.
  destruct (negb allow && nonzero h); [eauto|].
  destruct (first_eligible g n_elig); [eauto|].
  destruct (Nat.leb_spec n_elig (length g)); [eauto|lia].
Qed.

Lemma elim_row_returns (s : arrays T) (m n n_free : nat) (allow : bool) (k : nat)
      (offset : T) :
  wf_arrays m n s -> n_free <= n -> k < m ->
  exists s' offset', elim_row n_free allow k offset s = (s', Ok offset').
Proof.
  intros Hwf Hf Hk. pose proof Hwf as (Hm & Hn & HwfA & Hb & Hc).
  destruct (lookup_lt_is_Some_2 (rows (arr_A s)) k ltac:(unfold nrows in *; lia)) as [g Hg].
  destruct (lookup_lt_is_Some_2 (arr_b s) k ltac:(lia)) as [h Hh].
  rewrite (elim_row_run s m n n_free allow k offset g h Hwf Hg Hh).
  destruct (check_eliminatibility_returns g h n_free allow) as [[[i|] j] ->]; [|eauto|eauto].
  rewrite (wf_row_length _ _ _ HwfA Hg). lia.
Qed.

Lemma for_each_returns (m n n_free : nat) (allow : bool) (ks : list nat)
      (s : arrays T) (offset : T) :
  wf_arrays m n s -> n_free <= n -> Forall (fun k => k < m) ks ->
  exists s' offset', for_each ks (elim_row n_free allow) offset s = (s', Ok offset').
Proof.
  intros Hwf Hf Hks. revert s offset Hwf.
  induction ks as [|k ks IH]; intros s offset Hwf; cbn [for_each].
  - unfold ret. eauto.
  - apply Forall_cons in Hks. destruct Hks as [Hk Hks].
    destruct (elim_row_returns s m n n_free allow k offset Hwf Hf Hk) as (s1 & o1 & E).
    rewrite (bind_Ok _ _ s s1 o1 E). apply (IH Hks).
    eapply elim_row_wf; eauto.
Qed.

(** On arrays of consistent shapes with at least one column, and with no more
    free variables declared than there are columns, [simplify_sedumi_model]
    raises nothing: it returns. *)
Lemma simplify_returns (K : cone) (allow : bool) (s : arrays T) (m n : nat) :
  wf_arrays m n s -> K_f K <= n -> 0 < n ->
  exists s' r, simplify_sedumi_model K allow s = (s', Ok r).
Proof.
  intros Hwf Hf Hn. pose proof Hwf as (_ & _ & _ & Hb & Hc).
  rewrite simplify_unfold, Hb, Hc. unfold elimination_pass.
  destruct (for_each_returns m n (K_f K) allow (seq 0 m) s zero Hwf Hf (Forall_seq_lt m))
    as (s' & o & E).
  rewrite E.
  assert (Hwf' : wf_arrays m n s').
  { apply (elimination_pass_wf m n (K_f K) m allow s s' o Hwf). exact E. }
  rewrite (pruning_pass_pruned K o s' m n Hwf').
  destruct (Nat.eqb_spec n 0); [lia|]. eauto.
Qed.
End Returns.

(** C3: an offset that is not 0, in float64.  Every entry of the input is
    finite and [allow_nonzero_b] is false.  Row 0 selects [i = 0] with
    partner [j = 1]; [A[0,1]/A[0,0]] overflows and leaves [nan] in [A[1,1]].
    Row 1 then selects [i = 1] with the pivot [nan]: its [factor = 0/nan] is
    [nan] and so is the offset that the call returns.  On the same problem
    [make_sedumi_format_problem] fails the assertion of line 119. *)
Lemma offset_nan_without_nonzero_b :
  let s0 : arrays float :=
    Arrays (Matrix 2 [[0x1p-600; 0x1p+600]; [0; 1]]%float) [0; 0]%float [1; 0]%float in
  let pd : problem_data float :=
    ProblemData (Matrix 2 [[0x1p-600; 0x1p+600]; [0; 1]]%float)
      (Matrix 1 [[0]; [0]]%float) (Matrix 1 [[1]; [0]]%float)
      (Matrix 2 []) (Matrix 1 []) (Dims 0 [] []) in
  snd (simplify_sedumi_model (Cone 2 0 []) false s0)
  = Ok (Sedumi (Matrix 1 [[nan]; [nan]]%float) [nan; nan]%float [nan]%float
          (Cone 1 0 []) nan) /\
  nonzero nan = true /\
  snd (make_sedumi_format_problem true pd)
  = Raise (AssertionError (Some impossible_msg)).
Proof. vm_compute. repeat split. Qed.

(** ** The row test, for every row *)

Section CheckMeaning.
Context {T : Type} `{ScalarLaws T}.

Lemma first_eligible_None (g : list T) (n_elig : nat) :
  first_eligible g n_elig = None ->
  forall i, i < n_elig -> i < length g -> nonzero (nth i g zero) = false.
Proof.
  unfold first_eligible. intros Hf i H1 H2.
  destruct (nonzero (nth i g zero)) eqn:E; [|reflexivity].
  assert (Hin : In i (List.filter (fun i => nonzero (nth i g zero))
                        (seq 0 (Nat.min n_elig (length g))))).
  { apply filter_In. split; [apply in_seq; lia|exact E]. }
  destruct (List.filter _ _); [destruct Hin|discriminate].
Qed.
End CheckMeaning.

(** C2, as the code has it.  For every row [g], right-hand side [h], window
    [n_elig] and flag: [check_eliminatibility] returns no match when
    [allow_nonzero_b] is false and [h] is nonzero; otherwise it looks for the
    first nonzero [g[i]] with [i] below [n_elig]; from that [i], and without
    trying a later one, it returns [(i, None)] when no later entry is
    nonzero, [(i, j)] when [g[j]] is the only later nonzero entry, and no
    match when two or more later entries are nonzero; when no such [i] exists
    it returns no match if [n_elig] is at most the length of [g], and raises
    [IndexError] if [n_elig] is larger.  For [g=[0,2,-1,0]], [h=0] and
    [n_elig=2] it returns [(1, 2)]. *)
Theorem check_eliminatibility_behaviour :
  (forall (T : Type) (S : Scalar T), ScalarLaws T ->
   forall (g : list T) (h : T) (n_elig : option nat) (allow_nonzero_b : bool),
     let n := default (length g) n_elig in
     check_eliminatibility g h n_elig allow_nonzero_b =
     if negb allow_nonzero_b && nonzero h then Ok (None, None)
     else match first_eligible g n with
          | Some i =>
              Ok (match later_nonzeros g i with
                  | [] => (Some i, None)
                  | [j] => (Some i, Some j)
                  | _ :: _ :: _ => (None, None)
                  end)
          | None => if n <=? length g then Ok (None, None) else Raise IndexError
          end) /\
  check_eliminatibility (T:=Q) [0; 2; -1; 0]%Q 0%Q (Some 2) false = Ok (Some 1, Some 2).
Proof.
  split; [|reflexivity].
  intros T S L g h n_elig allow n. apply check_eliminatibility_spec.
Qed.

(** C2: a window larger than the row, over a row of zeros. *)
Lemma check_eliminatibility_past_the_end :
  check_eliminatibility (T:=Q) [0%Q] 0%Q (Some 2) false = Raise IndexError.
Proof. reflexivity. Qed.

(** ** Concrete runs *)

Lemma check_eliminatibility_behaviour_witness :
  check_eliminatibility (T:=Q) [1; 1; 1]%Q 0%Q None false = Ok (None, None).
Proof.
  rewrite (proj1 check_eliminatibility_behaviour Q Q_scalar Q_laws). reflexivity.
Defined.

Lemma simplify_asserts_input_variables_witness :
  let s : arrays Q := Arrays (Matrix 2 [[1; -1]]%Q) [0%Q] [1; 2]%Q in
  let s' : arrays Q := Arrays (Matrix 2 [[0; 0]]%Q) [0%Q] [0; 3]%Q in
  let r : sedumi Q := Sedumi (Matrix 1 []) [] [3%Q] (Cone 0 0 []) 0%Q in
  wf_arrays 1 2 s /\
  simplify_sedumi_model (Cone 1 0 []) false s = (s', Ok r) /\
  ncols (out_A r) + dropped_free (Cone 1 0 []) s' + dropped_nonneg (Cone 1 0 []) s' = 2.
Proof.
  intros s s' r.
  assert (Hwf : wf_arrays 1 2 s) by (repeat split; repeat constructor).
  assert (E : simplify_sedumi_model (Cone 1 0 []) false s = (s', Ok r))
    by (vm_compute; reflexivity).
  split; [exact Hwf|]. split; [exact E|].
  exact (proj2 (proj2 (simplify_asserts_input_variables (Cone 1 0 []) false s 1 2 Hwf)
                  s' r E)).
Defined.

Lemma pruning_pass_spec_witness :
  let K := Cone 1 0 [] in
  let s0 : arrays Q := Arrays (Matrix 2 [[1; -1]]%Q) [0%Q] [1; 2]%Q in
  let s : arrays Q := Arrays (Matrix 2 [[0; 0]]%Q) [0%Q] [0; 3]%Q in
  let r : sedumi Q := Sedumi (Matrix 1 []) [] [3%Q] (Cone 0 0 []) 0%Q in
  wf_arrays 1 2 s0 /\ simplify_sedumi_model K false s0 = (s, Ok r) /\
  exists cs rs : list nat,
    In 1 cs /\ out_c r = map (fun col => nth col (arr_c s) 0%Q) cs /\
    out_b r = map (fun row => nth row (arr_b s) 0%Q) rs.
Proof.
  intros K s0 s r.
  assert (Hwf : wf_arrays 1 2 s0) by (repeat split; repeat constructor).
  assert (E : simplify_sedumi_model K false s0 = (s, Ok r)) by (vm_compute; reflexivity).
  split; [exact Hwf|]. split; [exact E|].
  destruct (pruning_pass_spec K false s0 s 1 2 r Hwf E)
    as (cs & rs & _ & Hpsd & _ & _ & _ & _ & _ & Hb & Hc & _).
  exists cs, rs. split; [|split; [exact Hc|exact Hb]]. apply Hpsd; cbn; lia.
Defined.

Lemma simplify_twice_witness :
  let K := Cone 2 0 [] in
  let s : arrays Q := Arrays (Matrix 2 [[1; 1]]%Q) [1%Q] [1; 1]%Q in
  let r1 : sedumi Q := Sedumi (Matrix 2 [[1; 1]]%Q) [1%Q] [1; 1]%Q K 0%Q in
  wf_arrays 1 2 s /\
  simplify_sedumi_model K false s = (s, Ok r1) /\
  simplify_sedumi_model (out_K r1) false (returned r1) = (returned r1, Ok r1).
Proof.
  intros K s r1.
  assert (Hwf : wf_arrays 1 2 s) by (repeat split; repeat constructor).
  assert (E : simplify_sedumi_model K false s = (s, Ok r1)) by (vm_compute; reflexivity).
  split; [exact Hwf|]. split; [exact E|].
  apply (simplify_twice K false false s s 1 2 r1 Hwf E).
  - intros [|k] g h; cbn; [|discriminate]. intros [= <-] [= <-]. reflexivity.
  - cbn. lia.
Defined.

Lemma make_sedumi_format_problem_expansion_witness :
  let pd : problem_data Q :=
    ProblemData (Matrix 2 [[1; 0]]%Q) (Matrix 1 [[0]]%Q) (Matrix 1 [[1]; [2]]%Q)
      (Matrix 2 [[1; 1]; [0; 1]]%Q) (Matrix 1 [[3]; [4]]%Q) (Dims 1 [] [1]) in
  wf_problem_data pd /\
  expansion_step (fst (problem_data_prep pd))
  = Ok (Matrix 4 [[1; 0; 0; 0]; [1; 1; 1; 0]; [0; 1; 0; 1]]%Q,
        [0; 3; 4]%Q, [1; 2; 0; 0]%Q, Cone 2 1 [1]).
Proof.
  intros pd.
  assert (Hwf : wf_problem_data pd) by (repeat split; repeat constructor).
  split; [exact Hwf|].
  rewrite (proj1 (proj1 (make_sedumi_format_problem_expansion (T:=Q)) pd true Hwf eq_refl)).
  reflexivity.
Defined.

Lemma dimension_consistency_witness :
  let pd : problem_data Q :=
    ProblemData (Matrix 2 [[1; 0]]%Q) (Matrix 1 [[0]]%Q) (Matrix 1 [[1]; [2]]%Q)
      (Matrix 2 [[1; 1]; [0; 1]]%Q) (Matrix 1 [[3]; [4]]%Q) (Dims 1 [] [1]) in
  let r : sedumi Q :=
    Sedumi (Matrix 3 [[1; 1; 0]; [1; 0; 1]]%Q) [3; 4]%Q [2; 0; 0]%Q (Cone 1 1 [1]) 0%Q in
  wf_problem_data pd /\
  snd (make_sedumi_format_problem true pd) = Ok r /\
  ncols (out_A r) = cone_size (out_K r) /\ nrows (out_A r) = length (out_b r).
Proof.
  intros pd r.
  assert (Hwf : wf_problem_data pd) by (repeat split; repeat constructor).
  assert (E : make_sedumi_format_problem true pd
              = (fst (make_sedumi_format_problem true pd), Ok r))
    by (vm_compute; reflexivity).
  split; [exact Hwf|]. split; [rewrite E; reflexivity|].
  exact (proj2 (dimension_consistency (T:=Q)) true pd _ r Hwf E).
Defined.

Lemma make_sedumi_format_problem_paths_witness :
  let pd : problem_data Q :=
    ProblemData (Matrix 2 [[1; 0]]%Q) (Matrix 1 [[0]]%Q) (Matrix 1 [[1]; [2]]%Q)
      (Matrix 2 [[1; 1]; [0; 1]]%Q) (Matrix 1 [[3]; [4]]%Q) (Dims 1 [] [1]) in
  let r1 : sedumi Q :=
    Sedumi (Matrix 3 [[1; 1; 0]; [1; 0; 1]]%Q) [3; 4]%Q [2; 0; 0]%Q (Cone 1 1 [1]) 0%Q in
  snd (make_sedumi_format_problem false pd) = Raise UnboundLocalError /\
  snd (make_sedumi_format_problem true pd)
  = (if nonzero (out_offset r1)
     then Raise (AssertionError (Some impossible_msg))
     else call_simplify (out_A r1) (out_b r1) (out_c r1) (out_K r1) false).
Proof.
  intros pd r1.
  destruct (make_sedumi_format_problem_paths (T:=Q)) as (_ & H2 & _ & H4 & _).
  split.
  - apply (H2 pd (Matrix 4 [[1; 0; 0; 0]; [1; 1; 1; 0]; [0; 1; 0; 1]]%Q,
                  [0; 3; 4]%Q, [1; 2; 0; 0]%Q, Cone 2 1 [1]) eq_refl).
    vm_compute. reflexivity.
  - apply (H4 pd (Matrix 4 [[1; 0; 0; 0]; [1; 1; 1; 0]; [0; 1; 0; 1]]%Q)
              [0; 3; 4]%Q [1; 2; 0; 0]%Q (Cone 2 1 [1]) r1 eq_refl).
    + vm_compute. reflexivity.
    + vm_compute. reflexivity.
Defined.


(** ** The scenarios of the specification (8) *)

(** Scenario A: one variable. *)
Example scenario_A :
  check_eliminatibility (T:=Q) [1; 0; 0]%Q 0%Q (Some 3) false = Ok (Some 0, None).
Proof. reflexivity. Qed.

(** Scenario C: too many terms. *)
Example scenario_C :
  check_eliminatibility (T:=Q) [1; 1; 1]%Q 0%Q (Some 3) false = Ok (None, None).
Proof. reflexivity. Qed.

(** Scenario D: the equality row [x1 = 0] and one inequality row on [x2].  The
    expanded system has two rows and [K.f = 2]; the reduced one has one row
    and [K.f = 1], the offset is 0 and the coefficient 1 of [x1] is gone. *)
Example scenario_D :
  let pd : problem_data Q :=
    ProblemData (Matrix 2 [[1; 0]]%Q) (Matrix 1 [[0]]%Q) (Matrix 1 [[1]; [2]]%Q)
      (Matrix 2 [[0; 1]]%Q) (Matrix 1 [[3]]%Q) (Dims 1 [] []) in
  expansion_step (fst (problem_data_prep pd))
  = Ok (Matrix 3 [[1; 0; 0]; [0; 1; 1]]%Q, [0; 3]%Q, [1; 2; 0]%Q, Cone 2 1 []) /\
  call_simplify (Matrix 3 [[1; 0; 0]; [0; 1; 1]]%Q) [0; 3]%Q [1; 2; 0]%Q (Cone 2 1 []) false
  = Ok (Sedumi (Matrix 2 [[1; 1]]%Q) [3%Q] [2; 0]%Q (Cone 1 1 []) 0%Q) /\
  snd (make_sedumi_format_problem true pd)
  = Ok (Sedumi (Matrix 2 [[1; 1]]%Q) [3%Q] [2; 0]%Q (Cone 1 1 []) 0%Q).
Proof. vm_compute. auto. Qed.

(** Scenario E: a free column of zeros with objective coefficient 0 is
    dropped, and [K.f] decreases by 1. *)
Example scenario_E :
  call_simplify (T:=Q) (Matrix 2 [[0; 1]]%Q) [1%Q] [0; 1]%Q (Cone 2 0 []) false
  = Ok (Sedumi (Matrix 1 [[1%Q]]) [1%Q] [1%Q] (Cone 1 0 []) 0%Q).
Proof. vm_compute. reflexivity. Qed.

(** * Further properties *)

(** ** sparsify_tall_mat *)

Section SparseProofs.
Context {T : Type} `{Scalar T}.

Lemma row_entries_app (r c : nat) (u v : list T) :
  row_entries r c (u ++ v) = row_entries r c u ++ row_entries r (c + length u) v.
Proof.
  revert c. induction u as [|x u IH]; intros c; cbn.
  - by rewrite Nat.add_0_r.
  - rewrite IH. replace (S c + length u) with (c + S (length u)) by lia.
    by destruct (nonzero x).
Qed.

Lemma dense_entries_app (r : nat) (rs1 rs2 : list (list T)) :
  dense_entries r (rs1 ++ rs2)
  = dense_entries r rs1 ++ dense_entries (r + length rs1) rs2.
Proof.
  revert r. induction rs1 as [|row rs1 IH]; intros r; cbn.
  - by rewrite Nat.add_0_r.
  - rewrite IH, <- app_assoc. by replace (S r + length rs1) with (r + S (length rs1)) by lia.
Qed.

Lemma shift_row_entries (off r c : nat) (row : list T) :
  shift_rows off (row_entries r c row) = row_entries (off + r) c row.
Proof.
  revert c. induction row as [|x row IH]; intros c; cbn; [done|].
  destruct (nonzero x); cbn; by rewrite <- IH.
Qed.

Lemma shift_dense_entries (off r : nat) (rs : list (list T)) :
  shift_rows off (dense_entries r rs) = dense_entries (off + r) rs.
Proof.
  revert r. induction rs as [|row rs IH]; intros r; cbn; [done|].
  unfold shift_rows in *. rewrite map_app. fold (shift_rows off (row_entries r 0 row)).
  rewrite shift_row_entries, IH. by replace (off + S r) with (S (off + r)) by lia.
Qed.

Lemma stack_entries_app (off : nat) (bs1 bs2 : list (coo T)) :
  stack_entries off (bs1 ++ bs2)
  = stack_entries off bs1 ++ stack_entries (off + sum_list (map coo_nrows bs1)) bs2.
Proof.
  revert off. induction bs1 as [|B bs1 IH]; intros off; cbn.
  - by rewrite Nat.add_0_r.
  - rewrite IH, <- app_assoc. by rewrite Nat.add_assoc.
Qed.

(** The loop, for a positive block height: it ends, and the collected blocks
    tile the rows of [M] from row [i * block_height] on. *)
Lemma sparsify_loop_run (M : matrix T) (bh : nat) :
  0 < bh ->
  forall d i acc, nrows M - i * bh = d ->
    exists bs,
      (forall fuel, d < fuel -> sparsify_loop fuel M bh i acc = Some (acc ++ bs)) /\
      stack_entries (i * bh) bs = dense_entries (i * bh) (drop (i * bh) (rows M)) /\
      sum_list (map coo_nrows bs) = d /\
      Forall (fun B => coo_ncols B = ncols M) bs.
Proof.
  intros Hbh d. induction (lt_wf d) as [d _ IH]. intros i acc Hd.
  destruct (Nat.ltb_spec (i * bh) (nrows M)) as [Hlt|Hge].
  - set (chunk := take bh (drop (i * bh) (rows M))).
    assert (Hc : length chunk = Nat.min bh (nrows M - i * bh)).
    { unfold chunk. rewrite length_take, length_drop. unfold nrows. lia. }
    destruct (IH (nrows M - (i + 1) * bh) ltac:(lia) (i + 1)
                (acc ++ [coo_matrix (astype_d (row_slice M (i * bh) ((i + 1) * bh)))])
                eq_refl) as (bs & Hrun & Hst & Hsum & Hcols).
    exists (coo_matrix (astype_d (row_slice M (i * bh) ((i + 1) * bh))) :: bs).
    assert (Hsl : rows (row_slice M (i * bh) ((i + 1) * bh)) = chunk).
    { unfold row_slice, chunk. cbn. f_equal. lia. }
    split; [|split; [|split]].
    + intros fuel Hf. destruct fuel as [|fuel]; [lia|]. cbn [sparsify_loop].
      destruct (Nat.ltb_spec (i * bh) (nrows M)); [|lia].
      rewrite (Hrun fuel) by lia. by rewrite <- app_assoc.
    + cbn [stack_entries coo_matrix coo_data coo_nrows]. unfold astype_d, nrows.
      rewrite Hsl, shift_dense_entries, Nat.add_0_r.
      rewrite <- (take_drop bh (drop (i * bh) (rows M))).
      fold chunk. rewrite dense_entries_app. f_equal.
      rewrite drop_drop.
      destruct (Nat.le_gt_cases bh (nrows M - i * bh)) as [Hfull|Hpart].
      * replace (i * bh + length chunk) with ((i + 1) * bh) by lia.
        replace (i * bh + bh) with ((i + 1) * bh) by lia. exact Hst.
      * assert (bs = []) as ->.
        { destruct bs as [|B bs]; [done|]. exfalso.
          specialize (Hrun (S (nrows M - (i + 1) * bh)) ltac:(lia)).
          cbn [sparsify_loop] in Hrun.
          destruct (Nat.ltb_spec ((i + 1) * bh) (nrows M)); [lia|].
          injection Hrun as Hrun. apply (f_equal length) in Hrun.
          rewrite !length_app in Hrun. cbn in Hrun. lia. }
        cbn. rewrite drop_ge; [done|]. unfold nrows in *. lia.
    + cbn [map sum_list coo_matrix coo_nrows]. unfold astype_d. unfold nrows at 1.
      rewrite Hsl, Hsum, Hc.
      replace ((i + 1) * bh) with (i * bh + bh) in * by lia. unfold id.
      destruct (Nat.le_gt_cases bh (nrows M - i * bh)) as [Hfull|Hpart]; [lia|].
      assert (bs = []) as ->.
      { destruct bs as [|B bs]; [done|]. exfalso.
        specialize (Hrun (S (nrows M - (i + 1) * bh)) ltac:(lia)).
        cbn [sparsify_loop] in Hrun.
        destruct (Nat.ltb_spec ((i + 1) * bh) (nrows M)); [lia|].
        injection Hrun as Hrun. apply (f_equal length) in Hrun.
        rewrite !length_app in Hrun. cbn in Hrun. lia. }
      cbn in Hsum. lia.
    + constructor; [done|exact Hcols].
  - exists []. split; [|split; [|split]].
    + intros fuel Hf. destruct fuel as [|fuel]; [lia|]. cbn [sparsify_loop].
      destruct (Nat.ltb_spec (i * bh) (nrows M)); [lia|]. by rewrite app_nil_r.
    + cbn. rewrite drop_ge; [done|]. unfold nrows in *. lia.
    + cbn. lia.
    + constructor.
Qed.

Lemma sparsify_blocks (M : matrix T) (bh fuel : nat) :
  0 < bh -> 0 < nrows M -> nrows M < fuel ->
  sparsify_tall_mat fuel M (Some bh) = Some (Ok (coo_matrix M)).
Proof.
  intros Hbh Hm Hf. unfold sparsify_tall_mat. simpl default.
  destruct (sparsify_loop_run M bh Hbh (nrows M) 0 [] ltac:(lia))
    as (bs & Hrun & Hst & Hsum & Hcols).
  rewrite (Hrun fuel Hf). cbn [app].
  destruct bs as [|B0 bs]; [cbn in Hsum; lia|].
  unfold sparse_vstack.
  assert (Hall : forallb (fun B => coo_ncols B =? coo_ncols B0) (B0 :: bs) = true).
  { apply forallb_forall. intros B HB. apply Nat.eqb_eq.
    rewrite Forall_forall in Hcols. rewrite (Hcols B), (Hcols B0); [done| |].
    - apply list_elem_of_In. by left.
    - by apply list_elem_of_In. }
  rewrite Hall. f_equal. f_equal. unfold coo_matrix.
  rewrite Hsum. f_equal.
  - inversion Hcols; subst. done.
  - cbn [Nat.mul] in Hst. rewrite Hst. by rewrite drop_0.
Qed.
End SparseProofs.

(** Settles the comparisons of the goal that linear arithmetic decides. *)
Ltac decide_cmp :=
  repeat match goal with
    | |- context [?a <=? ?b] =>
        first [ replace (a <=? b) with true by (symmetry; apply Nat.leb_le; lia)
              | replace (a <=? b) with false by (symmetry; apply Nat.leb_gt; lia) ]
    | |- context [?a <? ?b] =>
        first [ replace (a <? b) with true by (symmetry; apply Nat.ltb_lt; lia)
              | replace (a <? b) with false by (symmetry; apply Nat.ltb_ge; lia) ]
    | |- context [?a =? ?b] =>
        first [ replace (a =? b) with true by (symmetry; apply Nat.eqb_eq; lia)
              | replace (a =? b) with false by (symmetry; apply Nat.eqb_neq; lia) ]
    end.

Section SparseRead.
Context {T : Type} `{Scalar T}.

Lemma find_app_list {X} (p : X -> bool) (l1 l2 : list X) :
  List.find p (l1 ++ l2) = match List.find p l1 with
                           | Some x => Some x
                           | None => List.find p l2
                           end.
Proof. induction l1 as [|x l1 IH]; cbn; [done|]. by destruct (p x). Qed.

Lemma find_row_entries (r' c0 : nat) (row : list T) (r c : nat) :
  List.find (fun e : nat * nat * T => (e.1.1 =? r) && (e.1.2 =? c)) (row_entries r' c0 row)
  = if (r' =? r) && (c0 <=? c) && (c <? c0 + length row)
       && nonzero (nth (c - c0) row zero)
    then Some (r, c, nth (c - c0) row zero) else None.
Proof.
  revert c0. induction row as [|x row IH]; intros c0; cbn [row_entries length].
  - cbn [List.find]. destruct (Nat.leb_spec c0 c); [|by rewrite !andb_false_r].
    decide_cmp. by rewrite !andb_false_r.
  - assert (Hrest :
      List.find (fun e : nat * nat * T => (e.1.1 =? r) && (e.1.2 =? c))
        (row_entries r' (S c0) row)
      = if decide (c = c0) then None
        else if (r' =? r) && (c0 <=? c) && (c <? c0 + S (length row))
                && nonzero (nth (c - c0) (x :: row) zero)
             then Some (r, c, nth (c - c0) (x :: row) zero) else None).
    { rewrite IH. destruct (decide (c = c0)) as [->|Hne].
      - decide_cmp. by rewrite andb_false_r.
      - destruct (Nat.leb_spec (S c0) c) as [Hle|Hgt].
        + replace (c - c0) with (S (c - S c0)) by lia. cbn [nth].
          destruct (Nat.ltb_spec c (S c0 + length row)); decide_cmp; done.
        + decide_cmp. by rewrite !andb_false_r. }
    destruct (nonzero x) eqn:Hx.
    + cbn [List.find fst snd]. destruct (decide (c = c0)) as [->|Hne].
      * rewrite Nat.eqb_refl, andb_true_r, Nat.sub_diag. cbn [nth]. rewrite Hx.
        decide_cmp. destruct (Nat.eqb_spec r' r) as [->|]; cbn [andb]; [done|].
        rewrite Hrest. by destruct (decide (c0 = c0)).
      * decide_cmp. rewrite andb_false_r, Hrest. by destruct (decide (c = c0)).
    + rewrite Hrest. destruct (decide (c = c0)) as [->|Hne]; [|done].
      rewrite Nat.sub_diag. cbn [nth]. by rewrite Hx, andb_false_r.
Qed.

Lemma find_dense_entries (r0 : nat) (rs : list (list T)) (r c : nat) :
  List.find (fun e : nat * nat * T => (e.1.1 =? r) && (e.1.2 =? c)) (dense_entries r0 rs)
  = if (r0 <=? r) && (r <? r0 + length rs)
       && (c <? length (nth (r - r0) rs [])) && nonzero (nth c (nth (r - r0) rs []) zero)
    then Some (r, c, nth c (nth (r - r0) rs []) zero) else None.
Proof.
  revert r0. induction rs as [|row rs IH]; intros r0; cbn [dense_entries length].
  - cbn [List.find]. destruct (Nat.leb_spec r0 r); [|done].
    decide_cmp. done.
  - rewrite find_app_list, find_row_entries, IH, Nat.sub_0_r.
    replace (0 <=? c) with true by done. replace (0 + length row) with (length row) by done.
    destruct (Nat.eqb_spec r0 r) as [->|Hne].
    + rewrite Nat.sub_diag. cbn [nth andb]. decide_cmp. cbn [andb].
      by destruct ((c <? length row) && nonzero (nth c row zero)).
    + cbn [andb]. destruct (Nat.leb_spec (S r0) r) as [Hle|Hgt].
      * replace (r - r0) with (S (r - S r0)) by lia. cbn [nth].
        destruct (Nat.ltb_spec r (S r0 + length rs)); decide_cmp; done.
      * decide_cmp. done.
Qed.

Lemma coo_get_coo_matrix (M : matrix T) (r c : nat) :
  coo_get (coo_matrix M) r c = if nonzero (entry M r c) then entry M r c else zero.
Proof.
  unfold coo_get, coo_matrix. cbn [coo_data]. rewrite find_dense_entries.
  rewrite Nat.sub_0_r. unfold entry. cbn [Nat.leb andb Nat.add].
  destruct (Nat.ltb_spec r (length (rows M))) as [Hr|Hr]; cbn [andb].
  - destruct (Nat.ltb_spec c (length (nth r (rows M) []))) as [Hc|Hc]; cbn [andb].
    + by destruct (nonzero (nth c (nth r (rows M) []) zero)).
    + rewrite (nth_overflow (nth r (rows M) [])) by lia. by destruct (nonzero zero).
  - rewrite (nth_overflow (rows M)) by lia. destruct c; cbn; by destruct (nonzero zero).
Qed.

Lemma sparsify_empty (M : matrix T) (block_height : option nat) (fuel : nat) :
  nrows M = 0 ->
  sparsify_tall_mat (S fuel) M block_height = Some (Raise ValueError).
Proof.
  intros Hm. unfold sparsify_tall_mat. cbn [sparsify_loop]. rewrite Hm.
  by replace (0 * default 1000 block_height <? 0) with false.
Qed.

Lemma sparsify_loop_diverges (M : matrix T) (fuel i : nat) (acc : list (coo T)) :
  0 < nrows M -> sparsify_loop fuel M 0 i acc = None.
Proof.
  intros Hm. revert i acc. induction fuel as [|fuel IH]; intros i acc;
    cbn [sparsify_loop]; [done|].
  replace (i * 0 <? nrows M) with true by (symmetry; apply Nat.ltb_lt; lia).
  apply IH.
Qed.
End SparseRead.

Section SparseTheorems.
Context {T : Type} `{Scalar T}.

(** X1.  [sparsify_tall_mat] returns a sparse matrix of the shape of [M]
    that reads back as [M]: at every position it holds the entry of [M] when
    that entry is nonzero, and nothing (a zero) otherwise.  This holds for
    every positive [block_height], the default 1000 included, on an array
    with at least one row. *)
Theorem sparsify_tall_mat_reads_back (M : matrix T) (block_height : option nat)
        (fuel : nat) :
  0 < default 1000 block_height -> 0 < nrows M -> nrows M < fuel ->
  exists S : coo T,
    sparsify_tall_mat fuel M block_height = Some (Ok S) /\
    coo_nrows S = nrows M /\ coo_ncols S = ncols M /\
    forall r c, coo_get S r c = if nonzero (entry M r c) then entry M r c else zero.
Proof.
  intros Hbh Hm Hf. exists (coo_matrix M). split; [|split; [done|split; [done|]]].
  - destruct block_height as [bh|]; cbn in Hbh.
    + by apply sparsify_blocks.
    + apply (sparsify_blocks M 1000 fuel); [lia|done|done].
  - apply coo_get_coo_matrix.
Qed.

(** X2.  The block height does not show in the result: for any two positive
    block heights [sparsify_tall_mat] returns the same sparse matrix, with the
    same stored entries in the same order, namely the nonzero entries of [M]
    in row-major order. *)
Theorem sparsify_tall_mat_block_height (M : matrix T) (bh1 bh2 fuel1 fuel2 : nat) :
  0 < bh1 -> 0 < bh2 -> 0 < nrows M -> nrows M < fuel1 -> nrows M < fuel2 ->
  sparsify_tall_mat fuel1 M (Some bh1) = sparsify_tall_mat fuel2 M (Some bh2) /\
  sparsify_tall_mat fuel1 M (Some bh1)
  = Some (Ok (Coo (nrows M) (ncols M) (dense_entries 0 (rows M)))).
Proof.
  intros H1 H2 Hm Hf1 Hf2. rewrite !sparsify_blocks by done. done.
Qed.

(** X3.  The two inputs on which [sparsify_tall_mat] gives no matrix: an
    array without rows, for which the list of blocks is empty and [vstack]
    raises [ValueError]; and [block_height = 0] on an array with a row, for
    which the loop never ends. *)
Theorem sparsify_tall_mat_no_result (M : matrix T) :
  (nrows M = 0 ->
   forall fuel block_height,
     sparsify_tall_mat (S fuel) M block_height = Some (Raise ValueError)) /\
  (0 < nrows M -> forall fuel, sparsify_tall_mat fuel M (Some 0) = None).
Proof.
  split.
  - intros Hm fuel bh. by apply sparsify_empty.
  - intros Hm fuel. unfold sparsify_tall_mat. simpl default.
    by rewrite sparsify_loop_diverges.
Qed.
End SparseTheorems.

(** ** write_sedumi_model, to the end *)

Section WriteProofs.
Context {T : Type} `{ScalarLaws T}.

(** A returning call of [make_sedumi_format_problem]: the two calls of
    [simplify_sedumi_model] behind it. *)
Lemma make_result (simplify : bool) (pd : problem_data T) (r : sedumi T) :
  wf_problem_data pd ->
  snd (make_sedumi_format_problem simplify pd) = Ok r ->
  simplify = true /\ dims_q (pd_dims pd) = [] /\
  exists A b c K r1 s1 s2,
    expanded_layout pd = (A, b, c, K) /\
    wf_arrays (nrows (pd_b pd) + dims_l (pd_dims pd) + sdp_size (dims_s (pd_dims pd)))
              (cone_size K) (Arrays A b c) /\
    simplify_sedumi_model K false (Arrays A b c) = (s1, Ok r1) /\
    nonzero (out_offset r1) = false /\
    wf_arrays (length (out_b r1)) (cone_size (out_K r1)) (returned r1) /\
    simplify_sedumi_model (out_K r1) false (returned r1) = (s2, Ok r) /\
    consistent r /\
    wf_arrays (length (out_b r)) (cone_size (out_K r)) (returned r).
Proof.
  intros Hwf Hrun. rewrite make_unfold in Hrun. cbn [snd] in Hrun.
  destruct (dims_q (pd_dims pd)) eqn:Hq; [|discriminate].
  rewrite (expansion_step_layout pd Hwf) in Hrun. cbn [rbind] in Hrun.
  pose proof (expanded_layout_wf pd Hwf) as Hl.
  destruct (expanded_layout pd) as [[[A b] c] K] eqn:El.
  apply finish_inv in Hrun. destruct Hrun as (-> & r1 & H1 & Hoff & H2).
  apply call_simplify_pair in H1. destruct H1 as (s1 & H1).
  destruct (simplify_consistent K false _ s1 _ _ r1 Hl eq_refl H1) as [_ Hwf1].
  apply call_simplify_pair in H2. destruct H2 as (s2 & H2).
  destruct (simplify_consistent (out_K r1) false _ s2 _ _ r Hwf1 eq_refl H2) as [Hc Hwf2].
  split; [done|]. split; [done|].
  exists A, b, c, K, r1, s1, s2. done.
Qed.

Lemma write_run (simplify : bool) (pd : problem_data T) (r : sedumi T) :
  snd (make_sedumi_format_problem simplify pd) = Ok r ->
  write_sedumi_model simplify pd
  = (prepped pd,
     if nonzero (out_offset r) then Raise (AssertionError None)
     else Ok (out_A r, out_b r, out_c r, out_K r)).
Proof.
  intros Hrun. pose proof (make_unfold simplify pd) as Hm.
  unfold write_sedumi_model, bind. rewrite Hm. rewrite Hm in Hrun. cbn [snd] in Hrun.
  rewrite Hrun. unfold lift, ret. by destruct (nonzero (out_offset r)).
Qed.

Lemma write_raise (simplify : bool) (pd : problem_data T) (e : error) :
  snd (make_sedumi_format_problem simplify pd) = Raise e ->
  write_sedumi_model simplify pd = (prepped pd, Raise e).
Proof.
  intros Hrun. pose proof (make_unfold simplify pd) as Hm.
  unfold write_sedumi_model, bind. rewrite Hm. rewrite Hm in Hrun. cbn [snd] in Hrun.
  by rewrite Hrun.
Qed.
End WriteProofs.

Section WriteTheorems.
Context {T : Type} `{ScalarLaws T}.

(** X4.  When [make_sedumi_format_problem] returns a problem whose offset is
    0 and which has at least one constraint row, [write_sedumi_model] makes
    exactly one call of [savemat], with the target it was given, the sparse
    forms of the returned [A], [b] (as a column) and [c] (as a row) and the
    returned [K], and it returns the target. *)
Theorem write_sedumi_model_saves (pd : problem_data T) (r : sedumi T) (fuel : nat)
        (target : string) (saved : list (mat_file T)) :
  wf_problem_data pd ->
  snd (make_sedumi_format_problem true pd) = Ok r ->
  nonzero (out_offset r) = false ->
  0 < length (out_b r) -> length (out_b r) < fuel ->
  write_sedumi_model_file fuel target true (pd, saved)
  = Some (prepped pd,
          saved ++ [MatFile target (coo_matrix (out_A r))
                      (coo_matrix (col_matrix (out_b r)))
                      (coo_matrix (row_matrix (out_c r))) (out_K r)],
          Ok target).
Proof.
  intros Hwf Hrun Hoff Hb Hf.
  destruct (make_result true pd r Hwf Hrun)
    as (_ & _ & A & b & c & K & r1 & s1 & s2 & _ & _ & _ & _ & _ & _ & [_ Hrows] & _).
  unfold write_sedumi_model_file. cbn [fst snd].
  rewrite (write_run true pd r Hrun), Hoff.
  assert (EA : sparsify_tall_mat fuel (out_A r) None = Some (Ok (coo_matrix (out_A r)))).
  { apply (sparsify_blocks (out_A r) 1000 fuel); lia. }
  assert (Eb : sparsify_tall_mat fuel (col_matrix (out_b r)) None
               = Some (Ok (coo_matrix (col_matrix (out_b r))))).
  { apply (sparsify_blocks (col_matrix (out_b r)) 1000 fuel);
      unfold col_matrix, nrows; cbn [rows]; rewrite ?length_map; lia. }
  assert (Ec : sparsify_tall_mat fuel (row_matrix (out_c r)) None
               = Some (Ok (coo_matrix (row_matrix (out_c r))))).
  { apply (sparsify_blocks (row_matrix (out_c r)) 1000 fuel);
      unfold row_matrix, nrows; cbn [rows length]; lia. }
  by rewrite EA, Eb, Ec.
Qed.

(** X5.  The calls of [write_sedumi_model] that save nothing.  When the
    problem that [make_sedumi_format_problem] returns has an offset that is
    not 0, the assertion of line 35 fails.  When its offset is 0 and it has
    no constraint row left, [write_sedumi_model] raises [ValueError] (from
    [vstack] on an empty list of blocks).  When
    [make_sedumi_format_problem] raises, so does [write_sedumi_model], with
    the same exception. *)
Theorem write_sedumi_model_saves_nothing (pd : problem_data T) (simplify : bool)
        (fuel : nat) (target : string) (saved : list (mat_file T)) :
  wf_problem_data pd ->
  (forall r, snd (make_sedumi_format_problem simplify pd) = Ok r ->
     nonzero (out_offset r) = true ->
     write_sedumi_model_file fuel target simplify (pd, saved)
     = Some (prepped pd, saved, Raise (AssertionError None))) /\
  (forall r, snd (make_sedumi_format_problem simplify pd) = Ok r ->
     nonzero (out_offset r) = false -> out_b r = [] ->
     write_sedumi_model_file (S fuel) target simplify (pd, saved)
     = Some (prepped pd, saved, Raise ValueError)) /\
  (forall e, snd (make_sedumi_format_problem simplify pd) = Raise e ->
     write_sedumi_model_file fuel target simplify (pd, saved)
     = Some (prepped pd, saved, Raise e)).
Proof.
  intros Hwf. split; [|split].
  - intros r Hrun Hoff. unfold write_sedumi_model_file. cbn [fst snd].
    by rewrite (write_run simplify pd r Hrun), Hoff.
  - intros r Hrun Hoff Hb.
    destruct (make_result simplify pd r Hwf Hrun)
      as (_ & _ & A & b & c & K & r1 & s1 & s2 & _ & _ & _ & _ & _ & _ & [_ Hrows] & _).
    unfold write_sedumi_model_file. cbn [fst snd].
    rewrite (write_run simplify pd r Hrun), Hoff.
    rewrite sparsify_empty; [done|]. rewrite Hrows, Hb. done.
  - intros e Hrun. unfold write_sedumi_model_file. cbn [fst snd].
    by rewrite (write_raise simplify pd e Hrun).
Qed.
End WriteTheorems.

Lemma write_sedumi_model_saves_witness :
  let pd : problem_data Q :=
    ProblemData (Matrix 2 [[1; 0]]%Q) (Matrix 1 [[0]]%Q) (Matrix 1 [[1]; [2]]%Q)
      (Matrix 2 [[0; 1]]%Q) (Matrix 1 [[3]]%Q) (Dims 1 [] []) in
  write_sedumi_model_file 2 "p.mat"%string true (pd, [])
  = Some (prepped pd,
          [MatFile "p.mat"%string
             (Coo 1 2 [(0, 0, 1%Q); (0, 1, 1%Q)]) (Coo 1 1 [(0, 0, 3%Q)])
             (Coo 1 2 [(0, 0, 2%Q)]) (Cone 1 1 [])],
          Ok "p.mat"%string).
Proof.
  intros pd.
  assert (Hwf : wf_problem_data pd) by (repeat split; repeat constructor).
  assert (E : snd (make_sedumi_format_problem true pd)
              = Ok (Sedumi (Matrix 2 [[1; 1]]%Q) [3%Q] [2; 0]%Q (Cone 1 1 []) 0%Q))
    by (vm_compute; reflexivity).
  exact (write_sedumi_model_saves pd _ 2 "p.mat"%string [] Hwf E eq_refl
           ltac:(cbn; lia) ltac:(cbn; lia)).
Defined.

Lemma write_sedumi_model_saves_nothing_witness :
  let pd : problem_data Q :=
    ProblemData (Matrix 2 [[1; 0]]%Q) (Matrix 1 [[0]]%Q) (Matrix 1 [[0]; [1]]%Q)
      (Matrix 2 []) (Matrix 1 []) (Dims 0 [] []) in
  snd (make_sedumi_format_problem true pd)
  = Ok (Sedumi (Matrix 1 []) [] [1%Q] (Cone 1 0 []) 0%Q) /\
  write_sedumi_model_file 1 "p.mat"%string true (pd, [])
  = Some (prepped pd, [], Raise ValueError).
Proof.
  intros pd.
  assert (Hwf : wf_problem_data pd) by (repeat split; repeat constructor).
  assert (E : snd (make_sedumi_format_problem true pd)
              = Ok (Sedumi (Matrix 1 []) [] [1%Q] (Cone 1 0 []) 0%Q))
    by (vm_compute; reflexivity).
  split; [exact E|].
  exact (proj1 (proj2 (write_sedumi_model_saves_nothing pd true 0 "p.mat"%string []
                         Hwf)) _ E eq_refl eq_refl).
Defined.

(** ** The row test looks at the sparsity pattern only *)

Section Pattern.
Context {T : Type} `{ScalarLaws T}.

Lemma nonzero_nth_pattern (g g' : list T) (i : nat) :
  map nonzero g = map nonzero g' -> nonzero (nth i g zero) = nonzero (nth i g' zero).
Proof. intros E. by rewrite <- !(map_nth nonzero), E. Qed.

Lemma check_raises_IndexError (g : list T) (h : T) (n_elig : option nat) (allow : bool)
      (e : error) :
  check_eliminatibility g h n_elig allow = Raise e -> e = IndexError.
Proof.
  rewrite check_eliminatibility_spec. unfold check_spec.
  destruct (negb allow && nonzero h); [discriminate|].
  destruct (first_eligible g _); [discriminate|].
  destruct (_ <=? _); [discriminate|]. congruence.
Qed.

Lemma check_zero_row (g : list T) (h : T) (n_elig : nat) (allow : bool) :
  (forall l, l < length g -> nonzero (nth l g zero) = false) ->
  length g < n_elig -> allow = true \/ nonzero h = false ->
  check_eliminatibility g h (Some n_elig) allow = Raise IndexError.
Proof.
  intros Hz Hlt Hh. rewrite check_eliminatibility_spec. unfold check_spec. simpl default.
  replace (negb allow && nonzero h) with false
    by (destruct Hh as [->| ->]; [done|by rewrite andb_false_r]).
  unfold first_eligible. rewrite filter_none.
  - cbn. by replace (n_elig <=? length g) with false by (symmetry; apply Nat.leb_gt; lia).
  - intros i Hi. apply in_seq in Hi. apply Hz. lia.
Qed.

(** X7.  The result of [check_eliminatibility] depends on the coefficients
    only through which of them are nonzero: two rows with the same sparsity
    pattern, with right-hand sides that are both zero or both nonzero, get
    the same answer (or the same exception). *)
Theorem check_eliminatibility_pattern (g g' : list T) (h h' : T) (n_elig : option nat)
        (allow_nonzero_b : bool) :
  map nonzero g = map nonzero g' -> nonzero h = nonzero h' ->
  check_eliminatibility g h n_elig allow_nonzero_b
  = check_eliminatibility g' h' n_elig allow_nonzero_b.
Proof.
  intros Eg Eh. rewrite !check_eliminatibility_spec.
  assert (El : length g = length g')
    by (apply (f_equal length) in Eg; by rewrite !length_map in Eg).
  unfold check_spec, first_eligible, pattern_of, later_nonzeros.
  rewrite <- El, <- Eh.
  rewrite (filter_ext _ (fun i => nonzero (nth i g' zero)))
    by (intros i; by apply nonzero_nth_pattern).
  destruct (head _) as [i|]; [|done].
  rewrite (filter_ext (fun j => nonzero (nth j g zero)) (fun j => nonzero (nth j g' zero)))
    by (intros j; by apply nonzero_nth_pattern).
  done.
Qed.
End Pattern.

Lemma check_eliminatibility_pattern_witness :
  check_eliminatibility (T:=Q) [0; 2; -1; 0]%Q 0%Q (Some 2) false
  = check_eliminatibility (T:=Q) [0; 1; 5; 0]%Q 0%Q (Some 2) false.
Proof.
  exact (check_eliminatibility_pattern (T:=Q) [0; 2; -1; 0]%Q [0; 1; 5; 0]%Q 0%Q 0%Q
           (Some 2) false eq_refl eq_refl).
Defined.

(** ** A second call on the same mapping *)

Section Repeat.
Context {T : Type} `{ScalarLaws T}.

Lemma row_set_slice_shape (c : list T) (lo hi : nat) (V : matrix T) :
  nrows V <> 1 -> row_set_slice c lo hi V = Raise ValueError.
Proof.
  intros Hv. unfold row_set_slice. destruct (clip (length c) lo hi) as [lo' hi'].
  by replace (nrows V =? 1) with false by (symmetry; by apply Nat.eqb_neq).
Qed.

(** X6.  [make_sedumi_format_problem] cannot be called twice on the same
    mapping: the first call leaves the transposed [c] in it, the second call
    transposes it back into a column, and the assignment of line 93 then
    raises [ValueError] as soon as the problem has two variables or more. *)
Theorem make_sedumi_format_problem_twice (pd : problem_data T)
        (simplify1 simplify2 : bool) :
  wf_problem_data pd -> dims_q (pd_dims pd) = [] -> 2 <= nrows (pd_c pd) ->
  snd (make_sedumi_format_problem simplify2
         (fst (make_sedumi_format_problem simplify1 pd)))
  = Raise ValueError.
Proof.
  intros Hwf Hq Hn. rewrite (make_unfold simplify1 pd). cbn [fst].
  rewrite (make_unfold simplify2 (prepped pd)). cbn [snd].
  cbn [prepped pd_dims]. rewrite Hq.
  unfold expansion_step. rewrite row_set_slice_shape; [done|].
  cbn [prepped pd_c]. unfold transpose at 1. unfold nrows at 1. cbn [rows].
  rewrite length_map, length_seq. unfold transpose. cbn [ncols]. lia.
Qed.
End Repeat.

Lemma make_sedumi_format_problem_twice_witness :
  let pd : problem_data Q :=
    ProblemData (Matrix 2 [[1; 0]]%Q) (Matrix 1 [[0]]%Q) (Matrix 1 [[1]; [2]]%Q)
      (Matrix 2 [[0; 1]]%Q) (Matrix 1 [[3]]%Q) (Dims 1 [] []) in
  snd (make_sedumi_format_problem true pd)
  = Ok (Sedumi (Matrix 2 [[1; 1]]%Q) [3%Q] [2; 0]%Q (Cone 1 1 []) 0%Q) /\
  snd (make_sedumi_format_problem true (fst (make_sedumi_format_problem true pd)))
  = Raise ValueError.
Proof.
  intros pd. split; [vm_compute; reflexivity|].
  apply (make_sedumi_format_problem_twice (T:=Q) pd true true).
  - repeat split; repeat constructor.
  - reflexivity.
  - cbn. lia.
Defined.

(** ** More free variables than columns *)

Section Overrun.
Context {T : Type} `{ScalarLaws T}.

Lemma for_each_overrun (m n n_free : nat) (allow : bool) (k : nat) (pre post : list nat)
      (s : arrays T) (offset : T) :
  wf_arrays m n s -> n < n_free -> k < m -> Forall (fun k' => k' < m) pre ->
  (forall l, l < n -> nonzero (entry (arr_A s) k l) = false) ->
  allow = true \/ nonzero (nth k (arr_b s) zero) = false ->
  (forall k' g h i j, In k' pre ->
     rows (arr_A s) !! k' = Some g -> arr_b s !! k' = Some h ->
     check_eliminatibility g h (Some n_free) allow <> Ok (Some i, j)) ->
  for_each (pre ++ k :: post) (elim_row n_free allow) offset s = (s, Raise IndexError).
Proof.
  intros Hwf Hn Hk Hall Hz Hb0 Hpre. pose proof Hwf as (Hm & Hcols & HwfA & Hb & Hc).
  induction pre as [|k1 pre IH]; cbn [app for_each]; unfold bind.
  - destruct (lookup_lt_is_Some_2 (rows (arr_A s)) k ltac:(unfold nrows in *; lia))
      as [g Hg].
    destruct (lookup_lt_is_Some_2 (arr_b s) k ltac:(lia)) as [h Hh].
    pose proof (wf_row_length _ _ _ HwfA Hg) as Hlen.
    rewrite (elim_row_run s m n n_free allow k offset g h Hwf Hg Hh).
    rewrite check_zero_row; [done| | |].
    + intros l Hl. rewrite <- (entry_row _ _ _ _ Hg). apply Hz. lia.
    + lia.
    + destruct Hb0 as [->|Hb0]; [by left|right].
      by rewrite (nth_lookup_Some _ _ zero _ Hh) in Hb0.
  - apply Forall_cons in Hall. destruct Hall as [Hk1 Hall].
    destruct (lookup_lt_is_Some_2 (rows (arr_A s)) k1 ltac:(unfold nrows in *; lia))
      as [g Hg].
    destruct (lookup_lt_is_Some_2 (arr_b s) k1 ltac:(lia)) as [h Hh].
    rewrite (elim_row_run s m n n_free allow k1 offset g h Hwf Hg Hh).
    destruct (check_eliminatibility g h (Some n_free) allow) as [[[i|] j]|e] eqn:Hck.
    + exfalso. apply (Hpre k1 g h i j); [by left|done|done|done].
    + apply IH; [done|]. intros k' g' h' i' j' Hin. apply Hpre. by right.
    + by rewrite (check_raises_IndexError _ _ _ _ _ Hck).
Qed.

(** X8.  When [K['f']] exceeds the number of columns, a row of zeros whose
    right-hand side is zero (or any right-hand side, with allow_nonzero_b)
    and before which no row is eliminated is not dropped: the scan of the
    eligible window runs past the end of a row, the whole call raises
    [IndexError], and the caller's arrays are as they were. *)
Theorem simplify_sedumi_model_overrun (K : cone) (allow : bool) (s : arrays T)
        (m n k : nat) :
  wf_arrays m n s -> n < K_f K -> k < m ->
  (forall l, l < n -> nonzero (entry (arr_A s) k l) = false) ->
  allow = true \/ nonzero (nth k (arr_b s) zero) = false ->
  (forall k' g h i j, k' < k ->
     rows (arr_A s) !! k' = Some g -> arr_b s !! k' = Some h ->
     check_eliminatibility g h (Some (K_f K)) allow <> Ok (Some i, j)) ->
  simplify_sedumi_model K allow s = (s, Raise IndexError).
Proof.
  intros Hwf Hn Hk Hz Hb Hpre. pose proof Hwf as (Hm & Hcols & HwfA & Hlb & Hc).
  rewrite simplify_unfold. rewrite Hlb. unfold elimination_pass.
  replace (seq 0 m) with (seq 0 k ++ k :: seq (S k) (m - S k)).
  - rewrite (for_each_overrun m n (K_f K) allow k (seq 0 k) _ s zero Hwf Hn Hk);
      [done| |done|done|].
    + apply Forall_forall. intros k' Hin. apply list_elem_of_In, in_seq in Hin. lia.
    + intros k' g h i j Hin. apply in_seq in Hin. apply Hpre. lia.
  - replace (k :: seq (S k) (m - S k)) with (seq k (S (m - S k))) by done.
    rewrite <- seq_app. f_equal. lia.
Qed.
End Overrun.

Lemma simplify_sedumi_model_overrun_witness :
  let s : arrays Q := Arrays (Matrix 2 [[1; 2]; [0; 0]]%Q) [5; 0]%Q [1; 1]%Q in
  simplify_sedumi_model (Cone 3 0 []) false s = (s, Raise IndexError).
Proof.
  intros s.
  apply (simplify_sedumi_model_overrun (T:=Q) (Cone 3 0 []) false s 2 2 1).
  - repeat split; repeat constructor.
  - cbn. lia.
  - lia.
  - intros [|[|l]] Hl; [reflexivity|reflexivity|lia].
  - right. reflexivity.
  - intros [|k'] g h i j Hk' Hg Hh; [|lia].
    injection Hg as <-. injection Hh as <-. discriminate.
Defined.

(** ** Sums of rationals *)

Lemma Qsum_nil : Qsum [] = 0%Q.
Proof. reflexivity. Qed.

Lemma Qsum_cons (a : Q) (l : list Q) : Qsum (a :: l) = (a + Qsum l)%Q.
Proof. reflexivity. Qed.

Lemma Qsum_ext (f g : nat -> Q) (ks : list nat) :
  (forall l, In l ks -> (f l == g l)%Q) -> (Qsum (map f ks) == Qsum (map g ks))%Q.
Proof.
  induction ks as [|k ks IH]; intros Hfg; cbn [map List.filter]; rewrite ?Qsum_cons, ?Qsum_nil; [reflexivity|].
  rewrite (Hfg k) by (by left). rewrite IH; [reflexivity|].
  intros l Hl. apply Hfg. by right.
Qed.

Lemma Qsum_zero (f : nat -> Q) (ks : list nat) :
  (forall l, In l ks -> (f l == 0)%Q) -> (Qsum (map f ks) == 0)%Q.
Proof.
  induction ks as [|k ks IH]; intros Hf; cbn [map List.filter]; rewrite ?Qsum_cons, ?Qsum_nil; [reflexivity|].
  rewrite (Hf k) by (by left). rewrite IH; [ring|]. intros l Hl. apply Hf. by right.
Qed.

(** A sum with one term only. *)
Lemma Qsum_at (i : nat) (v : Q) (ks : list nat) :
  List.NoDup ks -> In i ks ->
  (Qsum (map (fun l => if l =? i then v else 0) ks) == v)%Q.
Proof.
  induction ks as [|k ks IH]; intros Hnd Hin; [destruct Hin|].
  apply List.NoDup_cons_iff in Hnd. destruct Hnd as [Hk Hnd]. cbn [map]. rewrite Qsum_cons.
  destruct (Nat.eqb_spec k i) as [->|Hne].
  - rewrite Qsum_zero; [ring|]. intros l Hl.
    destruct (Nat.eqb_spec l i) as [->|]; [done|reflexivity].
  - destruct Hin as [?|Hin]; [done|]. rewrite IH by done. ring.
Qed.

(** ** The expanded system, entry by entry *)

Section ExpandedEntries.
Context {T : Type} `{ScalarLaws T}.

Lemma expanded_entries (pd : problem_data T) :
  wf_problem_data pd ->
  let nx := nrows (pd_c pd) in
  let ne := nrows (pd_b pd) in
  let k := dims_l (pd_dims pd) + sdp_size (dims_s (pd_dims pd)) in
  let '(A, b, c, K) := expanded_layout pd in
  wf_arrays (ne + k) (nx + k) (Arrays A b c) /\
  K = Cone nx (dims_l (pd_dims pd)) (dims_s (pd_dims pd)) /\
  (forall r l, r < ne + k -> l < nx + k ->
     entry A r l =
     if r <? ne then (if l <? nx then entry (pd_A pd) r l else zero)
     else if l <? nx then entry (pd_G pd) (r - ne) l
          else if l - nx =? r - ne then one else zero) /\
  (forall r, r < ne + k ->
     nth r b zero = if r <? ne then entry (pd_b pd) r 0 else entry (pd_h pd) (r - ne) 0) /\
  (forall l, l < nx + k ->
     nth l c zero = if l <? nx then entry (pd_c pd) l 0 else zero).
Proof.
  intros Hwf. pose proof (expanded_layout_wf pd Hwf) as Hl. revert Hl.
  destruct Hwf as (HA & Hb & Hc & HG & Hh & Hc1 & Hb1 & Hh1 & HAr & HAc & HGr & HGc & Hhr).
  unfold expanded_layout. cbn zeta.
  remember (nrows (pd_c pd)) as nx eqn:Enx. remember (nrows (pd_b pd)) as ne eqn:Ene.
  remember (dims_l (pd_dims pd)) as ni eqn:Eni.
  remember (sdp_size (dims_s (pd_dims pd))) as nsdp eqn:Ensdp.
  destruct (top_rows_shape ni (pd_G pd) HG ltac:(lia)) as (HGl & HGlr & HGlc).
  destruct (rows_from_shape ni (pd_G pd) HG) as (HGs & HGsr & HGsc).
  destruct (eye_shape ni) as (HIi & HIir & HIic).
  destruct (eye_shape nsdp) as (HIs & HIsr & HIsc).
  destruct (zeros_shape ne ni) as (HZ1 & HZ1r & HZ1c).
  destruct (zeros_shape ne nsdp) as (HZ2 & HZ2r & HZ2c).
  destruct (zeros_shape ni nsdp) as (HZ3 & HZ3r & HZ3c).
  destruct (zeros_shape nsdp ni) as (HZ4 & HZ4r & HZ4c).
  destruct (hstack_shape (pd_A pd) (zeros ne ni) HA HZ1 ltac:(lia)) as (HP1 & HP1r & HP1c).
  destruct (hstack_shape _ (zeros ne nsdp) HP1 HZ2 ltac:(lia)) as (HR1 & HR1r & HR1c).
  destruct (hstack_shape (top_rows ni (pd_G pd)) (eye ni) HGl HIi ltac:(lia))
    as (HP2 & HP2r & HP2c).
  destruct (hstack_shape _ (zeros ni nsdp) HP2 HZ3 ltac:(lia)) as (HR2 & HR2r & HR2c).
  destruct (hstack_shape (rows_from ni (pd_G pd)) (zeros nsdp ni) HGs HZ4 ltac:(lia))
    as (HP3 & HP3r & HP3c).
  destruct (hstack_shape _ (eye nsdp) HP3 HIs ltac:(lia)) as (HR3 & HR3r & HR3c).
  intros Hl. unfold cone_size in Hl. cbn [K_f K_l K_s] in Hl. rewrite <- Ensdp in Hl.
  split; [by rewrite <- !Nat.add_assoc in Hl|]. split; [done|]. split; [|split].
  - intros r l Hr Hcl. rewrite entry_vstack. rewrite HR1r, HP1r, HAr.
    destruct (Nat.ltb_spec r ne) as [Hr1|Hr1].
    + rewrite entry_hstack by (assumption || lia). rewrite HP1c, HAc, HZ1c.
      destruct (Nat.ltb_spec l (nx + ni)) as [Hl1|Hl1]; [|by rewrite entry_zeros; decide_cmp].
      rewrite entry_hstack by (assumption || lia). rewrite HAc.
      destruct (Nat.ltb_spec l nx); [done|by rewrite entry_zeros].
    + rewrite entry_vstack. rewrite HR2r, HP2r, HGlr.
      destruct (Nat.ltb_spec (r - ne) ni) as [Hr2|Hr2].
      * rewrite entry_hstack by (assumption || lia). rewrite HP2c, HGlc, HIic, HGc.
        destruct (Nat.ltb_spec l (nx + ni)) as [Hl1|Hl1].
        -- rewrite entry_hstack by (assumption || lia). rewrite HGlc, HGc.
           destruct (Nat.ltb_spec l nx) as [Hl2|Hl2]; [by rewrite entry_top_rows|].
           rewrite entry_eye by lia.
           destruct (Nat.eqb_spec (r - ne) (l - nx)); decide_cmp; done.
        -- rewrite entry_zeros. decide_cmp. done.
      * rewrite entry_hstack by (assumption || lia). rewrite HP3c, HGsc, HZ4c, HGc.
        destruct (Nat.ltb_spec l (nx + ni)) as [Hl1|Hl1].
        -- rewrite entry_hstack by (assumption || lia). rewrite HGsc, HGc.
           destruct (Nat.ltb_spec l nx) as [Hl2|Hl2].
           ++ rewrite entry_rows_from. f_equal. lia.
           ++ rewrite entry_zeros. decide_cmp. done.
        -- rewrite entry_eye by lia. decide_cmp.
           destruct (Nat.eqb_spec (r - ne - ni) (l - (nx + ni))); decide_cmp; done.
  - intros r Hr. rewrite column_top_rows, column_rows_from, take_drop.
    destruct (Nat.ltb_spec r ne) as [Hr1|Hr1].
    + rewrite app_nth1 by (rewrite length_column; lia). apply nth_column. lia.
    + rewrite app_nth2 by (rewrite length_column; lia). rewrite length_column, <- Ene.
      apply nth_column. lia.
  - intros l Hcl.
    destruct (Nat.ltb_spec l nx) as [Hl1|Hl1].
    + rewrite app_nth1 by (rewrite length_column; lia). apply nth_column. lia.
    + rewrite app_nth2 by (rewrite length_column; lia). unfold vzeros.
      rewrite <- replicate_add. rewrite nth_replicate. by destruct (_ <? _).
Qed.
End ExpandedEntries.

(** ** The expanded system and the source problem *)

Lemma Qsum_app (l1 l2 : list Q) : (Qsum (l1 ++ l2) == Qsum l1 + Qsum l2)%Q.
Proof.
  induction l1 as [|a l1 IH]; cbn [app]; rewrite ?Qsum_cons, ?Qsum_nil; [ring|].
  rewrite IH. ring.
Qed.

Lemma expanded_solutions (pd : problem_data Q) (A : matrix Q) (b c : list Q) (K : cone)
      (w : nat -> Q) :
  wf_problem_data pd -> expanded_layout pd = (A, b, c, K) ->
  (solves A b w <-> source_solves pd w (slacks (nrows (pd_c pd)) w)) /\
  (objective c w == source_objective pd w)%Q.
Proof.
  intros Hwf El. pose proof (expanded_entries pd Hwf) as He. rewrite El in He.
  cbn zeta in He. destruct He as (HwfE & _ & HeA & Heb & Hec).
  destruct Hwf as (HA & Hb & Hc & HG & Hh & Hc1 & Hb1 & Hh1 & HAr & HAc & HGr & HGc & Hhr).
  destruct HwfE as (Hrows & Hcols & _ & Hlb & Hlc).
  cbn [arr_A arr_b arr_c] in Hrows, Hcols, Hlb, Hlc.
  set (nx := nrows (pd_c pd)) in *. set (ne := nrows (pd_b pd)) in *.
  set (k := dims_l (pd_dims pd) + sdp_size (dims_s (pd_dims pd))) in *.
  change (@zero Q Q_scalar) with 0%Q in *. change (@one Q Q_scalar) with 1%Q in *.
  assert (Hlow : forall r, r < ne ->
            (lhs A w r == lhs (pd_A pd) w r)%Q).
  { intros r Hr. unfold lhs. rewrite Hcols, HAc. fold nx.
    rewrite seq_app, map_app, Qsum_app. cbn [Nat.add].
    rewrite (Qsum_ext _ (fun l => entry (pd_A pd) r l * w l)%Q (seq 0 nx)).
    2:{ intros l Hl. apply in_seq in Hl. rewrite HeA by lia.
        decide_cmp. reflexivity. }
    rewrite (Qsum_zero _ (seq nx k)); [ring|].
    intros l Hl. apply in_seq in Hl. rewrite HeA by lia. decide_cmp. ring. }
  assert (Hhigh : forall r, ne <= r < ne + k ->
            (lhs A w r == lhs (pd_G pd) w (r - ne)%nat + w (nx + (r - ne))%nat)%Q).
  { intros r Hr. unfold lhs. rewrite Hcols, HGc. fold nx.
    rewrite seq_app, map_app, Qsum_app. cbn [Nat.add].
    rewrite (Qsum_ext _ (fun l => entry (pd_G pd) (r - ne)%nat l * w l)%Q (seq 0 nx)).
    2:{ intros l Hl. apply in_seq in Hl. rewrite HeA by lia.
        decide_cmp. reflexivity. }
    rewrite (Qsum_ext _ (fun l => if (l =? nx + (r - ne))%nat then w (nx + (r - ne))%nat else 0)%Q
               (seq nx k)).
    2:{ intros l Hl. apply in_seq in Hl. rewrite HeA by lia. decide_cmp.
        destruct (Nat.eqb_spec (l - nx) (r - ne)) as [E|E].
        - replace (l =? nx + (r - ne)) with true by (symmetry; apply Nat.eqb_eq; lia).
          replace (nx + (r - ne)) with l by lia. ring.
        - replace (l =? nx + (r - ne)) with false by (symmetry; apply Nat.eqb_neq; lia).
          ring. }
    rewrite Qsum_at by (apply List.seq_NoDup || (apply in_seq; lia)). reflexivity. }
  split.
  - unfold source_solves, solves, slacks. rewrite Hrows, HAr, HGr. fold ne k nx. split.
    + intros Hs. split.
      * intros r Hr. rewrite <- (Hlow r Hr), (Hs r) by lia.
        rewrite Heb by lia. decide_cmp.
        pose proof (nth_column (pd_b pd) 0 r ltac:(fold ne; lia)) as E.
        change (@zero Q Q_scalar) with 0%Q in E. rewrite E. reflexivity.
      * intros r Hr. pose proof (Hhigh (ne + r) ltac:(lia)) as E.
        replace (ne + r - ne) with r in E by lia. rewrite <- E.
        rewrite (Hs (ne + r)) by lia. rewrite Heb by lia. decide_cmp.
        replace (ne + r - ne) with r by lia. reflexivity.
    + intros [Hs1 Hs2] r Hr. rewrite Heb by lia.
      destruct (Nat.ltb_spec r ne) as [Hr1|Hr1].
      * rewrite (Hlow r Hr1), (Hs1 r Hr1).
        pose proof (nth_column (pd_b pd) 0 r ltac:(fold ne; lia)) as E.
        change (@zero Q Q_scalar) with 0%Q in E. rewrite E. reflexivity.
      * rewrite (Hhigh r) by lia. apply Hs2. lia.
  - unfold source_objective, objective. rewrite Hlc, length_column. fold nx.
    rewrite seq_app, map_app, Qsum_app. cbn [Nat.add].
    rewrite (Qsum_zero _ (seq nx k)).
    2:{ intros l Hl. apply in_seq in Hl. rewrite Hec by lia. decide_cmp. ring. }
    rewrite (Qsum_ext _ (fun l => nth l (column (pd_c pd) 0) 0 * w l)%Q (seq 0 nx)); [ring|].
    intros l Hl. apply in_seq in Hl. rewrite Hec by lia. decide_cmp.
    pose proof (nth_column (pd_c pd) 0 l ltac:(fold nx; lia)) as E.
    change (@zero Q Q_scalar) with 0%Q in E. rewrite E. reflexivity.
Qed.

(** X11.  The system that [make_sedumi_format_problem] builds before it
    simplifies says what the source problem says: a point satisfies it
    exactly when its first [nx] coordinates [x] and its remaining
    coordinates [y] satisfy [A x = b] and [G x + y = h], and its objective is
    [c x]. *)
Theorem expansion_step_meaning (pd : problem_data Q) :
  wf_problem_data pd ->
  exists A b c K,
    expansion_step (fst (problem_data_prep pd)) = Ok (A, b, c, K) /\
    K = Cone (nrows (pd_c pd)) (dims_l (pd_dims pd)) (dims_s (pd_dims pd)) /\
    forall w : nat -> Q,
      (solves A b w <-> source_solves pd w (slacks (nrows (pd_c pd)) w)) /\
      (objective c w == source_objective pd w)%Q.
Proof.
  intros Hwf. destruct (expanded_layout pd) as [[[A b] c] K] eqn:El.
  exists A, b, c, K. rewrite problem_data_prep_run. cbn [fst].
  rewrite (expansion_step_layout pd Hwf), El. split; [done|]. split.
  - pose proof (expanded_entries pd Hwf) as He. rewrite El in He. cbn zeta in He.
    by destruct He as (_ & -> & _).
  - intros w. apply (expanded_solutions pd A b c K w Hwf El).
Qed.

(** ** The cone descriptor of the returned problem, and the exceptions *)

Section ReturnedCone.
Context {T : Type} `{ScalarLaws T}.

(** X15.  The cone descriptor that [make_sedumi_format_problem] returns
    keeps the semidefinite blocks of the source problem as they are, and has
    at most as many free variables as the source problem has variables and at
    most as many nonnegative variables as it has inequalities. *)
Theorem make_sedumi_format_problem_cone (pd : problem_data T) (simplify : bool)
        (r : sedumi T) :
  wf_problem_data pd ->
  snd (make_sedumi_format_problem simplify pd) = Ok r ->
  K_s (out_K r) = dims_s (pd_dims pd) /\
  K_f (out_K r) <= nrows (pd_c pd) /\
  K_l (out_K r) <= dims_l (pd_dims pd) /\
  sdp_size (dims_s (pd_dims pd)) <= ncols (out_A r).
Proof.
  intros Hwf Hrun.
  destruct (make_result simplify pd r Hwf Hrun)
    as (_ & _ & A & b & c & K & r1 & s1 & s2 & El & HwfE & H1 & _ & Hwf1 & H2 & [Hc _] & _).
  pose proof (expanded_entries pd Hwf) as He. rewrite El in He. cbn zeta in He.
  destruct He as (_ & EK & _).
  destruct (simplify_result _ _ _ _ _ _ _ HwfE H1) as (o1 & _ & _ & _ & E1).
  destruct (simplify_result _ _ _ _ _ _ _ Hwf1 H2) as (o2 & _ & _ & _ & E2).
  assert (Es : K_s (out_K r) = dims_s (pd_dims pd)).
  { rewrite E2. cbn [pruned out_K K_s]. rewrite E1. cbn [pruned out_K K_s]. by rewrite EK. }
  assert (Ef : K_f (out_K r) <= nrows (pd_c pd)).
  { rewrite E2. cbn [pruned out_K K_f]. rewrite E1. cbn [pruned out_K K_f].
    rewrite EK. cbn [K_f]. lia. }
  assert (El' : K_l (out_K r) <= dims_l (pd_dims pd)).
  { rewrite E2. cbn [pruned out_K K_l]. rewrite E1. cbn [pruned out_K K_l].
    rewrite EK. cbn [K_l]. lia. }
  split; [done|]. split; [done|]. split; [done|].
  rewrite Hc. unfold cone_size. rewrite Es. lia.
Qed.
End ReturnedCone.

Section Exceptions.
Context {T : Type} `{ScalarLaws T}.

(** X16.  On arrays of consistent shapes with [K['f']] at most the number of
    columns, [simplify_sedumi_model] raises no [IndexError] and no
    [ValueError], with or without allow_nonzero_b: it returns when there is a
    column, and fails the assertion of line 220 when there is none. *)
Theorem simplify_sedumi_model_exceptions (K : cone) (allow : bool) (s : arrays T)
        (m n : nat) :
  wf_arrays m n s -> K_f K <= n ->
  (0 < n -> exists s' r, simplify_sedumi_model K allow s = (s', Ok r)) /\
  (n = 0 -> snd (simplify_sedumi_model K allow s) = Raise (AssertionError None)).
Proof.
  intros Hwf Hf. split.
  - intros Hn. by apply (simplify_returns K allow s m n).
  - intros ->. pose proof Hwf as (_ & _ & _ & Hb & Hc).
    rewrite simplify_unfold, Hb, Hc.
    destruct (for_each_returns m 0 (K_f K) allow (seq 0 m) s zero Hwf Hf (Forall_seq_lt m))
      as (s' & offset & Hrun).
    unfold elimination_pass. rewrite Hrun. cbn [snd].
    rewrite (pruning_pass_pruned K offset s' m 0); [done|].
    by apply (elimination_pass_wf m 0 (K_f K) m allow s s' offset).
Qed.
End Exceptions.

Lemma make_sedumi_format_problem_cone_witness :
  let pd : problem_data Q :=
    ProblemData (Matrix 2 [[1; 0]]%Q) (Matrix 1 [[0]]%Q) (Matrix 1 [[1]; [2]]%Q)
      (Matrix 2 [[1; 1]; [0; 1]]%Q) (Matrix 1 [[3]; [4]]%Q) (Dims 1 [] [1]) in
  let r : sedumi Q :=
    Sedumi (Matrix 3 [[1; 1; 0]; [1; 0; 1]]%Q) [3; 4]%Q [2; 0; 0]%Q (Cone 1 1 [1]) 0%Q in
  K_s (out_K r) = [1] /\ K_f (out_K r) <= 2 /\ K_l (out_K r) <= 1 /\
  sdp_size [1] <= ncols (out_A r).
Proof.
  intros pd r.
  apply (make_sedumi_format_problem_cone (T:=Q) pd true r).
  - repeat split; repeat constructor.
  - vm_compute. reflexivity.
Defined.

Lemma simplify_sedumi_model_exceptions_witness :
  (0 < 2 ->
   exists s' r,
     simplify_sedumi_model (T:=Q) (Cone 1 0 []) true
       (Arrays (Matrix 2 [[2; 0]]%Q) [4%Q] [1; 1]%Q) = (s', Ok r)) /\
  (2 = 0 ->
   snd (simplify_sedumi_model (T:=Q) (Cone 1 0 []) true
          (Arrays (Matrix 2 [[2; 0]]%Q) [4%Q] [1; 1]%Q))
   = Raise (AssertionError None)).
Proof.
  apply (simplify_sedumi_model_exceptions (T:=Q) (Cone 1 0 []) true
           (Arrays (Matrix 2 [[2; 0]]%Q) [4%Q] [1; 1]%Q) 1 2).
  - repeat split; repeat constructor.
  - cbn. lia.
Defined.

(** ** Concrete runs of the further properties *)

Lemma sparsify_tall_mat_reads_back_witness :
  exists S : coo Q,
    sparsify_tall_mat 3 (Matrix 2 [[0; 1]; [2; 0]]%Q) (Some 1) = Some (Ok S) /\
    coo_nrows S = 2 /\ coo_ncols S = 2 /\
    forall r c, coo_get S r c
                = if nonzero (entry (Matrix 2 [[0; 1]; [2; 0]]%Q) r c)
                  then entry (Matrix 2 [[0; 1]; [2; 0]]%Q) r c else 0%Q.
Proof.
  exact (sparsify_tall_mat_reads_back (T:=Q) (Matrix 2 [[0; 1]; [2; 0]]%Q) (Some 1) 3
           ltac:(cbn; lia) ltac:(cbn; lia) ltac:(cbn; lia)).
Defined.

Lemma sparsify_tall_mat_block_height_witness :
  sparsify_tall_mat 4 (Matrix 2 [[0; 1]; [2; 0]; [0; 3]]%Q) (Some 1)
  = sparsify_tall_mat 4 (Matrix 2 [[0; 1]; [2; 0]; [0; 3]]%Q) (Some 2) /\
  sparsify_tall_mat 4 (Matrix 2 [[0; 1]; [2; 0]; [0; 3]]%Q) (Some 1)
  = Some (Ok (Coo 3 2 [(0, 1, 1%Q); (1, 0, 2%Q); (2, 1, 3%Q)])).
Proof.
  exact (sparsify_tall_mat_block_height (T:=Q) (Matrix 2 [[0; 1]; [2; 0]; [0; 3]]%Q)
           1 2 4 4 ltac:(lia) ltac:(lia) ltac:(cbn; lia) ltac:(cbn; lia) ltac:(cbn; lia)).
Defined.

Lemma expansion_step_meaning_witness :
  let pd : problem_data Q :=
    ProblemData (Matrix 2 [[1; 0]]%Q) (Matrix 1 [[0]]%Q) (Matrix 1 [[1]; [2]]%Q)
      (Matrix 2 [[0; 1]]%Q) (Matrix 1 [[3]]%Q) (Dims 1 [] []) in
  exists A b c K,
    expansion_step (fst (problem_data_prep pd)) = Ok (A, b, c, K) /\
    K = Cone 2 1 [] /\
    forall w : nat -> Q,
      (solves A b w <-> source_solves pd w (slacks 2 w)) /\
      (objective c w == source_objective pd w)%Q.
Proof.
  intros pd. apply (expansion_step_meaning pd).
  repeat split; repeat constructor.
Defined.
